(** * Portfolio sizing and rebalancing engine: model and verification

    Shallow embedding of the rebalancing engine
    ([testing/mvo/portfolio.py]), the two optimizers
    ([testing/mvo/optimizer.py], [tradingagents/.../MVO_BLM/mvo.py],
    [tradingagents/.../MVO_BLM/blm.py]) and the trade sizing loop of
    [tradingagents/.../MVO_BLM/pipeline.py].

    Conventions of the embedding:
    - a Python [float] is idealised as an exact rational ([Q]); rounding,
      overflow and NaN are outside the model;
    - a Python [int] is a [Z];
    - a Python [dict] keyed by ticker is an association list in insertion
      order with the dictionary update discipline ([Dict.set] replaces in
      place or appends); iteration order decides the order of the trade
      list and the ties of the stable sorts, so it is kept;
    - loops are folds or structural recursions over the iterated list; a
      [break] stops the recursion. *)

From Stdlib Require Import List String Ascii Bool ZArith QArith Qround Qabs.
From Stdlib Require Import Lia Lqa Permutation Sorted OrderedTypeEx.
Import ListNotations.

Open Scope Q_scope.

(* ================================================================== *)
(** * Part I: definitions                                              *)
(* ================================================================== *)

(** ** Python dictionaries keyed by strings *)

Module Dict.

Definition t (V : Type) : Type := list (string * V).

(** [d.get(k)] *)
Fixpoint get {V : Type} (d : t V) (k : string) : option V :=
  match d with
  | [] => None
  | (k', v) :: d' => if String.eqb k k' then Some v else get d' k
  end.

(** [d.get(k, dflt)] *)
Definition get_default {V : Type} (d : t V) (k : string) (dflt : V) : V :=
  match get d k with
  | Some v => v
  | None => dflt
  end.

(** [k in d] *)
Definition mem {V : Type} (d : t V) (k : string) : bool :=
  match get d k with
  | Some _ => true
  | None => false
  end.

(** [d[k] = v]: an existing key keeps its position, a new key goes last. *)
Fixpoint set {V : Type} (d : t V) (k : string) (v : V) : t V :=
  match d with
  | [] => [(k, v)]
  | (k', v') :: d' =>
      if String.eqb k k' then (k, v) :: d' else (k', v') :: set d' k v
  end.

(** [d.keys()] and [d.values()] *)
Definition keys {V : Type} (d : t V) : list string := map fst d.
Definition values {V : Type} (d : t V) : list V := map snd d.

(** Representation invariant of a Python dict: no key occurs twice. *)
Definition wf {V : Type} (d : t V) : Prop := NoDup (keys d).

End Dict.

(** ** Python number operations on the idealised floats *)

Definition Qltb (a b : Q) : bool := negb (Qle_bool b a).

(** [max(a, b)] and [min(a, b)] of Python: the first argument wins a tie. *)
Definition py_max (a b : Q) : Q := if Qltb a b then b else a.
Definition py_min (a b : Q) : Q := if Qltb b a then b else a.

(** [int(x)] truncates toward zero. *)
Definition py_int (x : Q) : Z := Z.quot (Qnum x) (Zpos (Qden x)).

(** [a // b] on floats is the floor of the quotient, as a float. *)
Definition py_floordiv (a b : Q) : Q := inject_Z (Qfloor (a / b)).

(** [math.ceil(x)] *)
Definition py_ceil (x : Q) : Z := Qceiling x.

(** [sum(xs)] *)
Definition Qsum (xs : list Q) : Q := fold_left Qplus xs 0.

(** [list.sort(key=key, reverse=True)]: stable, descending by key. *)
Fixpoint insert_desc {A : Type} (key : A -> Q) (x : A) (l : list A) : list A :=
  match l with
  | [] => [x]
  | y :: l' =>
      if Qltb (key y) (key x) then x :: y :: l' else y :: insert_desc key x l'
  end.

Definition sort_desc {A : Type} (key : A -> Q) (l : list A) : list A :=
  fold_left (fun acc x => insert_desc key x acc) l [].

(** ** testing/mvo/portfolio.py *)

Module Portfolio.

(** One entry of [snapshot["portfolio"]]; a missing field reads as its
    [.get] default (0). *)
Record holding : Type := mkHolding {
  totalAmount : Z;
  last_price : Q;
  entry_price : Q
}.

(** A snapshot: the ledger ([portfolio], [cash]) and the aggregates written
    by [update_snapshot_prices] ([None] while the key is absent). *)
Record snapshot : Type := mkSnapshot {
  portfolio : Dict.t holding;
  cash : Q;
  portfolio_value : option Q;
  net_liquidation : option Q;
  liquid : option Q;
  buying_power : option Q
}.

(** [{"portfolio": p, "cash": c}] *)
Definition ledger (p : Dict.t holding) (c : Q) : snapshot :=
  mkSnapshot p c None None None None.

(** [portfolio.get(t, {}).get("totalAmount", 0)] and its siblings *)
Definition qty_of (o : option holding) : Z :=
  match o with Some h => totalAmount h | None => 0%Z end.

Definition last_price_of (o : option holding) : Q :=
  match o with Some h => last_price h | None => 0 end.

Definition entry_price_of (o : option holding) : Q :=
  match o with Some h => entry_price h | None => 0 end.

(** The body of [compute_market_value], on the portfolio dictionary. *)
Definition market_value_of (p : Dict.t holding) : Q :=
  fold_left
    (fun total (e : string * holding) =>
       total + inject_Z (totalAmount (snd e)) * last_price (snd e))
    p 0.

Definition compute_market_value (s : snapshot) : Q :=
  market_value_of (portfolio s).

(** The first loop of [update_snapshot_prices]. *)
Definition reprice (prices : Dict.t Q) (p : Dict.t holding) : Dict.t holding :=
  map
    (fun e : string * holding =>
       match Dict.get prices (fst e) with
       | Some px =>
           (fst e, mkHolding (totalAmount (snd e)) px (entry_price (snd e)))
       | None => e
       end)
    p.

(** The price a holding is valued at after [update_snapshot_prices]. *)
Definition priced_at (prices : Dict.t Q) (t : string) (h : holding) : Q :=
  Dict.get_default prices t (last_price h).

Definition update_snapshot_prices (s : snapshot) (prices : Dict.t Q) : snapshot :=
  let p := reprice prices (portfolio s) in
  let market_value := market_value_of p in
  let net_liq := market_value + cash s in
  mkSnapshot p (cash s) (Some net_liq) (Some net_liq) (Some (cash s))
    (Some net_liq).

(** The long-only invariant of a portfolio: no quantity is negative. *)
Definition long_only (p : Dict.t holding) : Prop :=
  Forall (fun h => (0 <= totalAmount h)%Z) (Dict.values p).

(** An entry of the [changes] list: [(ticker, prev_qty, new_qty)]. *)
Definition change : Type := (string * Z * Z)%type.

(** *** apply_target_weights *)

Record atw_state : Type := mkAtw {
  atw_portfolio : Dict.t holding;
  atw_changes : list change;
  atw_cash : Q
}.

(** Target share count of one ticker: [int(td // price)]. *)
Definition atw_target_qty (td price : Q) : Z := py_int (py_floordiv td price).

(** Body of the loop [for ticker, td in zip(tickers, target_dollars)]. *)
Definition atw_step (portfolio_prev : Dict.t holding) (prices : Dict.t Q)
  (st : atw_state) (e : string * Q) : atw_state :=
  let ticker := fst e in
  let td := snd e in
  let price := Dict.get_default prices ticker 0 in
  if Qle_bool price 0 then
    let prev_qty := qty_of (Dict.get portfolio_prev ticker) in
    if (0 <? prev_qty)%Z then
      mkAtw
        (Dict.set (atw_portfolio st) ticker
           (mkHolding prev_qty
              (if Qltb 0 price then price
               else last_price_of (Dict.get portfolio_prev ticker))
              (entry_price_of (Dict.get portfolio_prev ticker))))
        (atw_changes st) (atw_cash st)
    else st
  else
    let target_qty := atw_target_qty td price in
    let prev_qty := qty_of (Dict.get portfolio_prev ticker) in
    let delta_qty := (target_qty - prev_qty)%Z in
    let cash' := atw_cash st - inject_Z delta_qty * price in
    let new_portfolio :=
      if (0 <? target_qty)%Z then
        let prev_entry := entry_price_of (Dict.get portfolio_prev ticker) in
        let new_entry :=
          if (0 <? delta_qty)%Z && (0 <? prev_qty)%Z then
            (inject_Z prev_qty * prev_entry + inject_Z delta_qty * price)
            / inject_Z (prev_qty + delta_qty)
          else if (0 <? delta_qty)%Z && (prev_qty =? 0)%Z then price
          else prev_entry in
        Dict.set (atw_portfolio st) ticker (mkHolding target_qty price new_entry)
      else atw_portfolio st in
    let changes' :=
      if (prev_qty =? target_qty)%Z then atw_changes st
      else atw_changes st ++ [(ticker, prev_qty, target_qty)] in
    mkAtw new_portfolio changes' cash'.

(** Body of the loop that keeps the tickers not priced today. *)
Definition atw_keep_unpriced (prices : Dict.t Q) (new_portfolio : Dict.t holding)
  (e : string * holding) : Dict.t holding :=
  if negb (Dict.mem new_portfolio (fst e)) && negb (Dict.mem prices (fst e)) then
    Dict.set new_portfolio (fst e)
      (mkHolding (totalAmount (snd e)) (last_price (snd e)) (entry_price (snd e)))
  else new_portfolio.

(** Total equity at today's prices, as both rebalancers compute it first. *)
Definition equity_at (s : snapshot) (prices : Dict.t Q) : Q :=
  compute_market_value
    (update_snapshot_prices (ledger (portfolio s) (cash s)) prices)
  + cash s.

Definition atw_target_dollars (total_equity : Q) (target_weights : list Q) : list Q :=
  map (fun w => py_max 0 w * total_equity) target_weights.

Definition apply_target_weights (snapshot_prev : snapshot) (tickers : list string)
  (prices : Dict.t Q) (target_weights : list Q) : snapshot * list change :=
  let portfolio_prev := portfolio snapshot_prev in
  let cash_prev := cash snapshot_prev in
  let total_equity := equity_at snapshot_prev prices in
  let target_dollars := atw_target_dollars total_equity target_weights in
  let st :=
    fold_left (atw_step portfolio_prev prices) (combine tickers target_dollars)
      (mkAtw [] [] cash_prev) in
  let new_portfolio :=
    fold_left (atw_keep_unpriced prices) portfolio_prev (atw_portfolio st) in
  (update_snapshot_prices (ledger new_portfolio (atw_cash st)) prices,
   atw_changes st).

(** *** apply_partial_target_weights *)

(** [prices.get(t, portfolio_prev.get(t, {}).get("last_price", 0.0))] *)
Definition price_or_last (prices : Dict.t Q) (p : Dict.t holding) (t : string) : Q :=
  Dict.get_default prices t (last_price_of (Dict.get p t)).

(** The loop that accumulates [subset_value] over the repriced copy. *)
Definition subset_value (temp_portfolio : Dict.t holding) (prices : Dict.t Q)
  (target_weights_partial : Dict.t Q) : Q :=
  fold_left
    (fun acc t =>
       acc + inject_Z (qty_of (Dict.get temp_portfolio t))
             * price_or_last prices temp_portfolio t)
    (Dict.keys target_weights_partial) 0.

(** [target_dollars]: the weight clamped at 0, times the subset budget,
    capped per name. *)
Definition partial_target_dollars (total_equity per_name_cap : Q)
  (target_weights_partial : Dict.t Q) : Dict.t Q :=
  map (fun e : string * Q =>
         (fst e, py_min (py_max 0 (snd e) * total_equity) per_name_cap))
    target_weights_partial.

(** [target_qty] *)
Definition partial_target_qty (portfolio_prev : Dict.t holding) (prices : Dict.t Q)
  (target_dollars : Dict.t Q) : Dict.t Z :=
  map (fun e : string * Q =>
         let px := price_or_last prices portfolio_prev (fst e) in
         (fst e,
          if Qle_bool px 0 then qty_of (Dict.get portfolio_prev (fst e))
          else py_int (py_floordiv (snd e) px)))
    target_dollars.

(** State of the sell pass: cash and the trade list. *)
Record sell_state : Type := mkSell {
  sell_cash : Q;
  sell_changes : list change
}.

(** Body of "First, sell down within subset to free cash". *)
Definition sell_step (portfolio_prev : Dict.t holding) (prices : Dict.t Q)
  (st : sell_state) (e : string * Z) : sell_state :=
  let t := fst e in
  let tq := snd e in
  let prev_q := qty_of (Dict.get portfolio_prev t) in
  let px := price_or_last prices portfolio_prev t in
  if (tq <? prev_q)%Z then
    let sell_q := (prev_q - tq)%Z in
    mkSell (sell_cash st + inject_Z sell_q * px)
      (sell_changes st ++ [(t, prev_q, tq)])
  else st.

(** A pending buy: [(t, need_q, px, cost)]. *)
Record buy_req : Type := mkBuyReq {
  br_ticker : string;
  br_need_q : Z;
  br_px : Q;
  br_cost : Q
}.

Definition buy_reqs_of (portfolio_prev : Dict.t holding) (prices : Dict.t Q)
  (target_qty : Dict.t Z) : list buy_req :=
  flat_map
    (fun e : string * Z =>
       let t := fst e in
       let tq := snd e in
       let prev_q := qty_of (Dict.get portfolio_prev t) in
       if (prev_q <? tq)%Z then
         let px := price_or_last prices portfolio_prev t in
         let need_q := (tq - prev_q)%Z in
         [mkBuyReq t need_q px (inject_Z need_q * px)]
       else [])
    target_qty.

Definition total_cost_of (buy_reqs : list buy_req) : Q :=
  Qsum (map br_cost buy_reqs).

(** The global cap [min(cash, 0.05 * total_portfolio_equity)]. *)
Definition allowable_budget_of (cash total_portfolio_equity : Q) : Q :=
  py_min cash ((5 # 100) * total_portfolio_equity).

Definition scale_of (total_cost allowable_budget : Q) : Q :=
  if Qltb allowable_budget total_cost && Qltb 0 total_cost then
    allowable_budget / total_cost
  else 1.

(** An applied buy: [(t, buy_q, px)]. *)
Definition applied_buy : Type := (string * Z * Q)%type.

Record buy_state : Type := mkBuy {
  buy_portfolio : Dict.t holding;
  buy_cash : Q;
  buy_changes : list change;
  buy_applied : list applied_buy
}.

(** Body of "Apply buys with scaling if needed". *)
Definition buy_step (scale : Q) (st : buy_state) (r : buy_req) : buy_state :=
  let t := br_ticker r in
  let px := br_px r in
  let buy_q := py_int (inject_Z (br_need_q r) * scale) in
  if (buy_q <=? 0)%Z then st
  else
    let prev_q := qty_of (Dict.get (buy_portfolio st) t) in
    let new_q := (prev_q + buy_q)%Z in
    let prev_entry := entry_price_of (Dict.get (buy_portfolio st) t) in
    let new_entry :=
      if (0 <? prev_q)%Z then
        (inject_Z prev_q * prev_entry + inject_Z buy_q * px) / inject_Z new_q
      else px in
    mkBuy (Dict.set (buy_portfolio st) t (mkHolding new_q px new_entry))
      (buy_cash st - inject_Z buy_q * px)
      (buy_changes st ++ [(t, prev_q, new_q)])
      (buy_applied st ++ [(t, buy_q, px)]).


(** [del new_portfolio[t]] for every [t] whose quantity is [<= 0]. *)
Definition drop_flat (p : Dict.t holding) : Dict.t holding :=
  filter (fun e : string * holding => (0 <? totalAmount (snd e))%Z) p.

(** The inner [while bq > 0 and cash < 0] of the unwind, one share per
    turn; [n] is [bq]. *)
Fixpoint unwind_shares (n : nat) (t : string) (px : Q)
  (p : Dict.t holding) (cash : Q) : Dict.t holding * Q :=
  match n with
  | O => (p, cash)
  | S n' =>
      if Qltb cash 0 then
        let prev_q := qty_of (Dict.get p t) in
        if (prev_q <=? 0)%Z then (p, cash)
        else
          let prev_entry := entry_price_of (Dict.get p t) in
          unwind_shares n' t px
            (Dict.set p t (mkHolding (prev_q - 1) px prev_entry))
            (cash + px)
      else (p, cash)
  end.

(** The outer [for t, bq, px in applied_buys] with its [break]. *)
Fixpoint unwind_buys (buys : list applied_buy) (p : Dict.t holding) (cash : Q)
  : Dict.t holding * Q :=
  match buys with
  | [] => (p, cash)
  | (t, bq, px) :: rest =>
      if Qle_bool 0 cash then (p, cash)
      else
        let r := unwind_shares (Z.to_nat bq) t px p cash in
        unwind_buys rest (fst r) (snd r)
  end.

(** "Final guard: never allow negative cash due to rounding". *)
Definition unwind_pass (applied_buys : list applied_buy) (p : Dict.t holding)
  (cash : Q) : Dict.t holding * Q :=
  match applied_buys with
  | [] => (p, cash)
  | _ :: _ =>
      if Qltb cash 0 then
        let sorted :=
          sort_desc (fun b : applied_buy => inject_Z (snd (fst b)) * snd b)
            applied_buys in
        let r := unwind_buys sorted p cash in
        (drop_flat (fst r), snd r)
      else (p, cash)
  end.

(** A sell candidate: [(ticker, qty, px, market_value)]. *)
Record sell_cand : Type := mkCand {
  sc_ticker : string;
  sc_qty : Z;
  sc_px : Q;
  sc_mv : Q
}.

Definition sell_candidates_of (prices : Dict.t Q) (p : Dict.t holding)
  : list sell_cand :=
  flat_map
    (fun e : string * holding =>
       let qty := totalAmount (snd e) in
       if (qty <=? 0)%Z then []
       else
         let px := Dict.get_default prices (fst e) (last_price (snd e)) in
         if Qle_bool px 0 then []
         else [mkCand (fst e) qty px (inject_Z qty * px)])
    p.

Record esell_state : Type := mkEsell {
  es_portfolio : Dict.t holding;
  es_cash : Q;
  es_shortfall : Q;
  es_changes : list change
}.

(** The emergency-sell loop [for t, qty, px, _ in sell_candidates]. *)
Fixpoint emergency_sells (cands : list sell_cand) (st : esell_state) : esell_state :=
  match cands with
  | [] => st
  | c :: rest =>
      if Qle_bool (es_shortfall st) 0 then st
      else
        let sell_qty := Z.min (sc_qty c) (py_ceil (es_shortfall st / sc_px c)) in
        if (sell_qty <=? 0)%Z then emergency_sells rest st
        else
          let t := sc_ticker c in
          let px := sc_px c in
          let prev_q := qty_of (Dict.get (es_portfolio st) t) in
          let new_q := (prev_q - sell_qty)%Z in
          let prev_entry := entry_price_of (Dict.get (es_portfolio st) t) in
          emergency_sells rest
            (mkEsell
               (Dict.set (es_portfolio st) t (mkHolding new_q px prev_entry))
               (es_cash st + inject_Z sell_qty * px)
               (py_max 0 (es_shortfall st - inject_Z sell_qty * px))
               (es_changes st ++ [(t, prev_q, new_q)]))
  end.

(** "enforce emergency sells across holdings to bring cash to non-negative" *)
Definition emergency_pass (prices : Dict.t Q) (p : Dict.t holding) (cash : Q)
  (changes : list change) : Dict.t holding * Q * list change :=
  if Qltb cash 0 then
    let cands := sort_desc sc_mv (sell_candidates_of prices p) in
    let st := emergency_sells cands (mkEsell p cash (- cash) changes) in
    (drop_flat (es_portfolio st), es_cash st, es_changes st)
  else (p, cash, changes).

(** "Enforce equity invariance": the drift beyond [1e-6] goes into cash. *)
Definition equity_guard (initial_total_equity : Q) (new_snapshot : snapshot)
  (prices : Dict.t Q) : snapshot :=
  let after_equity := compute_market_value new_snapshot + cash new_snapshot in
  let delta := initial_total_equity - after_equity in
  if Qltb (1 # 1000000) (Qabs delta) then
    update_snapshot_prices
      (mkSnapshot (portfolio new_snapshot) (cash new_snapshot + delta)
         (portfolio_value new_snapshot) (net_liquidation new_snapshot)
         (liquid new_snapshot) (buying_power new_snapshot))
      prices
  else new_snapshot.

(** The values [apply_partial_target_weights] holds when the scaled buy
    pass ends: everything computed before "Final guard". *)
Record partial_plan : Type := mkPlan {
  plan_initial_equity : Q;
  plan_target_qty : Dict.t Z;
  plan_cash_after_sells : Q;
  plan_buy_reqs : list buy_req;
  plan_total_cost : Q;
  plan_allowable_budget : Q;
  plan_scale : Q;
  plan_after_buys : buy_state
}.

Definition partial_plan_of (snapshot_prev : snapshot) (prices : Dict.t Q)
  (target_weights_partial : Dict.t Q) : partial_plan :=
  let portfolio_prev := portfolio snapshot_prev in
  let cash0 := cash snapshot_prev in
  let temp := update_snapshot_prices (ledger portfolio_prev cash0) prices in
  let initial_total_equity := compute_market_value temp + cash temp in
  let market_value_total := compute_market_value temp in
  let total_equity :=
    subset_value (portfolio temp) prices target_weights_partial + cash0 in
  let total_portfolio_equity := market_value_total + cash0 in
  let per_name_cap := (5 # 100) * total_portfolio_equity in
  let target_dollars :=
    partial_target_dollars total_equity per_name_cap target_weights_partial in
  let target_qty := partial_target_qty portfolio_prev prices target_dollars in
  let sold :=
    fold_left (sell_step portfolio_prev prices) target_qty (mkSell cash0 []) in
  let buy_reqs := buy_reqs_of portfolio_prev prices target_qty in
  let total_cost := total_cost_of buy_reqs in
  let allowable_budget :=
    allowable_budget_of (sell_cash sold) total_portfolio_equity in
  let scale := scale_of total_cost allowable_budget in
  let bought :=
    fold_left (buy_step scale) buy_reqs
      (mkBuy portfolio_prev (sell_cash sold) (sell_changes sold) []) in
  mkPlan initial_total_equity target_qty (sell_cash sold) buy_reqs total_cost
    allowable_budget scale bought.

Definition apply_partial_target_weights (snapshot_prev : snapshot)
  (prices : Dict.t Q) (target_weights_partial : Dict.t Q)
  : snapshot * list change :=
  let plan := partial_plan_of snapshot_prev prices target_weights_partial in
  let bought := plan_after_buys plan in
  let unwound :=
    unwind_pass (buy_applied bought) (buy_portfolio bought) (buy_cash bought) in
  let sold :=
    emergency_pass prices (fst unwound) (snd unwound) (buy_changes bought) in
  let new_portfolio := fst (fst sold) in
  let cash_final := snd (fst sold) in
  let changes := snd sold in
  let new_snapshot :=
    update_snapshot_prices (ledger new_portfolio cash_final) prices in
  (equity_guard (plan_initial_equity plan) new_snapshot prices, changes).

(** *** force_cash_non_negative *)

Record fsell_state : Type := mkFsell {
  fs_portfolio : Dict.t holding;
  fs_cash : Q;
  fs_shortfall : Q
}.

Fixpoint forced_sells (cands : list sell_cand) (st : fsell_state) : fsell_state :=
  match cands with
  | [] => st
  | c :: rest =>
      if Qle_bool (fs_shortfall st) 0 then st
      else
        let sell_qty := Z.min (sc_qty c) (py_ceil (fs_shortfall st / sc_px c)) in
        if (sell_qty <=? 0)%Z then forced_sells rest st
        else
          let t := sc_ticker c in
          let px := sc_px c in
          let prev_q := qty_of (Dict.get (fs_portfolio st) t) in
          let new_q := (prev_q - sell_qty)%Z in
          let prev_entry := entry_price_of (Dict.get (fs_portfolio st) t) in
          forced_sells rest
            (mkFsell
               (Dict.set (fs_portfolio st) t (mkHolding new_q px prev_entry))
               (fs_cash st + inject_Z sell_qty * px)
               (py_max 0 (fs_shortfall st - inject_Z sell_qty * px)))
  end.

Definition force_cash_non_negative (s : snapshot) (prices : Dict.t Q) : snapshot :=
  if Qle_bool 0 (cash s) then update_snapshot_prices s prices
  else
    let cands := sort_desc sc_mv (sell_candidates_of prices (portfolio s)) in
    let st := forced_sells cands (mkFsell (portfolio s) (cash s) (- cash s)) in
    let out := ledger (drop_flat (fs_portfolio st)) (py_max 0 (fs_cash st)) in
    update_snapshot_prices out prices.

(** The snapshot a rebalance day writes ([testing/mvo_blm_runner.py]):
    the partial rebalance followed by the cash correction. *)
Definition emit_rebalance (s : snapshot) (prices : Dict.t Q)
  (target_weights_partial : Dict.t Q) : snapshot :=
  force_cash_non_negative
    (fst (apply_partial_target_weights s prices target_weights_partial)) prices.

(** The snapshot a revaluation-only day writes. *)
Definition emit_revaluation (s : snapshot) (prices : Dict.t Q) : snapshot :=
  force_cash_non_negative (update_snapshot_prices s prices) prices.

End Portfolio.

(** ** Valuation of a portfolio at a price map

    The notions the equity and long-only arguments are stated with. *)

Module Valuation.
Import Portfolio.

(** Value of one holding at today's price, or at its last price when the
    ticker is not priced today. *)
Definition entry_value (prices : Dict.t Q) (e : string * holding) : Q :=
  inject_Z (totalAmount (snd e)) * priced_at prices (fst e) (snd e).

(** [sum(qty * price)] over the portfolio, at the price map. *)
Definition valuation (prices : Dict.t Q) (p : Dict.t holding) : Q :=
  Qsum (map (entry_value prices) p).

(** What the previous position in [t] is worth to the loop of
    [apply_target_weights]: its market value when [t] is priced above 0,
    the value of the position carried over when it is not. *)
Definition carried_value (portfolio_prev : Dict.t holding) (prices : Dict.t Q)
  (t : string) : Q :=
  let px := Dict.get_default prices t 0 in
  let q := qty_of (Dict.get portfolio_prev t) in
  if Qle_bool px 0 then
    if (0 <? q)%Z then
      inject_Z q
      * Dict.get_default prices t (last_price_of (Dict.get portfolio_prev t))
    else 0
  else inject_Z q * px.

(** Value the loop "keep tickers not priced today" adds for one previous
    holding, given the portfolio built so far. *)
Definition kept_value (prices : Dict.t Q) (new_portfolio : Dict.t holding)
  (e : string * holding) : Q :=
  if negb (Dict.mem new_portfolio (fst e)) && negb (Dict.mem prices (fst e))
  then entry_value prices e
  else 0.

(** Every candidate of the emergency sale names a distinct ticker and
    offers no more shares than the portfolio holds. *)
Definition covered (cands : list sell_cand) (p : Dict.t holding) : Prop :=
  NoDup (map sc_ticker cands)
  /\ Forall (fun c => (sc_qty c <= qty_of (Dict.get p (sc_ticker c)))%Z) cands.

End Valuation.

(** ** Vectors and matrices (numpy arrays of floats)

    A vector is a list, a matrix the list of its rows. *)

Module LinAlg.

Definition vec : Type := list Q.
Definition matrix : Type := list (list Q).

Definition dot (u v : vec) : Q :=
  Qsum (map (fun p : Q * Q => fst p * snd p) (combine u v)).

Definition vec_add (u v : vec) : vec :=
  map (fun p : Q * Q => fst p + snd p) (combine u v).

Definition vec_scale (c : Q) (v : vec) : vec := map (Qmult c) v.

Definition ncols (M : matrix) : nat :=
  match M with
  | [] => O
  | r :: _ => List.length r
  end.

(** [M.size] *)
Definition size (M : matrix) : nat :=
  fold_left (fun acc r => (acc + List.length r)%nat) M O.

(** [M.shape == (n, n)] *)
Definition is_square (n : nat) (M : matrix) : bool :=
  Nat.eqb (List.length M) n && forallb (fun r => Nat.eqb (List.length r) n) M.

Definition column (j : nat) (M : matrix) : vec := map (fun r => nth j r 0) M.

(** [M.T] *)
Definition transpose (M : matrix) : matrix :=
  map (fun j => column j M) (seq 0 (ncols M)).

(** [M @ v] *)
Definition mat_vec (M : matrix) (v : vec) : vec := map (fun r => dot r v) M.

(** [A @ B] *)
Definition mat_mul (A B : matrix) : matrix :=
  map (fun r => map (fun c => dot r c) (transpose B)) A.

Definition mat_add (A B : matrix) : matrix :=
  map (fun p : vec * vec => vec_add (fst p) (snd p)) (combine A B).

Definition mat_scale (c : Q) (M : matrix) : matrix := map (vec_scale c) M.

(** [np.eye(n)] *)
Definition eye (n : nat) : matrix :=
  map (fun i => map (fun j => if Nat.eqb i j then 1 else 0) (seq 0 n)) (seq 0 n).

(** [np.diag] of a matrix (its diagonal) and of a vector (the diagonal
    matrix). *)
Definition diag_of (M : matrix) : vec :=
  map (fun i => nth i (nth i M []) 0) (seq 0 (List.length M)).

Definition diag (v : vec) : matrix :=
  map (fun i => map (fun j => if Nat.eqb i j then nth i v 0 else 0)
                  (seq 0 (List.length v)))
    (seq 0 (List.length v)).

(** [np.maximum(v, 0.0)], [np.clip(v, 0, None)] *)
Definition clip (v : vec) : vec := map (fun x => py_max x 0) v.

(** [np.ones(n) / n] *)
Definition equal_weights (n : nat) : vec :=
  repeat (1 / inject_Z (Z.of_nat n)) n.

Definition is_diagonal (M : matrix) : bool :=
  forallb
    (fun i =>
       forallb
         (fun j => Nat.eqb i j || Qeq_bool (nth j (nth i M []) 0) 0)
         (seq 0 (List.length (nth i M []))))
    (seq 0 (List.length M)).

(** The Moore-Penrose pseudo-inverse of a diagonal matrix inverts its
    non-zero entries and keeps the zeros ([/ 0] is [0] in [Q]). *)
Definition pinv_diag (M : matrix) : matrix := map (map Qinv) M.

(** The strict inverse of a diagonal matrix: [None] stands for the
    [LinAlgError] that [np.linalg.inv] raises on a singular matrix. *)
Definition inv_diag (M : matrix) : option matrix :=
  if forallb (fun x => negb (Qeq_bool x 0)) (diag_of M) then Some (pinv_diag M)
  else None.

End LinAlg.

(** ** testing/mvo/optimizer.py

    [np.linalg.pinv] is a numpy routine, outside the repository: the model
    takes it as the parameter [pinv].  It is total (every matrix has a
    pseudo-inverse), so the [except np.linalg.LinAlgError] branch of
    [mean_variance_optimize] is never entered. *)

Module Optimizer.
Import LinAlg.

Section WithPinv.

Variable pinv : matrix -> matrix.

(** [None] stands for a raised exception: the [ValueError] of the shape
    check, or the [ZeroDivisionError] of [1.0 / risk_aversion]. *)
Definition mean_variance_optimize (expected_returns : vec) (covariance : matrix)
  (risk_aversion : Q) (long_only : bool) : option vec :=
  let n := List.length expected_returns in
  if negb (is_square n covariance) then None
  else
    let inv_cov := pinv covariance in
    if Qeq_bool risk_aversion 0 then None
    else
      let raw_weights :=
        mat_vec (mat_scale (1 / risk_aversion) inv_cov) expected_returns in
      let raw_weights :=
        if long_only then clip raw_weights else raw_weights in
      let s := Qsum raw_weights in
      Some (if Qltb 0 s then map (fun x => x / s) raw_weights
            else equal_weights n).

(** [Omega = None] is the omitted argument. *)
Definition black_litterman (market_weights : vec) (covariance : matrix)
  (risk_aversion : Q) (P : matrix) (Qv : vec) (tau : Q)
  (Omega : option matrix) : vec :=
  let inv_cov := pinv covariance in
  let pi := mat_vec (mat_scale risk_aversion covariance) market_weights in
  if Nat.eqb (size P) 0 then pi
  else
    let tauSigma := mat_scale tau covariance in
    let default_Omega :=
      diag (map (fun x => py_max x (1 # 100000000))
              (diag_of (mat_mul (mat_mul P tauSigma) (transpose P)))) in
    let Omega' :=
      match Omega with
      | None => default_Omega
      | Some Om => if Nat.eqb (size Om) 0 then default_Omega else Om
      end in
    let M :=
      pinv (mat_add inv_cov (mat_mul (mat_mul (transpose P) (pinv Omega')) P)) in
    mat_vec M
      (vec_add (mat_vec inv_cov pi)
         (mat_vec (mat_mul (transpose P) (pinv Omega')) Qv)).

(** The posterior mean in the closed form of the specification, whose
    prior precision is the inverse of [tau * Sigma]:
    [(inv(tau Sigma) + P' inv(Omega) P)^-1 (inv(tau Sigma) pi + P' inv(Omega) Q)]. *)
Definition posterior_mean_closed_form (covariance : matrix) (pi : vec)
  (P : matrix) (Qv : vec) (tau : Q) (Omega : matrix) : vec :=
  let prior_precision := pinv (mat_scale tau covariance) in
  let view_precision := mat_mul (transpose P) (pinv Omega) in
  mat_vec (pinv (mat_add prior_precision (mat_mul view_precision P)))
    (vec_add (mat_vec prior_precision pi) (mat_vec view_precision Qv)).

End WithPinv.

End Optimizer.

(** ** tradingagents/agents/managers/MVO_BLM/mvo.py *)

Module MVO.
Import LinAlg.

Section WithPinv.

Variable pinv : matrix -> matrix.

Definition mean_variance_optimize (mu : vec) (cov : matrix) (long_only : bool)
  : vec :=
  let inv_cov := pinv cov in
  let w := mat_vec inv_cov mu in
  let w := if long_only then clip w else w in
  let s := Qsum w in
  if Qeq_bool s 0 then equal_weights (List.length w)
  else map (fun x => x / s) w.

End WithPinv.

End MVO.

(** ** tradingagents/agents/managers/MVO_BLM/blm.py

    [np.linalg.inv] is taken as the parameter [inv]; [None] is the
    [LinAlgError] it raises on a singular matrix. *)

Module BLM.
Import LinAlg.

Section WithInv.

Variable inv : matrix -> option matrix.

(** Returns [(mu_bl, cov_bl, pi)], or [None] when an inversion raises. *)
Definition black_litterman (cov : matrix) (market_weights : vec)
  (views : Dict.t Q) (tickers : list string) (risk_aversion tau omega_scale : Q)
  : option (vec * matrix * vec) :=
  let n := List.length tickers in
  let w_sum := Qsum market_weights in
  let w_mkt :=
    map (fun x => x / (if Qeq_bool w_sum 0 then 1 else w_sum)) market_weights in
  let pi := vec_scale risk_aversion (mat_vec cov w_mkt) in
  let Qv := map (fun t => Dict.get_default views t 0) tickers in
  let P := eye n in
  let omega :=
    mat_scale omega_scale
      (diag (diag_of (mat_mul (mat_mul P (mat_scale tau cov)) (transpose P)))) in
  match inv (mat_scale tau cov) with
  | None => None
  | Some inv_tau_cov =>
      match inv omega with
      | None => None
      | Some omega_inv =>
          let middle :=
            mat_add inv_tau_cov (mat_mul (mat_mul (transpose P) omega_inv) P) in
          let right :=
            vec_add (mat_vec inv_tau_cov pi)
              (mat_vec (mat_mul (transpose P) omega_inv) Qv) in
          match inv middle with
          | None => None
          | Some middle_inv => Some (mat_vec middle_inv right, middle_inv, pi)
          end
      end
  end.

End WithInv.

End BLM.

(** ** tradingagents/agents/managers/MVO_BLM/pipeline.py *)

Module Pipeline.
Import Portfolio.

(** [str.upper], on ASCII letters. *)
Definition upper_ascii (c : ascii) : ascii :=
  let n := nat_of_ascii c in
  if Nat.leb 97 n && Nat.leb n 122 then ascii_of_nat (n - 32) else c.

Fixpoint upper (s : string) : string :=
  match s with
  | EmptyString => EmptyString
  | String c s' => String (upper_ascii c) (upper s')
  end.

(** One value of the [trades] dictionary. *)
Record trade : Type := mkTrade {
  delta_shares : Z;
  target_qty : Z;
  current_qty : Z;
  price : Q
}.

(** [(decisions.get(t, 'HOLD') or '').upper()] *)
Definition decision_of (decisions : Dict.t string) (t : string) : string :=
  upper (Dict.get_default decisions t "HOLD"%string).

(** Body of the loop "Translate targets to trades respecting rules", for a
    ticker priced at [price > 0]. *)
Definition size_trade (decision : string) (target_value price : Q)
  (curr_qty min_lot : Z) : trade :=
  let target_qty0 := Z.max 0 (py_int (py_floordiv target_value price)) in
  let target_qty := if String.eqb decision "SELL"%string then 0%Z else target_qty0 in
  let delta :=
    if (0 <? curr_qty)%Z then
      if String.eqb decision "SELL"%string then (- curr_qty)%Z
      else if String.eqb decision "BUY"%string then (target_qty - curr_qty)%Z
      else (target_qty - curr_qty)%Z
    else
      if String.eqb decision "BUY"%string || String.eqb decision "HOLD"%string then
        let qty := if (0 <? target_qty)%Z then target_qty else Z.max min_lot 1 in
        Z.max 0 qty
      else
        if (curr_qty <? 0)%Z then (- curr_qty)%Z else 0%Z in
  mkTrade delta target_qty curr_qty price.

(** [targets = {t: max(0.0, w_i) * portfolio_value for t, w_i in zip(...)}] *)
Definition targets_of (tickers_aligned : list string) (w : list Q)
  (portfolio_value : Q) : Dict.t Q :=
  fold_left
    (fun d (e : string * Q) => Dict.set d (fst e) (py_max 0 (snd e) * portfolio_value))
    (combine tickers_aligned w) [].

Definition portfolio_value_of (holdings : Dict.t holding) (total_cash : Q)
  (prices : Dict.t Q) (tickers_aligned : list string) : Q :=
  let current_value :=
    Qsum (map (fun t => inject_Z (qty_of (Dict.get holdings t))
                        * Dict.get_default prices t 0)
            tickers_aligned) in
  let portfolio_value := total_cash + current_value in
  if Qle_bool portfolio_value 0 then 1000000 else portfolio_value.

(** The sizing loop; [None] is the [KeyError] of [targets[t]]. *)
Fixpoint size_loop (decisions : Dict.t string) (holdings : Dict.t holding)
  (prices : Dict.t Q) (targets : Dict.t Q) (min_lot : Z)
  (tickers : list string) (trades : Dict.t trade) : option (Dict.t trade) :=
  match tickers with
  | [] => Some trades
  | t :: rest =>
      let price := Dict.get_default prices t 0 in
      if Qle_bool price 0 then
        size_loop decisions holdings prices targets min_lot rest trades
      else
        match Dict.get targets t with
        | None => None
        | Some target_value =>
            let curr_qty := qty_of (Dict.get holdings t) in
            let decision := decision_of decisions t in
            size_loop decisions holdings prices targets min_lot rest
              (Dict.set trades t
                 (size_trade decision target_value price curr_qty min_lot))
        end
  end.

(** [size_positions] from "Compute target positions by weight" on.  The
    aligned ticker list [cols] and the optimizer weights [w] come from the
    price history download and the numpy pipeline above it; they are
    inputs here, and any weight vector is allowed. *)
Definition size_positions (tickers_aligned : list string) (w : list Q)
  (decisions : Dict.t string) (holdings : Dict.t holding) (total_cash : Q)
  (prices : Dict.t Q) (min_lot : Z) : option (Dict.t trade) :=
  match tickers_aligned with
  | [] => Some []
  | _ :: _ =>
      let portfolio_value :=
        portfolio_value_of holdings total_cash prices tickers_aligned in
      let targets := targets_of tickers_aligned w portfolio_value in
      size_loop decisions holdings prices targets min_lot tickers_aligned []
  end.

End Pipeline.

(** ** Concrete portfolios used as examples *)

Module Scenario.
Import Portfolio.

(** One position of 100 shares at $10, no cash; the subset weight asks to
    sell it all. *)
Definition sell_down_snapshot : snapshot :=
  ledger [("A"%string, mkHolding 100 10 8)] 0.
Definition sell_down_prices : Dict.t Q := [("A"%string, 10)].
Definition sell_down_weights : Dict.t Q := [("A"%string, 0)].

(** Equity $100,000 with $6,000 in cash: the two buys ask for $5,000 each
    (the per-name cap) after the sale of C, against a global cap of
    $5,000. *)
Definition capped_snapshot : snapshot :=
  ledger [("Z"%string, mkHolding 900 100 50); ("C"%string, mkHolding 40 100 70)]
    6000.
Definition capped_prices : Dict.t Q :=
  [("Z"%string, 100); ("C"%string, 100); ("A"%string, 10); ("B"%string, 20)].
Definition capped_weights : Dict.t Q :=
  [("A"%string, 1 # 2); ("B"%string, 1 # 2); ("C"%string, 0)].

(** A snapshot owing $1,000 with nothing held. *)
Definition indebted_snapshot : snapshot := ledger [] (- (1000)).

End Scenario.

(** ** testing/mvo/portfolio.py, the remaining functions *)

Module PortfolioWeights.
Import Portfolio.

(** [holdings_to_weights]: the share of each listed ticker in the market
    value at the snapshot's last prices. *)
Definition holdings_to_weights (s : snapshot) (tickers : list string) : list Q :=
  let market_value := compute_market_value s in
  if Qle_bool market_value 0 then map (fun _ => 0) tickers
  else
    map
      (fun t =>
         let qty := inject_Z (qty_of (Dict.get (portfolio s) t)) in
         let price := last_price_of (Dict.get (portfolio s) t) in
         if Qltb 0 market_value then qty * price / market_value else 0)
      tickers.

(** The candidates of a forced sale agree with the portfolio: each names a
    distinct ticker, with the quantity held, the price the holding is
    valued at, and their product as market value. *)
Definition matching (prices : Dict.t Q) (cands : list sell_cand)
  (p : Dict.t holding) : Prop :=
  NoDup (map sc_ticker cands)
  /\ Forall
       (fun c =>
          exists h,
            Dict.get p (sc_ticker c) = Some h
            /\ totalAmount h = sc_qty c
            /\ priced_at prices (sc_ticker c) h = sc_px c
            /\ (0 < sc_qty c)%Z
            /\ 0 < sc_px c
            /\ sc_mv c = inject_Z (sc_qty c) * sc_px c)
       cands.

(** Market value of the holdings [force_cash_non_negative] can sell. *)
Definition sellable_value (prices : Dict.t Q) (p : Dict.t holding) : Q :=
  Qsum (map sc_mv (sell_candidates_of prices p)).

End PortfolioWeights.

(** ** testing/mvo_blm_runner.py: the day loop of [run]

    A day of the walk is a rebalance day, with today's prices and the
    partial target weights the numpy pipeline produced, or a
    revaluation-only day.  The snapshot written is the one carried to the
    next day. *)

Module DayLoop.
Import Portfolio.

Inductive day : Type :=
| RebalanceDay (prices_today : Dict.t Q) (partial : Dict.t Q)
| RevaluationDay (prices_today : Dict.t Q).

Definition run_day (s : snapshot) (d : day) : snapshot :=
  match d with
  | RebalanceDay prices_today partial => emit_rebalance s prices_today partial
  | RevaluationDay prices_today => emit_revaluation s prices_today
  end.

Definition run_days (s : snapshot) (days : list day) : snapshot :=
  fold_left run_day days s.

End DayLoop.

(** ** testing/mvo/scheduler.py

    [datetime.strptime(d, "%Y-%m-%d").date()] is the parameter
    [parse_date]: the day number of the date, or [None] for the
    [ValueError] of a malformed string.  The difference of two dates in
    [.days] is the difference of their day numbers. *)

Module Scheduler.

Section WithCalendar.

Variable parse_date : string -> option Z.

(** The loop [for d in trading_dates] with its state [last_reb] and
    [selected]. *)
Fixpoint select_days (start : Z) (trading_dates : list string)
  (last_reb : option Z) (selected : list string) : option (list string) :=
  match trading_dates with
  | [] => Some selected
  | d :: rest =>
      match parse_date d with
      | None => None
      | Some current =>
          if (current <? start)%Z then select_days start rest last_reb selected
          else if match last_reb with
                  | None => true
                  | Some lr => (14 <=? current - lr)%Z
                  end
          then select_days start rest (Some current) (selected ++ [d])
          else select_days start rest last_reb selected
      end
  end.

Definition biweekly_rebalance_days (trading_dates : list string)
  (start_date : string) : option (list string) :=
  match parse_date start_date with
  | None => None
  | Some start => select_days start trading_dates None []
  end.

(** A chain of rebalance days: each is on or after [start] and at least 14
    days after the previous one ([last] before the first). *)
Fixpoint spaced (start : Z) (last : option Z) (days : list string) : Prop :=
  match days with
  | [] => True
  | d :: rest =>
      exists current,
        parse_date d = Some current
        /\ (start <= current)%Z
        /\ match last with
           | None => True
           | Some lr => (14 <= current - lr)%Z
           end
        /\ spaced start (Some current) rest
  end.

End WithCalendar.

End Scheduler.

(** ** testing/mvo/data.py: the trading calendar *)

Module Calendar.

(** [dates.index(date_str)], counted from [i]. *)
Fixpoint index_from (date_str : string) (dates : list string) (i : nat)
  : option nat :=
  match dates with
  | [] => None
  | d :: rest =>
      if String.eqb d date_str then Some i
      else index_from date_str rest (S i)
  end.

(** The [for ... else] loop: the position of the first date after
    [date_str], or the length of the list. *)
Fixpoint insert_position (date_str : string) (dates : list string) (i : nat)
  : nat :=
  match dates with
  | [] => i
  | d :: rest =>
      if String.ltb date_str d then i
      else insert_position date_str rest (S i)
  end.

(** [None] is the [ValueError] "No previous trading day available". *)
Definition previous_trading_day (dates : list string) (date_str : string)
  : option string :=
  let idx :=
    match index_from date_str dates O with
    | Some i => i
    | None => insert_position date_str dates O
    end in
  if Nat.eqb idx 0 then None else nth_error dates (idx - 1).

(** A calendar in strictly ascending order. *)
Definition ascending (dates : list string) : Prop :=
  StronglySorted (fun a b => String.ltb a b = true) dates.

End Calendar.

(** ** mvo_blm_runner.py: the rebalance schedule

    [_market_days] asks a calendar library; its result is the input
    [valid_days]. *)

Module Schedule.

(** The loop that looks for the first valid day [>= anchor], from
    position [i]. *)
Fixpoint anchor_index (anchor : string) (valid_days : list string) (i : nat)
  : option nat :=
  match valid_days with
  | [] => None
  | d :: rest =>
      if String.leb anchor d then Some i
      else anchor_index anchor rest (S i)
  end.

(** The loop [while i < len(valid_days)], for a cadence of at least one
    day; [fuel] bounds the number of turns. *)
Fixpoint every_cadence (fuel : nat) (valid_days : list string) (cadence i : nat)
  : list string :=
  match fuel with
  | O => []
  | S fuel' =>
      match nth_error valid_days i with
      | None => []
      | Some d => d :: every_cadence fuel' valid_days cadence (i + cadence)
      end
  end.

(** [_build_schedule] on the valid days.  With a cadence [<= 0] and an
    anchor found the loop does not produce a schedule (it never ends for 0,
    and for a negative cadence the index runs off the list and raises
    [IndexError]): [None].  With a cadence [>= 1] the index grows each
    turn, so [len(valid_days)] turns are enough. *)
Definition build_schedule (valid_days : list string) (anchor : string)
  (cadence_days : Z) : option (list string) :=
  match valid_days with
  | [] => Some []
  | _ :: _ =>
      match anchor_index anchor valid_days O with
      | None => Some []
      | Some anchor_idx =>
          if (cadence_days <=? 0)%Z then None
          else Some (every_cadence (List.length valid_days) valid_days
                       (Z.to_nat cadence_days) anchor_idx)
      end
  end.

End Schedule.

(** ** What a set of sized trades plans to hold *)

Module Sizing.

(** [sum(target_qty * price)] over the trades. *)
Definition planned_value (trades : Dict.t Pipeline.trade) : Q :=
  Qsum (map (fun e : string * Pipeline.trade =>
               inject_Z (Pipeline.target_qty (snd e)) * Pipeline.price (snd e))
          trades).

End Sizing.

(** ** mvo_blm_runner.py: executing the sized trades *)

Module Runner.

(** The contents of [portfolio.json]: the positions and the cash, kept
    under the key [liquid]. *)
Record data : Type := mkData {
  portfolio : Dict.t Portfolio.holding;
  liquid : Q
}.

(** One turn of the loop of [_execute_trades_long_only], on a trade as
    [size_positions] writes it (all four keys present).  [holdings] is
    [data["portfolio"].get(sym, {"totalAmount": 0})]. *)
Definition execute_trade (d : data) (e : string * Pipeline.trade) : data :=
  let sym := fst e in
  let tr := snd e in
  let price := Pipeline.price tr in
  if Qle_bool price 0 then d
  else
    let holdings := Dict.get (portfolio d) sym in
    let current_qty := Portfolio.qty_of holdings in
    let proposed_target := Pipeline.target_qty tr in
    let target_qty := Z.max 0 proposed_target in
    let delta := (target_qty - current_qty)%Z in
    if (0 <? delta)%Z then
      let max_affordable := py_int (py_floordiv (liquid d) price) in
      let buy_qty := Z.min delta max_affordable in
      if (buy_qty <=? 0)%Z then
        mkData
          (Dict.set (portfolio d) sym
             (Portfolio.mkHolding current_qty price
                (Portfolio.entry_price_of holdings)))
          (liquid d)
      else
        let cost := inject_Z buy_qty * price in
        let prev_qty := current_qty in
        let new_qty := (prev_qty + buy_qty)%Z in
        let prev_entry := Portfolio.entry_price_of holdings in
        let entry :=
          if (0 <? prev_qty)%Z && Qltb 0 prev_entry then
            (prev_entry * inject_Z prev_qty + price * inject_Z buy_qty)
            / inject_Z (Z.max new_qty 1)
          else price in
        mkData
          (Dict.set (portfolio d) sym (Portfolio.mkHolding new_qty price entry))
          (liquid d - cost)
    else if (delta <? 0)%Z then
      let sell_qty := Z.min (Z.abs delta) (Z.max 0 current_qty) in
      let new_qty := (current_qty - sell_qty)%Z in
      let proceeds := inject_Z sell_qty * price in
      mkData
        (Dict.set (portfolio d) sym
           (Portfolio.mkHolding new_qty price
              (if (new_qty =? 0)%Z then 0
               else Portfolio.entry_price_of holdings)))
        (liquid d + proceeds)
    else
      mkData
        (Dict.set (portfolio d) sym
           (Portfolio.mkHolding current_qty price
              (Portfolio.entry_price_of holdings)))
        (liquid d).

(** [_execute_trades_long_only] on the loaded [data]; the argument
    [decisions] is not read by the function. *)
Definition _execute_trades_long_only (trades : Dict.t Pipeline.trade)
  (decisions : Dict.t string) (d : data) : data :=
  fold_left execute_trade trades d.

(** The second loop of [_snapshot]: [net_liq] starts at the cash. *)
Definition net_liq_of (liquid_cash : Q) (p : Dict.t Portfolio.holding) : Q :=
  fold_left
    (fun net_liq (e : string * Portfolio.holding) =>
       net_liq
       + inject_Z (Portfolio.totalAmount (snd e)) * Portfolio.last_price (snd e))
    p liquid_cash.

(** [_snapshot]: the file it writes.  [closes] holds the closing prices
    the resolver returned; a symbol it failed on keeps its last price. *)
Definition _snapshot (d : data) (closes : Dict.t Q) : Portfolio.snapshot :=
  let persisted := Portfolio.reprice closes (portfolio d) in
  let liquid_cash := liquid d in
  let net_liq := net_liq_of liquid_cash persisted in
  Portfolio.mkSnapshot persisted liquid_cash (Some net_liq) (Some net_liq)
    (Some liquid_cash) (Some net_liq).

(** What the next day loads back from the file [_snapshot] persisted. *)
Definition reload (s : Portfolio.snapshot) : data :=
  mkData (Portfolio.portfolio s)
    (match Portfolio.liquid s with Some l => l | None => 1000000 end).

(** A day of the loop of [main]: a rebalance day with the trades
    [size_positions] returned, or a day on which only the snapshot is
    taken (no rebalance scheduled, or no usable price). *)
Inductive day : Type :=
| Rebalance (trades : Dict.t Pipeline.trade) (decisions : Dict.t string)
    (closes : Dict.t Q)
| SnapshotOnly (closes : Dict.t Q).

Definition run_day (d : data) (dy : day) : data :=
  match dy with
  | Rebalance trades decisions closes =>
      reload (_snapshot (_execute_trades_long_only trades decisions d) closes)
  | SnapshotOnly closes => reload (_snapshot d closes)
  end.

Definition run_days (d : data) (days : list day) : data :=
  fold_left run_day days d.

(** Every trade priced above 0 trades at the price of the map. *)
Definition traded_at (prices : Dict.t Q) (trades : Dict.t Pipeline.trade)
  : Prop :=
  forall sym tr, In (sym, tr) trades -> 0 < Pipeline.price tr ->
                 Dict.get prices sym = Some (Pipeline.price tr).

End Runner.

(** A book and a set of sized trades used as an example. *)
Module RunnerExample.

Definition book : Runner.data :=
  Runner.mkData [("AAPL"%string, Portfolio.mkHolding 10 100 90)] 1000.

Definition trades : Dict.t Pipeline.trade :=
  [("AAPL"%string, Pipeline.mkTrade (-4) 6 10 110);
   ("MSFT"%string, Pipeline.mkTrade 5 5 0 300)].

Definition prices : Dict.t Q := [("AAPL"%string, 110); ("MSFT"%string, 300)].

End RunnerExample.

(** ** testing/mvo/optimizer.py: views from the last price move *)

Module Views.
Import LinAlg.

(** The loop that collects [(r, i)] for every ticker priced on both days,
    the earlier price above 0; [i] counts from [i0]. *)
Fixpoint rets_from (price_t_minus_1 price_t : Dict.t Q) (i0 : nat)
  (tickers : list string) : list (Q * nat) :=
  match tickers with
  | [] => []
  | t :: rest =>
      match Dict.get price_t t, Dict.get price_t_minus_1 t with
      | Some p1, Some p0 =>
          if Qltb 0 p0 then
            (p1 / p0 - 1, i0) :: rets_from price_t_minus_1 price_t (S i0) rest
          else rets_from price_t_minus_1 price_t (S i0) rest
      | _, _ => rets_from price_t_minus_1 price_t (S i0) rest
      end
  end.

(** The order of Python on the tuples [(r, i)]: by return, then by index. *)
Definition pair_ltb (a b : Q * nat) : bool :=
  Qltb (fst a) (fst b) || (Qeq_bool (fst a) (fst b) && Nat.ltb (snd a) (snd b)).

(** [rets.sort(reverse=True)] *)
Fixpoint insert_pair_desc (x : Q * nat) (l : list (Q * nat)) : list (Q * nat) :=
  match l with
  | [] => [x]
  | y :: l' =>
      if pair_ltb y x then x :: y :: l' else y :: insert_pair_desc x l'
  end.

Definition sort_pairs_desc (l : list (Q * nat)) : list (Q * nat) :=
  fold_left (fun acc x => insert_pair_desc x acc) l [].

(** The slice [l[:k]]; a negative [k] counts from the end. *)
Definition py_take {A : Type} (k : Z) (l : list A) : list A :=
  if (0 <=? k)%Z then firstn (Z.to_nat k) l
  else firstn (List.length l - Z.to_nat (- k)) l.

(** [row = np.zeros(n); row[i] = 1.0] *)
Definition one_hot (n i : nat) : vec :=
  map (fun j => if Nat.eqb j i then 1 else 0) (seq 0 n).

(** Returns [(P, Q, selected)]; with no view the three are empty. *)
Definition build_views_from_prices (tickers : list string)
  (price_t_minus_1 price_t : Dict.t Q) (top_k : Z)
  : matrix * vec * list nat :=
  let rets := sort_pairs_desc (rets_from price_t_minus_1 price_t 0 tickers) in
  let selected := map snd (py_take top_k rets) in
  (map (one_hot (List.length tickers)) selected,
   map (fun _ => 2 # 1000) selected,
   selected).

(** What an entry [(r, i)] of the collected returns says: ticker [i] is
    priced on both days, the earlier price above 0, and [r] is its
    return. *)
Definition eligible (tickers : list string) (price_t_minus_1 price_t : Dict.t Q)
  (e : Q * nat) : Prop :=
  exists t p1 p0,
    nth_error tickers (snd e) = Some t
    /\ Dict.get price_t t = Some p1
    /\ Dict.get price_t_minus_1 t = Some p0
    /\ 0 < p0
    /\ fst e = p1 / p0 - 1.

End Views.

(** Two days of prices used as an example. *)
Module ViewsExample.

Definition tickers : list string := ["AAPL"; "MSFT"; "NVDA"]%string.

Definition price_t_minus_1 : Dict.t Q :=
  [("AAPL"%string, 100); ("MSFT"%string, 300); ("NVDA"%string, 0)].

Definition price_t : Dict.t Q :=
  [("AAPL"%string, 110); ("MSFT"%string, 300); ("NVDA"%string, 50)].

End ViewsExample.

(** ** testing/mvo_blm_runner.py: pieces of the body of [run] *)

Module RunLoop.
Import Portfolio.

(** The portfolio's return of the day, as both branches of the loop
    compute it from the snapshot carried in. *)
Definition daily_return (s : snapshot) (prices_today : Dict.t Q) : Q :=
  let mv_prev :=
    Qsum (map (fun info => inject_Z (totalAmount info) * last_price info)
            (Dict.values (portfolio s))) in
  let mv_today :=
    Qsum (map (fun e : string * holding =>
                 inject_Z (totalAmount (snd e))
                 * Dict.get_default prices_today (fst e) (last_price (snd e)))
            (portfolio s)) in
  let cash_prev := cash s in
  let equity_prev := mv_prev + cash_prev in
  if Qltb 0 equity_prev then (mv_today - mv_prev) / equity_prev else 0.

(** "market weights from current holdings":
    [np.ones(len(tickers)) / max(1, len(tickers))] when the weights sum to
    exactly 0. *)
Definition market_w_of (s : snapshot) (tickers : list string) : list Q :=
  let market_w := PortfolioWeights.holdings_to_weights s tickers in
  if Qeq_bool (Qsum market_w) 0 then
    repeat (1 / inject_Z (Z.of_nat (Nat.max 1 (List.length tickers))))
      (List.length tickers)
  else market_w.

(** "Limit optimization universe for speed: keep top N by current market
    value", with [N = 50]. *)
Definition mv_pairs_of (s : snapshot) (prices_today : Dict.t Q)
  (tickers : list string) : list (string * Q) :=
  map
    (fun t =>
       let qty := inject_Z (qty_of (Dict.get (portfolio s) t)) in
       let px :=
         Dict.get_default prices_today t
           (last_price_of (Dict.get (portfolio s) t)) in
       (t, qty * px))
    tickers.

Definition opt_universe_of (s : snapshot) (prices_today : Dict.t Q)
  (tickers : list string) : list string :=
  map fst (firstn 50 (sort_desc snd (mv_pairs_of s prices_today tickers))).

(** "convert to partial weights dict for top 10 holders only": the loop
    over [zip(opt_universe, target_w_opt)] with its state [(partial, s)],
    then the normalisation. *)
Definition partial_step (top10 : list string) (st : Dict.t Q * Q)
  (e : string * Q) : Dict.t Q * Q :=
  if existsb (String.eqb (fst e)) top10 then
    let v := py_max 0 (snd e) in
    (Dict.set (fst st) (fst e) v, snd st + v)
  else st.

Definition partial_of (opt_universe : list string) (target_w_opt : list Q)
  : Dict.t Q :=
  let top10 := firstn 10 opt_universe in
  let st :=
    fold_left (partial_step top10) (combine opt_universe target_w_opt) ([], 0) in
  if Qltb 0 (snd st) then map (fun e => (fst e, snd e / snd st)) (fst st)
  else fst st.

End RunLoop.

(** ** MVO_BLM/pipeline.py: market weights from the holdings *)

Module PipelinePrior.
Import Portfolio LinAlg.

(** The dictionary [values] of [holdings_to_weights]; [holdings] is a
    dictionary, one entry per ticker. *)
Definition values_of (holdings : Dict.t holding) (prices : Dict.t Q)
  : Dict.t Q :=
  map
    (fun e : string * holding =>
       let qty := inject_Z (totalAmount (snd e)) in
       let px := Dict.get_default prices (fst e) 0 in
       (fst e, qty * px))
    holdings.

Definition holdings_to_weights (holdings : Dict.t holding) (prices : Dict.t Q)
  : Dict.t Q :=
  let values := values_of holdings prices in
  let total := Qsum (Dict.values values) in
  if Qle_bool total 0 then map (fun e : string * Q => (fst e, 0)) values
  else map (fun e : string * Q => (fst e, snd e / total)) values.

(** The market weights [size_positions] hands to [black_litterman]:
    [mkt_w if mkt_w.sum() > 0 else np.ones(len(cols)) / len(cols)]. *)
Definition market_prior (holdings : Dict.t holding) (prices : Dict.t Q)
  (tickers_aligned : list string) : vec :=
  let mkt_w :=
    map (fun t => Dict.get_default (holdings_to_weights holdings prices) t 0)
      tickers_aligned in
  if Qltb 0 (Qsum mkt_w) then mkt_w
  else equal_weights (List.length tickers_aligned).

End PipelinePrior.

(** ** testing/mvo/llm_views.py: the heuristic views

    The branch of [LLMViewsGenerator.generate] taken without an API
    client.  [np.mean] and [np.var] (population variance) are written
    out. *)

Module LLMViews.
Import LinAlg.

Definition np_mean (r : list Q) : Q :=
  Qsum r / inject_Z (Z.of_nat (List.length r)).

Definition np_var (r : list Q) : Q :=
  let m := np_mean r in
  Qsum (map (fun x => (x - m) * (x - m)) r) / inject_Z (Z.of_nat (List.length r)).

(** [r = window_returns.get(t, [])] and the two branches on [len(r)]. *)
Definition view_of (window_returns : Dict.t (list Q)) (t : string) : Q * Q :=
  let r := Dict.get_default window_returns t [] in
  match r with
  | [] => (0, 4 # 10000)
  | _ :: _ => (np_mean r, np_var r + (1 # 10000))
  end.

(** Returns [(P, Q, Omega)]. *)
Definition generate_heuristic (tickers : list string)
  (window_returns : Dict.t (list Q)) : matrix * vec * matrix :=
  let mus := map (fun t => fst (view_of window_returns t)) tickers in
  let vars_ := map (fun t => snd (view_of window_returns t)) tickers in
  (eye (List.length tickers), mus, diag vars_).

End LLMViews.

(** ** testing/mvo_blm_runner.py: where a run starts from *)

Module SnapshotDirs.

(** An entry of [os.listdir(base_dir)]: its name, whether it is a
    directory, and whether it holds [portfolio_snapshot_<name>.json]. *)
Record dir_entry : Type := mkEntry {
  name : string;
  is_dir : bool;
  has_snapshot : bool
}.

Definition candidates_of (listing : list dir_entry) (start_date : string)
  : list string :=
  map name
    (filter
       (fun e => is_dir e && (String.ltb (name e) start_date && has_snapshot e))
       listing).

(** [sorted(candidates)] *)
Fixpoint insert_asc (x : string) (l : list string) : list string :=
  match l with
  | [] => [x]
  | y :: l' => if String.ltb x y then x :: y :: l' else y :: insert_asc x l'
  end.

Definition sorted_strings (l : list string) : list string :=
  fold_left (fun acc x => insert_asc x acc) l [].

Definition get_last_existing_snapshot_dir (listing : list dir_entry)
  (start_date : string) : string :=
  let candidates := candidates_of listing start_date in
  match candidates with
  | [] => ""%string
  | _ :: _ => last (sorted_strings candidates) ""%string
  end.

End SnapshotDirs.

(** ** mvo_blm_runner.py: the ticker universe

    [_normalize_base] works on Unicode text ([strip], [upper], [lstrip]);
    it is the parameter [normalize_base].  The input is the list of
    tokens read from the file. *)

Module Universe.

Section WithNormalize.

Variable normalize_base : string -> string.



End WithNormalize.

End Universe.

(** ** Ceilings on quantities *)

Module PositionCap.
Import Portfolio.

(** One entry per ticker, and no quantity above its ceiling. *)
Definition capped (bound : string -> Z) (p : Dict.t holding) : Prop :=
  Dict.wf p /\ forall t, (qty_of (Dict.get p t) <= bound t)%Z.

(** The ceiling the partial rebalance keeps: the quantity held before or
    the target quantity, the larger; a ticker without a target keeps the
    quantity held before. *)
Definition ceiling (portfolio_prev : Dict.t holding) (target_qty : Dict.t Z)
  (t : string) : Z :=
  Z.max (qty_of (Dict.get portfolio_prev t))
    (Dict.get_default target_qty t (qty_of (Dict.get portfolio_prev t))).

End PositionCap.

(** ** A calendar excerpt used as an example *)

Module CalendarExample.

(** Day numbers ([date.toordinal()]) of a few dates of January 2025. *)
Definition january_2025 : Dict.t Z :=
  [("2025-01-06"%string, 739257%Z); ("2025-01-07"%string, 739258%Z);
   ("2025-01-17"%string, 739268%Z); ("2025-01-21"%string, 739272%Z);
   ("2025-02-04"%string, 739286%Z)].

Definition parse_january (d : string) : option Z := Dict.get january_2025 d.

Definition trading_dates : list string :=
  ["2025-01-06"; "2025-01-07"; "2025-01-17"; "2025-01-21"; "2025-02-04"]%string.

End CalendarExample.

(* ================================================================== *)
(** * Part II: properties                                              *)
(* ================================================================== *)

(** ** Comparisons and rounding *)

Lemma Qltb_true (a b : Q) : Qltb a b = true <-> a < b.
Proof.
  unfold Qltb. rewrite negb_true_iff. split; intro H.
  - apply Qnot_le_lt. intro Hle. apply Qle_bool_iff in Hle. congruence.
  - destruct (Qle_bool b a) eqn:E; [|reflexivity].
    apply Qle_bool_iff in E. exfalso. exact (Qlt_not_le _ _ H E).
Qed.

Lemma Qltb_false (a b : Q) : Qltb a b = false <-> b <= a.
Proof.
  unfold Qltb. rewrite negb_false_iff. apply Qle_bool_iff.
Qed.

Lemma Qle_bool_false (a b : Q) : Qle_bool a b = false <-> b < a.
Proof.
  rewrite <- Qltb_true. unfold Qltb. rewrite negb_true_iff. reflexivity.
Qed.

Lemma py_max_lower (a b : Q) : a <= py_max a b.
Proof.
  unfold py_max. destruct (Qltb a b) eqn:E.
  - apply Qltb_true in E. apply Qlt_le_weak, E.
  - apply Qle_refl.
Qed.

Lemma py_max_left (a b : Q) : b <= a -> py_max a b = a.
Proof.
  intro H. unfold py_max. apply Qltb_false in H. now rewrite H.
Qed.

(** [int(x)] agrees with the floor as soon as either is positive. *)
Lemma py_int_nonneg (x : Q) : 0 <= x -> py_int x = Qfloor x.
Proof.
  destruct x as [n d]. unfold Qle, py_int, Qfloor. simpl. intro H.
  apply Z.quot_div_nonneg; lia.
Qed.

Lemma py_int_nonpos (x : Q) : x <= 0 -> (py_int x <= 0)%Z.
Proof.
  destruct x as [n d]. unfold Qle, py_int. simpl. intro H.
  assert (Hn : (n <= 0)%Z) by lia.
  rewrite <- (Z.opp_involutive n), Z.quot_opp_l by lia.
  assert (0 <= Z.quot (- n) (Z.pos d))%Z by (apply Z.quot_pos; lia).
  lia.
Qed.

Lemma Qfloor_nonneg (x : Q) : 0 <= x -> (0 <= Qfloor x)%Z.
Proof.
  intro H. change 0%Z with (Qfloor 0). apply Qfloor_resp_le, H.
Qed.




Lemma py_int_inject (z : Z) : py_int (inject_Z z) = z.
Proof.
  unfold py_int, inject_Z. simpl. apply Z.quot_1_r.
Qed.

Lemma inject_Z_sub (a b : Z) : inject_Z (a - b) = inject_Z a - inject_Z b.
Proof.
  unfold Z.sub, Qminus. now rewrite inject_Z_plus, inject_Z_opp.
Qed.

(** ** Sums *)

Lemma fold_left_Qplus_acc (xs : list Q) (a : Q) :
  fold_left Qplus xs a == a + Qsum xs.
Proof.
  unfold Qsum. revert a. induction xs as [|x xs IH]; intro a; simpl.
  - ring.
  - rewrite (IH (a + x)), (IH (0 + x)). ring.
Qed.

Lemma Qsum_cons (x : Q) (xs : list Q) : Qsum (x :: xs) == x + Qsum xs.
Proof.
  unfold Qsum at 1. simpl. rewrite fold_left_Qplus_acc. ring.
Qed.

Lemma Qsum_nonneg (xs : list Q) : Forall (Qle 0) xs -> 0 <= Qsum xs.
Proof.
  induction 1 as [|x xs Hx _ IH].
  - apply Qle_refl.
  - rewrite Qsum_cons. lra.
Qed.


Lemma Qsum_map_div (xs : list Q) (s : Q) :
  Qsum (map (fun x => x / s) xs) == Qsum xs / s.
Proof.
  induction xs as [|x xs IH]; simpl.
  - unfold Qsum; simpl. unfold Qdiv. ring.
  - rewrite !Qsum_cons, IH. unfold Qdiv. ring.
Qed.

Lemma Qsum_repeat (c : Q) (n : nat) :
  Qsum (repeat c n) == inject_Z (Z.of_nat n) * c.
Proof.
  induction n as [|n IH].
  - unfold Qsum; simpl. ring.
  - cbn [repeat]. rewrite Qsum_cons, IH, Nat2Z.inj_succ.
    unfold Z.succ. rewrite inject_Z_plus. ring.
Qed.

Lemma Qsum_all_zero (xs : list Q) : Forall (fun x => x == 0) xs -> Qsum xs == 0.
Proof.
  induction 1 as [|x xs Hx _ IH].
  - reflexivity.
  - rewrite Qsum_cons, Hx, IH. ring.
Qed.

(** ** Weight validity of the mean-variance optimizers *)

Section WeightValidity.
Import LinAlg.

Lemma clip_nonneg (v : vec) : Forall (Qle 0) (clip v).
Proof.
  unfold clip. apply Forall_forall. intros y Hy.
  apply in_map_iff in Hy. destruct Hy as [x [<- _]].
  unfold py_max. destruct (Qltb x 0) eqn:E.
  - apply Qle_refl.
  - now apply Qltb_false in E.
Qed.

Lemma normalised_valid (v : vec) :
  Forall (Qle 0) v -> 0 < Qsum v ->
  Forall (Qle 0) (map (fun x => x / Qsum v) v)
  /\ Qsum (map (fun x => x / Qsum v) v) == 1.
Proof.
  intros Hv Hs. split.
  - apply Forall_forall. intros y Hy.
    apply in_map_iff in Hy. destruct Hy as [x [<- Hx]].
    rewrite Forall_forall in Hv. specialize (Hv x Hx).
    apply Qle_shift_div_l; [exact Hs|]. lra.
  - rewrite Qsum_map_div. field. lra.
Qed.

Lemma equal_weights_valid (n : nat) :
  (0 < n)%nat ->
  Forall (Qle 0) (equal_weights n) /\ Qsum (equal_weights n) == 1.
Proof.
  intro Hn. unfold equal_weights.
  assert (Hq : 0 < inject_Z (Z.of_nat n)).
  { change 0 with (inject_Z 0). rewrite <- Zlt_Qlt. lia. }
  split.
  - apply Forall_forall. intros y Hy. apply repeat_spec in Hy. subst y.
    apply Qle_shift_div_l; [exact Hq|]. lra.
  - rewrite Qsum_repeat. field. lra.
Qed.

Lemma is_square_length (n : nat) (M : matrix) :
  is_square n M = true -> List.length M = n.
Proof.
  unfold is_square. intro H. apply andb_true_iff in H.
  destruct H as [H _]. now apply Nat.eqb_eq in H.
Qed.

Lemma mat_vec_length (M : matrix) (v : vec) :
  List.length (mat_vec M v) = List.length M.
Proof.
  unfold mat_vec. apply length_map.
Qed.

Lemma sum_within_tolerance (s : Q) : s == 1 -> Qabs (s - 1) <= 1 # 1000000000.
Proof.
  intro H. rewrite H. setoid_replace (1 - 1) with 0 by ring.
  simpl. discriminate.
Qed.

(** C7. With [long_only=True], both [mean_variance_optimize] functions
    return, for a non-empty universe of [N] assets with an [N x N]
    covariance, weights that are all [>= 0] and sum to 1 (hence within
    [1e-9] of 1); when every clipped weight is 0 the result is the equal
    weighting [1/N] over all [N] assets.  The pseudo-inverse is any
    function that returns as many rows as its argument has; the risk
    aversion of [testing/mvo/optimizer.py] is non-zero. *)
Theorem mvo_long_only_weights_valid :
  forall (pinv : matrix -> matrix) (mu : vec) (cov : matrix) (risk_aversion : Q),
    (0 < List.length mu)%nat ->
    is_square (List.length mu) cov = true ->
    List.length (pinv cov) = List.length cov ->
    ~ risk_aversion == 0 ->
    (exists weights,
        Optimizer.mean_variance_optimize pinv mu cov risk_aversion true
        = Some weights
        /\ Forall (Qle 0) weights
        /\ Qsum weights == 1
        /\ Qabs (Qsum weights - 1) <= 1 # 1000000000
        /\ (Forall (fun x => x == 0)
              (clip (mat_vec (mat_scale (1 / risk_aversion) (pinv cov)) mu)) ->
            weights = equal_weights (List.length mu)))
    /\ (let weights := MVO.mean_variance_optimize pinv mu cov true in
        Forall (Qle 0) weights
        /\ Qsum weights == 1
        /\ Qabs (Qsum weights - 1) <= 1 # 1000000000
        /\ (Forall (fun x => x == 0) (clip (mat_vec (pinv cov) mu)) ->
            weights = equal_weights (List.length mu))).
Proof.
  intros pinv mu cov ra Hn Hsq Hrows Hra. split.
  - unfold Optimizer.mean_variance_optimize. rewrite Hsq. cbn [negb].
    destruct (Qeq_bool ra 0) eqn:Era.
    { apply Qeq_bool_iff in Era. contradiction. }
    set (raw := clip (mat_vec (mat_scale (1 / ra) (pinv cov)) mu)).
    pose proof (clip_nonneg (mat_vec (mat_scale (1 / ra) (pinv cov)) mu)) as Hraw.
    fold raw in Hraw.
    destruct (Qltb 0 (Qsum raw)) eqn:Es.
    + apply Qltb_true in Es.
      destruct (normalised_valid raw Hraw Es) as [Hpos Hsum].
      eexists. split; [reflexivity|].
      repeat split; auto using sum_within_tolerance.
      intro Hz. apply Qsum_all_zero in Hz. lra.
    + destruct (equal_weights_valid _ Hn) as [Hpos Hsum].
      eexists. split; [reflexivity|].
      repeat split; auto using sum_within_tolerance.
  - unfold MVO.mean_variance_optimize.
    set (raw := clip (mat_vec (pinv cov) mu)).
    pose proof (clip_nonneg (mat_vec (pinv cov) mu)) as Hraw.
    fold raw in Hraw.
    assert (Hlen : List.length raw = List.length mu).
    { unfold raw, clip. rewrite length_map, mat_vec_length, Hrows.
      now apply is_square_length. }
    cbv zeta.
    destruct (Qeq_bool (Qsum raw) 0) eqn:Es.
    + rewrite Hlen.
      destruct (equal_weights_valid _ Hn) as [Hpos Hsum].
      repeat split; auto using sum_within_tolerance.
    + assert (Hs : 0 < Qsum raw).
      { pose proof (Qsum_nonneg raw Hraw) as Hge.
        apply Qeq_bool_neq in Es.
        destruct (Qlt_le_dec 0 (Qsum raw)) as [Hlt | Hle]; [exact Hlt|].
        exfalso. apply Es. apply Qle_antisym; assumption. }
      destruct (normalised_valid raw Hraw Hs) as [Hpos Hsum].
      repeat split; auto using sum_within_tolerance.
      intro Hz. apply Qsum_all_zero in Hz. lra.
Qed.

Lemma mvo_long_only_weights_valid_witness :
  let mu : vec := [1; - (1)] in
  let cov : matrix := [[1; 0]; [0; 1]] in
  (exists weights,
      Optimizer.mean_variance_optimize pinv_diag mu cov 3 true = Some weights
      /\ Forall (Qle 0) weights /\ Qsum weights == 1)
  /\ Qsum (MVO.mean_variance_optimize pinv_diag mu cov true) == 1.
Proof.
  intros mu cov.
  assert (Hn : (0 < List.length mu)%nat) by (simpl; lia).
  assert (Hsq : is_square (List.length mu) cov = true) by reflexivity.
  assert (Hrows : List.length (pinv_diag cov) = List.length cov)
    by reflexivity.
  assert (Hra : ~ 3 == 0) by discriminate.
  destruct (mvo_long_only_weights_valid pinv_diag mu cov 3 Hn Hsq Hrows Hra)
    as [[weights [Hw [Hpos [Hsum _]]]] [_ [Hsum' _]]].
  split.
  - exists weights. repeat split; assumption.
  - exact Hsum'.
Defined.

End WeightValidity.

(** ** Dictionary lemmas *)

Section DictFacts.
Context {V : Type}.

Lemma get_set_same (d : Dict.t V) (k : string) (v : V) :
  Dict.get (Dict.set d k v) k = Some v.
Proof.
  induction d as [|[k' v'] d IH]; simpl.
  - now rewrite String.eqb_refl.
  - destruct (String.eqb k k') eqn:E; simpl; rewrite ?E, ?String.eqb_refl; auto.
Qed.

Lemma get_set_other (d : Dict.t V) (k k0 : string) (v : V) :
  k0 <> k -> Dict.get (Dict.set d k v) k0 = Dict.get d k0.
Proof.
  intro Hne. induction d as [|[k' v'] d IH]; simpl.
  - apply String.eqb_neq in Hne. now rewrite Hne.
  - destruct (String.eqb k k') eqn:E; simpl.
    + apply String.eqb_eq in E. subst k'.
      apply String.eqb_neq in Hne. now rewrite Hne.
    + destruct (String.eqb k0 k'); auto.
Qed.

Lemma get_some_in (d : Dict.t V) (k : string) (v : V) :
  Dict.get d k = Some v -> In (k, v) d.
Proof.
  induction d as [|[k' v'] d IH]; simpl; [discriminate|].
  destruct (String.eqb k k') eqn:E.
  - apply String.eqb_eq in E. subst k'. intro H. inversion H. now left.
  - intro H. right. auto.
Qed.

Lemma get_none_notin (d : Dict.t V) (k : string) :
  Dict.get d k = None <-> ~ In k (Dict.keys d).
Proof.
  induction d as [|[k' v'] d IH]; simpl.
  - tauto.
  - destruct (String.eqb k k') eqn:E.
    + apply String.eqb_eq in E. subst k'. split; [discriminate | tauto].
    + apply String.eqb_neq in E. rewrite IH. split.
      * intros H [H1 | H1]; [congruence | tauto].
      * tauto.
Qed.

Lemma in_wf_get (d : Dict.t V) (k : string) (v : V) :
  Dict.wf d -> In (k, v) d -> Dict.get d k = Some v.
Proof.
  unfold Dict.wf, Dict.keys.
  induction d as [|[k' v'] d IH]; simpl; intros Hwf Hin; [contradiction|].
  inversion Hwf as [|? ? Hnotin Hwf']; subst.
  destruct Hin as [Heq | Hin].
  - inversion Heq; subst. now rewrite String.eqb_refl.
  - destruct (String.eqb k k') eqn:E.
    + apply String.eqb_eq in E. subst k'. exfalso. apply Hnotin.
      change k with (fst (k, v)). now apply in_map.
    + auto.
Qed.

Lemma keys_set (d : Dict.t V) (k k0 : string) (v : V) :
  In k0 (Dict.keys (Dict.set d k v)) <-> k0 = k \/ In k0 (Dict.keys d).
Proof.
  induction d as [|[k' v'] d IH]; simpl.
  - intuition.
  - destruct (String.eqb k k') eqn:E; simpl.
    + apply String.eqb_eq in E. subst k'. intuition.
    + rewrite IH. intuition.
Qed.

Lemma wf_set (d : Dict.t V) (k : string) (v : V) :
  Dict.wf d -> Dict.wf (Dict.set d k v).
Proof.
  unfold Dict.wf.
  induction d as [|[k' v'] d IH]; simpl; intro Hwf.
  - constructor; [tauto | constructor].
  - inversion Hwf as [|? ? Hnotin Hwf']; subst.
    destruct (String.eqb k k') eqn:E; simpl.
    + apply String.eqb_eq in E. subst k'. now constructor.
    + apply String.eqb_neq in E. constructor; [|auto].
      intro Hin. apply (keys_set d k k' v) in Hin. intuition.
Qed.

Lemma values_set (P : V -> Prop) (d : Dict.t V) (k : string) (v : V) :
  Forall P (Dict.values d) -> P v -> Forall P (Dict.values (Dict.set d k v)).
Proof.
  unfold Dict.values.
  induction d as [|[k' v'] d IH]; simpl; intros Hd Hv.
  - now constructor.
  - inversion Hd; subst. destruct (String.eqb k k'); simpl; constructor; auto.
Qed.

Lemma values_get (P : V -> Prop) (d : Dict.t V) (k : string) (v : V) :
  Forall P (Dict.values d) -> Dict.get d k = Some v -> P v.
Proof.
  intros Hd Hget. apply get_some_in in Hget.
  rewrite Forall_forall in Hd. apply Hd.
  unfold Dict.values. change v with (snd (k, v)). now apply in_map.
Qed.

Lemma set_absent (d : Dict.t V) (k : string) (v : V) :
  ~ In k (Dict.keys d) -> Dict.set d k v = d ++ [(k, v)].
Proof.
  induction d as [|[k' v'] d IH]; simpl; intro Hnotin; [reflexivity|].
  destruct (String.eqb k k') eqn:E.
  - apply String.eqb_eq in E. subst k'. tauto.
  - rewrite IH; tauto.
Qed.

End DictFacts.

(** ** Repricing *)

Section Repricing.
Import Portfolio.

Lemma reprice_get (prices : Dict.t Q) (p : Dict.t holding) (t : string) :
  Dict.get (reprice prices p) t
  = option_map
      (fun h => mkHolding (totalAmount h) (priced_at prices t h) (entry_price h))
      (Dict.get p t).
Proof.
  induction p as [|[t' h] p IH]; simpl; [reflexivity|].
  unfold priced_at, Dict.get_default.
  destruct (String.eqb t t') eqn:E.
  - apply String.eqb_eq in E. subst t'.
    destruct (Dict.get prices t); simpl; rewrite String.eqb_refl; simpl.
    + reflexivity.
    + now destruct h.
  - destruct (Dict.get prices t'); simpl; rewrite E; exact IH.
Qed.

Lemma reprice_idem (prices : Dict.t Q) (p : Dict.t holding) :
  reprice prices (reprice prices p) = reprice prices p.
Proof.
  unfold reprice. rewrite map_map. apply map_ext.
  intros [t h]. simpl.
  destruct (Dict.get prices t) eqn:E; simpl; now rewrite E.
Qed.

End Repricing.

(** ** Cash after the correction pass *)

Section CashCorrection.
Import Portfolio.

Lemma update_snapshot_prices_cash (s : snapshot) (prices : Dict.t Q) :
  cash (update_snapshot_prices s prices) = cash s.
Proof. reflexivity. Qed.

Lemma force_cash_non_negative_cash (s : snapshot) (prices : Dict.t Q) :
  0 <= cash (force_cash_non_negative s prices).
Proof.
  unfold force_cash_non_negative.
  destruct (Qle_bool 0 (cash s)) eqn:E.
  - rewrite update_snapshot_prices_cash. now apply Qle_bool_iff.
  - rewrite update_snapshot_prices_cash. simpl. apply py_max_lower.
Qed.

(** C2. Every snapshot the engine writes has [cash >= 0], whatever the
    starting snapshot, the prices and the partial target weights: the
    snapshot of a rebalance day (the partial rebalance with its buy-unwind
    and emergency-sell loops, then [force_cash_non_negative]) and the
    snapshot of a revaluation-only day. *)
Theorem emitted_cash_non_negative :
  forall (s : snapshot) (prices : Dict.t Q) (target_weights_partial : Dict.t Q),
    0 <= cash (emit_rebalance s prices target_weights_partial)
    /\ 0 <= cash (emit_revaluation s prices)
    /\ 0 <= cash (force_cash_non_negative s prices).
Proof.
  intros s prices w. unfold emit_rebalance, emit_revaluation.
  repeat split; apply force_cash_non_negative_cash.
Qed.

End CashCorrection.

(** ** The buy pass of the partial rebalance *)

Section BuyPass.
Import Portfolio.

Lemma partial_target_dollars_keys (total_equity cap : Q) (w : Dict.t Q) :
  Dict.keys (partial_target_dollars total_equity cap w) = Dict.keys w.
Proof.
  unfold Dict.keys, partial_target_dollars. rewrite map_map. reflexivity.
Qed.

Lemma partial_target_qty_keys (p : Dict.t holding) (prices : Dict.t Q)
  (td : Dict.t Q) :
  Dict.keys (partial_target_qty p prices td) = Dict.keys td.
Proof.
  unfold Dict.keys, partial_target_qty. rewrite map_map. reflexivity.
Qed.

Lemma buy_reqs_tickers (p : Dict.t holding) (prices : Dict.t Q)
  (target_qty : Dict.t Z) (r : buy_req) :
  In r (buy_reqs_of p prices target_qty) ->
  In (br_ticker r, (qty_of (Dict.get p (br_ticker r)) + br_need_q r)%Z) target_qty
  /\ (0 < br_need_q r)%Z
  /\ br_px r = price_or_last prices p (br_ticker r)
  /\ br_cost r = inject_Z (br_need_q r) * br_px r.
Proof.
  unfold buy_reqs_of. intro Hin. apply in_flat_map in Hin.
  destruct Hin as [[t tq] [Hin Hr]]. simpl in Hr.
  destruct (qty_of (Dict.get p t) <? tq)%Z eqn:E; [|contradiction].
  destruct Hr as [<- | []]. simpl. apply Z.ltb_lt in E.
  replace (qty_of (Dict.get p t) + (tq - qty_of (Dict.get p t)))%Z with tq by lia.
  repeat split; auto. lia.
Qed.

Lemma buy_reqs_in_subset (s : snapshot) (prices : Dict.t Q) (w : Dict.t Q)
  (r : buy_req) :
  In r (plan_buy_reqs (partial_plan_of s prices w)) ->
  In (br_ticker r) (Dict.keys w).
Proof.
  unfold partial_plan_of. cbn [plan_buy_reqs]. intro Hin.
  apply buy_reqs_tickers in Hin. destruct Hin as [Hin _].
  erewrite <- partial_target_dollars_keys, <- partial_target_qty_keys.
  unfold Dict.keys.
  change (br_ticker r)
    with (fst (br_ticker r,
               (qty_of (Dict.get (portfolio s) (br_ticker r)) + br_need_q r)%Z)).
  apply in_map. exact Hin.
Qed.

Lemma buy_step_frame (scale : Q) (st : buy_state) (r : buy_req) (t : string) :
  t <> br_ticker r ->
  Dict.get (buy_portfolio (buy_step scale st r)) t = Dict.get (buy_portfolio st) t.
Proof.
  intro Hne. unfold buy_step.
  destruct (py_int (inject_Z (br_need_q r) * scale) <=? 0)%Z; [reflexivity|].
  cbn [buy_portfolio]. now apply get_set_other.
Qed.

Lemma buy_pass_frame (scale : Q) (reqs : list buy_req) (st : buy_state)
  (t : string) :
  ~ In t (map br_ticker reqs) ->
  Dict.get (buy_portfolio (fold_left (buy_step scale) reqs st)) t
  = Dict.get (buy_portfolio st) t.
Proof.
  revert st. induction reqs as [|r reqs IH]; intros st Hnotin; simpl.
  - reflexivity.
  - simpl in Hnotin. rewrite IH by tauto. apply buy_step_frame. intuition.
Qed.

Lemma unwind_pass_idle (applied : list applied_buy) (p : Dict.t holding)
  (c : Q) :
  0 <= c -> unwind_pass applied p c = (p, c).
Proof.
  intro Hc. unfold unwind_pass. destruct applied; [reflexivity|].
  apply Qltb_false in Hc. now rewrite Hc.
Qed.

Lemma emergency_pass_idle (prices : Dict.t Q) (p : Dict.t holding) (c : Q)
  (changes : list change) :
  0 <= c -> emergency_pass prices p c changes = (p, c, changes).
Proof.
  intro Hc. unfold emergency_pass. apply Qltb_false in Hc. now rewrite Hc.
Qed.

Lemma equity_guard_portfolio (e0 : Q) (p : Dict.t holding) (c : Q)
  (prices : Dict.t Q) :
  portfolio (equity_guard e0 (update_snapshot_prices (ledger p c) prices) prices)
  = reprice prices p.
Proof.
  unfold equity_guard.
  destruct (Qltb _ _); cbn [portfolio update_snapshot_prices ledger].
  - apply reprice_idem.
  - reflexivity.
Qed.

(** With no correction needed, the returned portfolio is the portfolio
    after the buy pass, repriced. *)
Lemma partial_portfolio_without_correction (s : snapshot) (prices : Dict.t Q)
  (w : Dict.t Q) :
  0 <= buy_cash (plan_after_buys (partial_plan_of s prices w)) ->
  portfolio (fst (apply_partial_target_weights s prices w))
  = reprice prices (buy_portfolio (plan_after_buys (partial_plan_of s prices w))).
Proof.
  intro Hc. unfold apply_partial_target_weights. cbv zeta. cbn [fst].
  rewrite (unwind_pass_idle _ _ _ Hc). cbn [fst snd].
  rewrite (emergency_pass_idle _ _ _ _ Hc). cbn [fst snd].
  apply equity_guard_portfolio.
Qed.

(** C10. When cash is still [>= 0] after the scaled buy pass, a ticker
    outside the target subset keeps its quantity and its entry price in the
    returned snapshot (and is present exactly when it was before); only its
    [last_price] moves, to today's price when there is one. *)
Theorem partial_rebalance_frame :
  forall (s : snapshot) (prices : Dict.t Q) (w : Dict.t Q) (t : string),
    0 <= buy_cash (plan_after_buys (partial_plan_of s prices w)) ->
    ~ In t (Dict.keys w) ->
    let s' := fst (apply_partial_target_weights s prices w) in
    option_map totalAmount (Dict.get (portfolio s') t)
    = option_map totalAmount (Dict.get (portfolio s) t)
    /\ option_map entry_price (Dict.get (portfolio s') t)
       = option_map entry_price (Dict.get (portfolio s) t)
    /\ option_map last_price (Dict.get (portfolio s') t)
       = option_map (priced_at prices t) (Dict.get (portfolio s) t).
Proof.
  intros s prices w t Hc Hnotin. cbv zeta.
  rewrite (partial_portfolio_without_correction s prices w Hc).
  rewrite reprice_get.
  assert (Hframe :
    Dict.get (buy_portfolio (plan_after_buys (partial_plan_of s prices w))) t
    = Dict.get (portfolio s) t).
  { pose proof (buy_reqs_in_subset s prices w) as Hsub.
    unfold partial_plan_of in *. cbn [plan_after_buys plan_buy_reqs] in *.
    rewrite buy_pass_frame; [reflexivity|].
    intro Hin. apply in_map_iff in Hin. destruct Hin as [r [<- Hr]].
    apply Hnotin. now apply Hsub. }
  rewrite Hframe.
  destruct (Dict.get (portfolio s) t); simpl; auto.
Qed.

End BuyPass.

(** ** Proportional scaling of the pending buys *)

Section Scaling.
Import Portfolio.







End Scaling.

(** ** The sell-down pass of the partial rebalance *)

Section SellDown.
Import Portfolio.

Lemma partial_target_qty_wf (p : Dict.t holding) (prices : Dict.t Q)
  (total_equity cap : Q) (w : Dict.t Q) :
  Dict.wf w ->
  Dict.wf (partial_target_qty p prices (partial_target_dollars total_equity cap w)).
Proof.
  unfold Dict.wf.
  now rewrite partial_target_qty_keys, partial_target_dollars_keys.
Qed.

(** A subset ticker whose target is below its holding is booked as sold
    in cash and in the trade list, yet, when no correction runs, the
    returned snapshot still holds the whole position. *)
Lemma sell_down_keeps_quantity (s : snapshot) (prices : Dict.t Q)
  (w : Dict.t Q) (t : string) (tq : Z) :
  Dict.wf w ->
  0 <= buy_cash (plan_after_buys (partial_plan_of s prices w)) ->
  Dict.get (plan_target_qty (partial_plan_of s prices w)) t = Some tq ->
  (tq < qty_of (Dict.get (portfolio s) t))%Z ->
  qty_of (Dict.get (portfolio (fst (apply_partial_target_weights s prices w))) t)
  = qty_of (Dict.get (portfolio s) t).
Proof.
  intros Hwf Hc Hget Hlt.
  rewrite (partial_portfolio_without_correction s prices w Hc), reprice_get.
  assert (Hframe :
    Dict.get (buy_portfolio (plan_after_buys (partial_plan_of s prices w))) t
    = Dict.get (portfolio s) t).
  { unfold partial_plan_of in *. cbn [plan_after_buys plan_target_qty] in *.
    rewrite buy_pass_frame; [reflexivity|].
    intro Hin. apply in_map_iff in Hin. destruct Hin as [r [Ht Hr]].
    apply buy_reqs_tickers in Hr. destruct Hr as [Hin [Hneed _]].
    rewrite Ht in Hin.
    apply in_wf_get in Hin; [|now apply partial_target_qty_wf].
    rewrite Hin in Hget. inversion Hget. lia. }
  rewrite Hframe. now destruct (Dict.get (portfolio s) t).
Qed.

(** C4 (the code departs from it). Selling 100 shares of A down to a
    target of 0 at $10: the sell pass credits $1,000 and reports the trade
    [(A, 100, 0)], but the returned snapshot still records 100 shares, and
    the equity guard takes the $1,000 back out of cash. *)
Theorem sell_down_not_recorded :
  let pl :=
    partial_plan_of Scenario.sell_down_snapshot Scenario.sell_down_prices
      Scenario.sell_down_weights in
  let r :=
    apply_partial_target_weights Scenario.sell_down_snapshot
      Scenario.sell_down_prices Scenario.sell_down_weights in
  plan_target_qty pl = [("A"%string, 0%Z)]
  /\ plan_cash_after_sells pl == 1000
  /\ snd r = [("A"%string, 100%Z, 0%Z)]
  /\ option_map totalAmount (Dict.get (portfolio (fst r)) "A") = Some 100%Z
  /\ cash (fst r) == 0.
Proof.
  cbv zeta. repeat split; vm_compute; reflexivity.
Qed.

End SellDown.

(** ** Decision overrides of the sizing loop *)

Section DecisionOverride.
Import Portfolio Pipeline.

Lemma targets_of_defined (l : list (string * Q)) (pv : Q) (d0 : Dict.t Q)
  (t : string) :
  In t (map fst l) \/ Dict.get d0 t <> None ->
  Dict.get
    (fold_left
       (fun d (e : string * Q) => Dict.set d (fst e) (py_max 0 (snd e) * pv))
       l d0) t <> None.
Proof.
  revert d0. induction l as [|[k x] l IH]; intros d0 H; simpl.
  - destruct H as [[] | H]; exact H.
  - apply IH. simpl in H.
    destruct (string_dec t k) as [-> | Hne].
    + right. rewrite get_set_same. discriminate.
    + destruct H as [[H | H] | H].
      * congruence.
      * now left.
      * right. now rewrite get_set_other.
Qed.

Lemma combine_fst_covers {A B : Type} (l : list A) (l' : list B) :
  (List.length l <= List.length l')%nat -> map fst (combine l l') = l.
Proof.
  revert l'. induction l as [|a l IH]; intros [|b l'] H; simpl in *;
    try reflexivity; try lia.
  f_equal. apply IH. lia.
Qed.

Section Loop.
Variables (decisions : Dict.t string) (holdings : Dict.t holding)
  (prices : Dict.t Q) (targets : Dict.t Q) (min_lot : Z).

Lemma size_loop_total (tickers : list string) (trades : Dict.t trade) :
  (forall t, In t tickers -> Dict.get targets t <> None) ->
  exists result,
    size_loop decisions holdings prices targets min_lot tickers trades
    = Some result.
Proof.
  revert trades. induction tickers as [|t rest IH]; intros trades Hdef; simpl.
  - now exists trades.
  - destruct (Qle_bool (Dict.get_default prices t 0) 0).
    + apply IH. intros. apply Hdef. now right.
    + destruct (Dict.get targets t) eqn:E.
      * apply IH. intros. apply Hdef. now right.
      * exfalso. apply (Hdef t); [now left | exact E].
Qed.

Lemma size_loop_frame (tickers : list string) (trades result : Dict.t trade)
  (t : string) :
  size_loop decisions holdings prices targets min_lot tickers trades
  = Some result ->
  ~ In t tickers ->
  Dict.get result t = Dict.get trades t.
Proof.
  revert trades. induction tickers as [|t0 rest IH]; intros trades Hrun Hnotin;
    simpl in Hrun.
  - now inversion Hrun.
  - simpl in Hnotin.
    destruct (Qle_bool (Dict.get_default prices t0 0) 0).
    + apply IH; tauto.
    + destruct (Dict.get targets t0); [|discriminate].
      rewrite (IH _ Hrun) by tauto.
      apply get_set_other. intuition.
Qed.

Lemma size_loop_trade (tickers : list string) (trades result : Dict.t trade)
  (t : string) :
  size_loop decisions holdings prices targets min_lot tickers trades
  = Some result ->
  In t tickers ->
  0 < Dict.get_default prices t 0 ->
  exists target_value,
    Dict.get targets t = Some target_value
    /\ Dict.get result t
       = Some (size_trade (decision_of decisions t) target_value
                 (Dict.get_default prices t 0) (qty_of (Dict.get holdings t))
                 min_lot).
Proof.
  revert trades. induction tickers as [|t0 rest IH]; intros trades Hrun Hin Hpx;
    simpl in Hrun; [contradiction|].
  destruct (Qle_bool (Dict.get_default prices t0 0) 0) eqn:E.
  - destruct Hin as [-> | Hin]; [|eauto].
    apply Qle_bool_iff in E. lra.
  - destruct (Dict.get targets t0) as [tv|] eqn:Et; [|discriminate].
    destruct (in_dec string_dec t rest) as [Hrest | Hrest]; [eauto|].
    destruct Hin as [-> | Hin]; [|contradiction].
    exists tv. split; [exact Et|].
    rewrite (size_loop_frame _ _ _ _ Hrun Hrest). apply get_set_same.
Qed.

End Loop.

Lemma size_trade_sell (target_value px : Q) (curr_qty min_lot : Z) :
  let tr := size_trade "SELL" target_value px curr_qty min_lot in
  target_qty tr = 0%Z /\ delta_shares tr = (- curr_qty)%Z.
Proof.
  unfold size_trade. cbn [String.eqb Ascii.eqb Bool.eqb orb target_qty delta_shares].
  split; [reflexivity|].
  destruct (0 <? curr_qty)%Z eqn:E; [reflexivity|].
  destruct (curr_qty <? 0)%Z eqn:F; [reflexivity|].
  apply Z.ltb_ge in E, F. lia.
Qed.

Lemma size_trade_open (decision : string) (target_value px : Q) (min_lot : Z) :
  decision = "BUY"%string \/ decision = "HOLD"%string ->
  let tr := size_trade decision target_value px 0 min_lot in
  (1 <= delta_shares tr)%Z
  /\ ((0 < target_qty tr)%Z -> delta_shares tr = target_qty tr)
  /\ (target_qty tr = 0%Z -> delta_shares tr = Z.max min_lot 1)
  /\ ((min_lot <= 1)%Z -> (Z.max min_lot 1 <= delta_shares tr)%Z).
Proof.
  intros [-> | ->]; unfold size_trade;
    cbn [String.eqb Ascii.eqb Bool.eqb orb target_qty delta_shares Z.ltb Z.compare];
    set (q := Z.max 0 (py_int (py_floordiv target_value px)));
    destruct (0 <? q)%Z eqn:E;
    [apply Z.ltb_lt in E | apply Z.ltb_ge in E
    |apply Z.ltb_lt in E | apply Z.ltb_ge in E];
    repeat split; intros; lia.
Qed.

(** C6 (as amended). For a ticker of the aligned universe priced above 0,
    [size_positions] returns a trade whose [current_qty] is the holding;
    under SELL its target is 0 and its delta is minus the current quantity,
    whatever the optimizer weight; under BUY or HOLD on a flat position it
    buys the optimizer's target quantity when that is positive and exactly
    [max(min_lot, 1)] shares when the weight rounds to 0: always at least
    one share, and at least one lot whenever [min_lot <= 1] (the default). *)
Theorem size_positions_decision_override :
  forall (tickers : list string) (w : list Q) (decisions : Dict.t string)
         (holdings : Dict.t holding) (total_cash : Q) (prices : Dict.t Q)
         (min_lot : Z) (t : string),
    (List.length tickers <= List.length w)%nat ->
    In t tickers ->
    0 < Dict.get_default prices t 0 ->
    exists trades tr,
      size_positions tickers w decisions holdings total_cash prices min_lot
      = Some trades
      /\ Dict.get trades t = Some tr
      /\ current_qty tr = qty_of (Dict.get holdings t)
      /\ price tr = Dict.get_default prices t 0
      /\ (decision_of decisions t = "SELL"%string ->
          target_qty tr = 0%Z /\ delta_shares tr = (- current_qty tr)%Z)
      /\ (decision_of decisions t = "BUY"%string
          \/ decision_of decisions t = "HOLD"%string ->
          current_qty tr = 0%Z ->
          (1 <= delta_shares tr)%Z
          /\ ((0 < target_qty tr)%Z -> delta_shares tr = target_qty tr)
          /\ (target_qty tr = 0%Z -> delta_shares tr = Z.max min_lot 1)
          /\ ((min_lot <= 1)%Z -> (Z.max min_lot 1 <= delta_shares tr)%Z)).
Proof.
  intros tickers w decisions holdings total_cash prices min_lot t Hlen Hin Hpx.
  unfold size_positions.
  destruct tickers as [|t0 rest] eqn:Etk; [contradiction|]. rewrite <- Etk in *.
  set (pv := portfolio_value_of holdings total_cash prices tickers).
  assert (Hdef : forall k, In k tickers -> Dict.get (targets_of tickers w pv) k <> None).
  { intros k Hk. unfold targets_of. apply targets_of_defined. left.
    now rewrite combine_fst_covers. }
  destruct (size_loop_total decisions holdings prices (targets_of tickers w pv)
              min_lot tickers [] Hdef) as [trades Hrun].
  destruct (size_loop_trade decisions holdings prices (targets_of tickers w pv)
              min_lot tickers [] trades t Hrun Hin Hpx) as [tv [_ Htr]].
  exists trades. eexists. split; [exact Hrun|]. split; [exact Htr|].
  split; [reflexivity|]. split; [reflexivity|]. split.
  - intro Hd. rewrite Hd. apply size_trade_sell.
  - intros Hd Hflat. cbn [current_qty size_trade] in Hflat.
    unfold size_trade in Hflat. cbn [current_qty] in Hflat. rewrite Hflat.
    now apply size_trade_open.
Qed.

(** The end-to-end scenarios of the sizing loop: a SELL on 10 shares
    priced at $110 exits in full; a BUY on a flat position with cash $1000
    and weight 0.6 at $50 targets [floor(0.6 * 1000 / 50) = 12] shares. *)
Lemma size_positions_scenarios :
  size_positions ["AAPL"%string] [6 # 10] [("AAPL", "SELL")%string]
    [("AAPL"%string, mkHolding 10 100 90)] 1000 [("AAPL"%string, 110)] 1
  = Some [("AAPL"%string, mkTrade (-10) 0 10 110)]
  /\ size_positions ["AAPL"%string] [6 # 10] [("AAPL", "BUY")%string] [] 1000
       [("AAPL"%string, 50)] 1
     = Some [("AAPL"%string, mkTrade 12 12 0 50)].
Proof.
  split; vm_compute; reflexivity.
Qed.

(** C6 as stated fails on the lot size: with [min_lot = 10], cash 1000 and
    a single ticker at $300 (optimizer weight 1), a BUY on the flat
    position has a target of [1000 // 300 = 3] shares and buys 3 shares,
    less than one lot of [max(min_lot, 1) = 10]. *)
Lemma buy_below_one_lot :
  size_positions ["AAPL"%string] [1] [("AAPL", "BUY")%string] [] 1000
    [("AAPL"%string, 300)] 10
  = Some [("AAPL"%string, mkTrade 3 3 0 300)]
  /\ ~ (Z.max 10 1 <= 3)%Z.
Proof.
  split; [vm_compute; reflexivity | lia].
Qed.

End DecisionOverride.

(** ** View fusion *)

Section ViewFusion.
Import LinAlg.

(** With no views the implied equilibrium returns come back unchanged. *)
Lemma black_litterman_no_views (pinv : matrix -> matrix) (market_weights : vec)
  (covariance : matrix) (risk_aversion : Q) (P : matrix) (Qv : vec) (tau : Q)
  (Omega : option matrix) :
  size P = O ->
  Optimizer.black_litterman pinv market_weights covariance risk_aversion P Qv
    tau Omega
  = mat_vec (mat_scale risk_aversion covariance) market_weights.
Proof.
  intro H. unfold Optimizer.black_litterman. now rewrite H.
Qed.

Lemma Qmult_1_l_eq (x : Q) : 1 * x = x.
Proof.
  destruct x as [n d]. unfold Qmult. cbn [Qnum Qden].
  now rewrite Z.mul_1_l.
Qed.

Lemma mat_scale_1 (M : matrix) : mat_scale 1 M = M.
Proof.
  unfold mat_scale, vec_scale.
  induction M as [|r M IH]; cbn [map]; [reflexivity|].
  rewrite IH. f_equal.
  induction r as [|x r IHr]; cbn [map]; [reflexivity|].
  now rewrite IHr, Qmult_1_l_eq.
Qed.

(** With views and a supplied [Omega], [black_litterman] of
    [testing/mvo/optimizer.py] is the closed form taken at [tau = 1]: its
    prior precision is the inverse of the unscaled covariance, and [tau]
    has no effect on the result. *)
Lemma black_litterman_ignores_tau (pinv : matrix -> matrix)
  (market_weights : vec) (covariance : matrix) (risk_aversion : Q)
  (P : matrix) (Qv : vec) (tau : Q) (Omega : matrix) :
  size P <> O -> size Omega <> O ->
  Optimizer.black_litterman pinv market_weights covariance risk_aversion P Qv
    tau (Some Omega)
  = Optimizer.posterior_mean_closed_form pinv covariance
      (mat_vec (mat_scale risk_aversion covariance) market_weights) P Qv 1 Omega.
Proof.
  intros HP HO.
  unfold Optimizer.black_litterman, Optimizer.posterior_mean_closed_form.
  apply Nat.eqb_neq in HP, HO. rewrite HP, HO, mat_scale_1. reflexivity.
Qed.

(** C8 (the code departs from it). One asset with variance 1, market
    weight 1, risk aversion 1, a single view of 0 with uncertainty 1 and
    [tau = 1/2], so that [pi = 1].  The closed form with prior precision
    [inv(tau Sigma) = 2] gives [2/3], and so does
    [MVO_BLM/blm.py]; [testing/mvo/optimizer.py] uses [inv(Sigma) = 1] as
    prior precision and returns [1/2]. *)
Theorem black_litterman_prior_precision_unscaled :
  let cov : matrix := [[1]] in
  let P : matrix := [[1]] in
  let pi : vec := mat_vec (mat_scale 1 cov) [1] in
  map Qred pi = [1]
  /\ map Qred
       (Optimizer.posterior_mean_closed_form pinv_diag cov pi P [0] (1 # 2) [[1]])
     = [2 # 3]
  /\ map Qred
       (Optimizer.black_litterman pinv_diag [1] cov 1 P [0] (1 # 2) (Some [[1]]))
     = [1 # 2]
  /\ option_map (fun r => map Qred (fst (fst r)))
       (BLM.black_litterman inv_diag cov [1] [("A"%string, 0)] ["A"%string]
          1 (1 # 2) 2)
     = Some [2 # 3].
Proof.
  cbv zeta. repeat split; vm_compute; reflexivity.
Qed.

(** C9 (the code departs from it). [black_litterman] of [MVO_BLM/blm.py]
    inverts strictly: whenever the inversion of [tau * cov] raises, as it
    does on a singular covariance, the function raises too. *)
Theorem blm_black_litterman_raises_on_singular :
  forall (inv : matrix -> option matrix) (cov : matrix) (market_weights : vec)
         (views : Dict.t Q) (tickers : list string)
         (risk_aversion tau omega_scale : Q),
    inv (mat_scale tau cov) = None ->
    BLM.black_litterman inv cov market_weights views tickers risk_aversion tau
      omega_scale
    = None.
Proof.
  intros inv cov mw views tickers ra tau os H.
  unfold BLM.black_litterman. now rewrite H.
Qed.

Lemma blm_black_litterman_raises_on_singular_witness :
  inv_diag (mat_scale (25 # 1000) [[0]]) = None
  /\ BLM.black_litterman inv_diag [[0]] [1] [] ["A"%string] 3 (25 # 1000) (1 # 2)
     = None.
Proof.
  split.
  - reflexivity.
  - apply (blm_black_litterman_raises_on_singular inv_diag [[0]] [1] []
             ["A"%string] 3 (25 # 1000) (1 # 2)).
    reflexivity.
Defined.

End ViewFusion.

(** ** The stable sort is a permutation *)

Section Sorting.
Context {A : Type} (key : A -> Q).

Lemma insert_desc_perm (x : A) (l : list A) :
  Permutation (insert_desc key x l) (x :: l).
Proof.
  induction l as [|y l IH]; simpl.
  - apply Permutation_refl.
  - destruct (Qltb (key y) (key x)).
    + apply Permutation_refl.
    + eapply perm_trans; [apply perm_skip, IH | apply perm_swap].
Qed.

Lemma sort_desc_acc_perm (l acc : list A) :
  Permutation (fold_left (fun acc x => insert_desc key x acc) l acc) (l ++ acc).
Proof.
  revert acc. induction l as [|x l IH]; intro acc; simpl.
  - apply Permutation_refl.
  - eapply perm_trans; [apply IH|].
    eapply perm_trans; [apply Permutation_app_head, insert_desc_perm|].
    apply Permutation_sym, Permutation_middle.
Qed.

Lemma sort_desc_perm (l : list A) : Permutation (sort_desc key l) l.
Proof.
  unfold sort_desc. eapply perm_trans; [apply sort_desc_acc_perm|].
  now rewrite app_nil_r.
Qed.

End Sorting.

(** ** No short positions *)

Section NoShort.
Import Portfolio Valuation.

Lemma long_only_set (p : Dict.t holding) (t : string) (h : holding) :
  long_only p -> (0 <= totalAmount h)%Z -> long_only (Dict.set p t h).
Proof.
  unfold long_only. intros Hp Hh. now apply values_set.
Qed.

Lemma long_only_qty (p : Dict.t holding) (t : string) :
  long_only p -> (0 <= qty_of (Dict.get p t))%Z.
Proof.
  intro Hp. destruct (Dict.get p t) as [h|] eqn:E; simpl; [|lia].
  exact (values_get _ p t h Hp E).
Qed.

Lemma long_only_reprice (prices : Dict.t Q) (p : Dict.t holding) :
  long_only p -> long_only (reprice prices p).
Proof.
  unfold long_only, Dict.values, reprice. rewrite map_map.
  rewrite !Forall_map. apply Forall_impl.
  intros [t h] H. simpl in *. now destruct (Dict.get prices t).
Qed.

Lemma long_only_drop_flat (p : Dict.t holding) :
  long_only p -> long_only (drop_flat p).
Proof.
  unfold long_only, Dict.values, drop_flat. rewrite !Forall_map.
  intro H. apply Forall_forall. intros e He.
  apply filter_In in He. destruct He as [He _].
  rewrite Forall_forall in H. now apply H.
Qed.

Lemma wf_drop_flat (p : Dict.t holding) : Dict.wf p -> Dict.wf (drop_flat p).
Proof.
  unfold Dict.wf, Dict.keys, drop_flat.
  induction p as [|[t h] p IH]; simpl; intro H; [constructor|].
  inversion H as [|? ? Hnotin Hwf]; subst.
  destruct (0 <? totalAmount h)%Z; simpl; [|auto].
  constructor; [|auto].
  intro Hin. apply Hnotin. apply in_map_iff in Hin.
  destruct Hin as [e [<- He]]. apply filter_In in He.
  apply in_map. tauto.
Qed.

(** *** The full rebalance *)

Lemma atw_step_long_only (portfolio_prev : Dict.t holding) (prices : Dict.t Q)
  (st : atw_state) (e : string * Q) :
  long_only (atw_portfolio st) ->
  long_only (atw_portfolio (atw_step portfolio_prev prices st e)).
Proof.
  intro Hst. unfold atw_step.
  destruct (Qle_bool (Dict.get_default prices (fst e) 0) 0).
  - destruct (0 <? qty_of (Dict.get portfolio_prev (fst e)))%Z eqn:E;
      [|exact Hst].
    cbn [atw_portfolio]. apply long_only_set; [exact Hst|].
    apply Z.ltb_lt in E. simpl. lia.
  - cbn [atw_portfolio].
    destruct (0 <? atw_target_qty (snd e) (Dict.get_default prices (fst e) 0%Q))%Z
      eqn:E; [|exact Hst].
    apply long_only_set; [exact Hst|]. apply Z.ltb_lt in E. simpl. lia.
Qed.

Lemma atw_loop_long_only (portfolio_prev : Dict.t holding) (prices : Dict.t Q)
  (l : list (string * Q)) (st : atw_state) :
  long_only (atw_portfolio st) ->
  long_only (atw_portfolio (fold_left (atw_step portfolio_prev prices) l st)).
Proof.
  revert st. induction l as [|e l IH]; intros st Hst; simpl; [exact Hst|].
  apply IH. now apply atw_step_long_only.
Qed.

Lemma atw_keep_unpriced_long_only (prices : Dict.t Q)
  (l : list (string * holding)) (np : Dict.t holding) :
  long_only l -> long_only np ->
  long_only (fold_left (atw_keep_unpriced prices) l np).
Proof.
  revert np. induction l as [|[t h] l IH]; intros np Hl Hnp; simpl; [exact Hnp|].
  unfold long_only, Dict.values in Hl. simpl in Hl.
  inversion Hl as [|? ? Hh Hl']; subst.
  apply IH; [exact Hl'|]. unfold atw_keep_unpriced. simpl.
  destruct (negb (Dict.mem np t) && negb (Dict.mem prices t)); [|exact Hnp].
  now apply long_only_set.
Qed.

Lemma apply_target_weights_long_only (s : snapshot) (tickers : list string)
  (prices : Dict.t Q) (target_weights : list Q) :
  long_only (portfolio s) ->
  long_only (portfolio (fst (apply_target_weights s tickers prices target_weights))).
Proof.
  intro Hs. unfold apply_target_weights.
  cbn [fst portfolio update_snapshot_prices ledger].
  apply long_only_reprice, atw_keep_unpriced_long_only; [exact Hs|].
  apply atw_loop_long_only. constructor.
Qed.

(** *** The partial rebalance *)

Lemma buy_step_invariant (scale : Q) (st : buy_state) (r : buy_req) :
  Dict.wf (buy_portfolio st) /\ long_only (buy_portfolio st) ->
  Dict.wf (buy_portfolio (buy_step scale st r))
  /\ long_only (buy_portfolio (buy_step scale st r)).
Proof.
  intros [Hwf Hlo]. unfold buy_step.
  destruct (py_int (inject_Z (br_need_q r) * scale) <=? 0)%Z eqn:E;
    [now split|].
  apply Z.leb_gt in E. cbn [buy_portfolio]. split.
  - now apply wf_set.
  - apply long_only_set; [exact Hlo|]. simpl.
    pose proof (long_only_qty _ (br_ticker r) Hlo). lia.
Qed.

Lemma buy_pass_invariant (scale : Q) (reqs : list buy_req) (st : buy_state) :
  Dict.wf (buy_portfolio st) /\ long_only (buy_portfolio st) ->
  Dict.wf (buy_portfolio (fold_left (buy_step scale) reqs st))
  /\ long_only (buy_portfolio (fold_left (buy_step scale) reqs st)).
Proof.
  revert st. induction reqs as [|r reqs IH]; intros st H; simpl; [exact H|].
  apply IH. now apply buy_step_invariant.
Qed.

Lemma unwind_shares_invariant (n : nat) (t : string) (px : Q)
  (p : Dict.t holding) (c : Q) :
  Dict.wf p /\ long_only p ->
  Dict.wf (fst (unwind_shares n t px p c))
  /\ long_only (fst (unwind_shares n t px p c)).
Proof.
  revert p c. induction n as [|n IH]; intros p c [Hwf Hlo]; simpl; [now split|].
  destruct (Qltb c 0); [|now split].
  destruct (qty_of (Dict.get p t) <=? 0)%Z eqn:E; [now split|].
  apply Z.leb_gt in E. apply IH. split.
  - now apply wf_set.
  - apply long_only_set; [exact Hlo|]. simpl. lia.
Qed.

Lemma unwind_buys_invariant (buys : list applied_buy) (p : Dict.t holding)
  (c : Q) :
  Dict.wf p /\ long_only p ->
  Dict.wf (fst (unwind_buys buys p c)) /\ long_only (fst (unwind_buys buys p c)).
Proof.
  revert p c. induction buys as [|[[t bq] px] buys IH]; intros p c H; simpl;
    [exact H|].
  destruct (Qle_bool 0 c); [exact H|].
  apply IH. now apply unwind_shares_invariant.
Qed.

Lemma unwind_pass_invariant (applied : list applied_buy) (p : Dict.t holding)
  (c : Q) :
  Dict.wf p /\ long_only p ->
  Dict.wf (fst (unwind_pass applied p c))
  /\ long_only (fst (unwind_pass applied p c)).
Proof.
  intro H. unfold unwind_pass. destruct applied as [|b applied]; [exact H|].
  destruct (Qltb c 0); [|exact H]. cbn [fst].
  destruct (unwind_buys_invariant
              (sort_desc (fun b0 : applied_buy => inject_Z (snd (fst b0)) * snd b0)
                 (b :: applied)) p c H) as [Hwf Hlo].
  split; [now apply wf_drop_flat | now apply long_only_drop_flat].
Qed.

Lemma sell_candidates_covered (prices : Dict.t Q) (p : Dict.t holding) :
  Dict.wf p -> covered (sell_candidates_of prices p) p.
Proof.
  intro Hwf. split.
  - unfold Dict.wf, Dict.keys in Hwf. unfold sell_candidates_of.
    clear -Hwf. induction p as [|[t h] p IH]; simpl; [constructor|].
    inversion Hwf as [|? ? Hnotin Hwf']; subst.
    assert (Hsub : forall k, In k (map sc_ticker
                     (flat_map
                        (fun e : string * holding =>
                           if (totalAmount (snd e) <=? 0)%Z then []
                           else if Qle_bool
                                     (Dict.get_default prices (fst e)
                                        (last_price (snd e))) 0 then []
                           else [mkCand (fst e) (totalAmount (snd e))
                                   (Dict.get_default prices (fst e)
                                      (last_price (snd e)))
                                   (inject_Z (totalAmount (snd e))
                                    * Dict.get_default prices (fst e)
                                        (last_price (snd e)))]) p)) ->
                   In k (map fst p)).
    { intros k Hk. apply in_map_iff in Hk. destruct Hk as [c [<- Hc]].
      apply in_flat_map in Hc. destruct Hc as [[t' h'] [He Hc]]. simpl in Hc.
      destruct (totalAmount h' <=? 0)%Z; [contradiction|].
      destruct (Qle_bool _ 0); [contradiction|].
      destruct Hc as [<- | []]. simpl.
      change t' with (fst (t', h')). now apply in_map. }
    destruct (totalAmount h <=? 0)%Z; [now apply IH|].
    destruct (Qle_bool _ 0); [now apply IH|].
    simpl. constructor; [|now apply IH].
    intro Hin. apply Hnotin. now apply Hsub.
  - apply Forall_forall. intros c Hc. unfold sell_candidates_of in Hc.
    apply in_flat_map in Hc. destruct Hc as [[t h] [He Hc]]. simpl in Hc.
    destruct (totalAmount h <=? 0)%Z; [contradiction|].
    destruct (Qle_bool _ 0); [contradiction|].
    destruct Hc as [<- | []]. simpl.
    rewrite (in_wf_get p t h Hwf He). simpl. lia.
Qed.

Lemma covered_perm (cands cands' : list sell_cand) (p : Dict.t holding) :
  Permutation cands cands' -> covered cands p -> covered cands' p.
Proof.
  intros Hperm [Hnd Hall]. split.
  - eapply Permutation_NoDup; [|exact Hnd]. now apply Permutation_map.
  - eapply Permutation_Forall; eassumption.
Qed.

Lemma covered_tail (c : sell_cand) (rest : list sell_cand) (p : Dict.t holding)
  (h : holding) :
  covered (c :: rest) p -> covered rest (Dict.set p (sc_ticker c) h).
Proof.
  intros [Hnd Hall]. simpl in Hnd.
  inversion Hnd as [|? ? Hnotin Hnd']; subst.
  inversion Hall as [|? ? _ Hrest]; subst.
  split; [exact Hnd'|].
  apply Forall_forall. intros c' Hc'.
  rewrite Forall_forall in Hrest. specialize (Hrest c' Hc').
  rewrite get_set_other; [exact Hrest|].
  intro Heq. apply Hnotin. rewrite <- Heq. now apply in_map.
Qed.

Lemma covered_skip (c : sell_cand) (rest : list sell_cand) (p : Dict.t holding) :
  covered (c :: rest) p -> covered rest p.
Proof.
  intros [Hnd Hall]. inversion Hnd; inversion Hall; subst. now split.
Qed.

Lemma emergency_sells_long_only (cands : list sell_cand) (st : esell_state) :
  covered cands (es_portfolio st) ->
  long_only (es_portfolio st) ->
  long_only (es_portfolio (emergency_sells cands st)).
Proof.
  revert st. induction cands as [|c rest IH]; intros st Hcov Hlo; simpl;
    [exact Hlo|].
  destruct (Qle_bool (es_shortfall st) 0); [exact Hlo|].
  destruct (Z.min (sc_qty c) (py_ceil (es_shortfall st / sc_px c)) <=? 0)%Z.
  - apply IH; [eapply covered_skip; eassumption | exact Hlo].
  - apply IH; cbn [es_portfolio].
    + now apply covered_tail.
    + apply long_only_set; [exact Hlo|]. simpl.
      destruct Hcov as [_ Hall]. inversion Hall as [|? ? Hc _]; subst. lia.
Qed.

Lemma forced_sells_long_only (cands : list sell_cand) (st : fsell_state) :
  covered cands (fs_portfolio st) ->
  long_only (fs_portfolio st) ->
  long_only (fs_portfolio (forced_sells cands st)).
Proof.
  revert st. induction cands as [|c rest IH]; intros st Hcov Hlo; simpl;
    [exact Hlo|].
  destruct (Qle_bool (fs_shortfall st) 0); [exact Hlo|].
  destruct (Z.min (sc_qty c) (py_ceil (fs_shortfall st / sc_px c)) <=? 0)%Z.
  - apply IH; [eapply covered_skip; eassumption | exact Hlo].
  - apply IH; cbn [fs_portfolio].
    + now apply covered_tail.
    + apply long_only_set; [exact Hlo|]. simpl.
      destruct Hcov as [_ Hall]. inversion Hall as [|? ? Hc _]; subst. lia.
Qed.

Lemma emergency_pass_long_only (prices : Dict.t Q) (p : Dict.t holding) (c : Q)
  (changes : list change) :
  Dict.wf p -> long_only p ->
  long_only (fst (fst (emergency_pass prices p c changes))).
Proof.
  intros Hwf Hlo. unfold emergency_pass.
  destruct (Qltb c 0); [|exact Hlo]. cbn [fst].
  apply long_only_drop_flat, emergency_sells_long_only; [|exact Hlo].
  cbn [es_portfolio].
  eapply covered_perm;
    [apply Permutation_sym, sort_desc_perm | now apply sell_candidates_covered].
Qed.

Lemma equity_guard_long_only (e0 : Q) (s : snapshot) (prices : Dict.t Q) :
  long_only (portfolio s) -> long_only (portfolio (equity_guard e0 s prices)).
Proof.
  intro H. unfold equity_guard. destruct (Qltb _ _); [|exact H].
  cbn [portfolio update_snapshot_prices]. now apply long_only_reprice.
Qed.

Lemma apply_partial_target_weights_long_only (s : snapshot) (prices : Dict.t Q)
  (w : Dict.t Q) :
  Dict.wf (portfolio s) -> long_only (portfolio s) ->
  long_only (portfolio (fst (apply_partial_target_weights s prices w))).
Proof.
  intros Hwf Hlo. unfold apply_partial_target_weights. cbv zeta. cbn [fst].
  apply equity_guard_long_only.
  cbn [portfolio update_snapshot_prices ledger]. apply long_only_reprice.
  set (bought := plan_after_buys (partial_plan_of s prices w)).
  assert (Hb : Dict.wf (buy_portfolio bought) /\ long_only (buy_portfolio bought)).
  { subst bought. unfold partial_plan_of. cbn [plan_after_buys].
    apply buy_pass_invariant. cbn [buy_portfolio]. now split. }
  destruct (unwind_pass_invariant (buy_applied bought) (buy_portfolio bought)
              (buy_cash bought) Hb) as [Hwf' Hlo'].
  now apply emergency_pass_long_only.
Qed.

Lemma force_cash_non_negative_long_only (s : snapshot) (prices : Dict.t Q) :
  Dict.wf (portfolio s) -> long_only (portfolio s) ->
  long_only (portfolio (force_cash_non_negative s prices)).
Proof.
  intros Hwf Hlo. unfold force_cash_non_negative.
  destruct (Qle_bool 0 (cash s)); cbn [portfolio update_snapshot_prices ledger];
    apply long_only_reprice; [exact Hlo|].
  apply long_only_drop_flat, forced_sells_long_only; [|exact Hlo].
  cbn [fs_portfolio].
  eapply covered_perm;
    [apply Permutation_sym, sort_desc_perm | now apply sell_candidates_covered].
Qed.

(** *** Targets of negative weights *)

Lemma atw_target_qty_zero (td px : Q) : td == 0 -> atw_target_qty td px = 0%Z.
Proof.
  intro H. unfold atw_target_qty, py_floordiv.
  rewrite py_int_inject. rewrite H.
  setoid_replace (0 / px) with 0 by (unfold Qdiv; ring). reflexivity.
Qed.

Lemma clamped_weight (w x : Q) : w <= 0 -> py_max 0 w * x == 0.
Proof.
  intro H. rewrite py_max_left by exact H. ring.
Qed.

(** C3. Starting from a snapshot whose quantities are all [>= 0], every
    holding of the snapshot returned by [apply_target_weights] and by
    [apply_partial_target_weights] has a quantity [>= 0], for all prices and
    all target weights, negative ones included.  What the code clamps is
    the weight, not the target: a weight [<= 0] gives a target of 0 dollars,
    hence 0 shares, in the full rebalance, and of [min(0, per_name_cap)]
    dollars in the partial one.  So on a snapshot in debt the target is not
    clamped to 0: with nothing held, cash -1000 and the ticker priced at
    10, the partial rebalance gives the weight -1 the target -5 and books
    the trade [(A, 0, -5)], and the full rebalance gives the weight 1 the
    target -100 and books [(A, 0, -100)]; no holding is written for
    either. *)
Theorem rebalance_no_short :
  forall (s : snapshot) (prices : Dict.t Q),
    Dict.wf (portfolio s) ->
    long_only (portfolio s) ->
    (forall (tickers : list string) (target_weights : list Q),
        long_only
          (portfolio (fst (apply_target_weights s tickers prices target_weights))))
    /\ (forall w : Dict.t Q,
           long_only (portfolio (fst (apply_partial_target_weights s prices w))))
    /\ (forall w total_equity px : Q,
           w <= 0 ->
           atw_target_dollars total_equity [w] = [py_max 0 w * total_equity]
           /\ py_max 0 w * total_equity == 0
           /\ atw_target_qty (py_max 0 w * total_equity) px = 0%Z)
    /\ (forall (t : string) (w total_equity cap : Q),
           w <= 0 ->
           Forall (fun e : string * Q => snd e == py_min 0 cap)
             (partial_target_dollars total_equity cap [(t, w)]))
    /\ (let debt_prices : Dict.t Q := [("A"%string, 10)] in
        let partial :=
          apply_partial_target_weights Scenario.indebted_snapshot debt_prices
            [("A"%string, - (1))] in
        let full :=
          apply_target_weights Scenario.indebted_snapshot ["A"%string]
            debt_prices [1] in
        plan_target_qty
          (partial_plan_of Scenario.indebted_snapshot debt_prices
             [("A"%string, - (1))])
        = [("A"%string, (- (5))%Z)]
        /\ snd partial = [("A"%string, 0%Z, (- (5))%Z)]
        /\ portfolio (fst partial) = []
        /\ atw_target_qty (py_max 0 1 * equity_at Scenario.indebted_snapshot
                                          debt_prices) 10
           = (- (100))%Z
        /\ snd full = [("A"%string, 0%Z, (- (100))%Z)]
        /\ portfolio (fst full) = []).
Proof.
  intros s prices Hwf Hlo. split; [|split; [|split; [|split]]].
  - intros. now apply apply_target_weights_long_only.
  - intros. now apply apply_partial_target_weights_long_only.
  - intros w te px Hw. split; [reflexivity|].
    pose proof (clamped_weight w te Hw) as Hz.
    split; [exact Hz | now apply atw_target_qty_zero].
  - intros t w te cap Hw. constructor; [|constructor]. cbn [snd].
    pose proof (clamped_weight w te Hw) as Hz. unfold py_min.
    destruct (Qltb cap (py_max 0 w * te)) eqn:E;
      destruct (Qltb cap 0) eqn:E0; try reflexivity; try exact Hz.
    + apply Qltb_true in E. apply Qltb_false in E0. lra.
    + apply Qltb_false in E. apply Qltb_true in E0. lra.
  - cbv zeta. repeat split; vm_compute; reflexivity.
Qed.

End NoShort.

(** ** Sums over tickers and over holdings *)

Section SumFacts.

Lemma Qsum_nil : Qsum [] == 0.
Proof. reflexivity. Qed.

Lemma Qsum_app (l l' : list Q) : Qsum (l ++ l') == Qsum l + Qsum l'.
Proof.
  induction l as [|x l IH]; simpl.
  - rewrite Qsum_nil. ring.
  - rewrite !Qsum_cons, IH. ring.
Qed.

Lemma Qsum_map_ext_in {A : Type} (f g : A -> Q) (l : list A) :
  (forall x, In x l -> f x == g x) -> Qsum (map f l) == Qsum (map g l).
Proof.
  induction l as [|x l IH]; intro H; simpl.
  - reflexivity.
  - rewrite !Qsum_cons, IH.
    + rewrite (H x) by now left. reflexivity.
    + intros y Hy. apply H. now right.
Qed.

Lemma Qsum_map_plus {A : Type} (f g : A -> Q) (l : list A) :
  Qsum (map (fun x => f x + g x) l) == Qsum (map f l) + Qsum (map g l).
Proof.
  induction l as [|x l IH]; simpl.
  - rewrite Qsum_nil. ring.
  - rewrite !Qsum_cons, IH. ring.
Qed.

Lemma Qsum_map_zero {A : Type} (l : list A) : Qsum (map (fun _ => 0) l) == 0.
Proof.
  induction l as [|x l IH]; simpl.
  - reflexivity.
  - rewrite Qsum_cons, IH. ring.
Qed.

(** In a duplicate-free list the value [a] picked at [t0] is counted once. *)
Lemma Qsum_pick (l : list string) (t0 : string) (a : Q) (F : string -> Q) :
  NoDup l -> F t0 == 0 ->
  Qsum (map (fun t => if String.eqb t t0 then a else F t) l)
  == (if in_dec string_dec t0 l then a else 0) + Qsum (map F l).
Proof.
  intros Hnd HF. induction l as [|x l IH]; simpl.
  - rewrite Qsum_nil. ring.
  - apply NoDup_cons_iff in Hnd. destruct Hnd as [Hnotin Hnd'].
    rewrite !Qsum_cons, (IH Hnd').
    destruct (String.eqb x t0) eqn:E.
    + apply String.eqb_eq in E. subst x.
      destruct (string_dec t0 t0) as [Heq | Hne]; [|congruence].
      destruct (in_dec string_dec t0 l) as [Hin | Hout]; [contradiction|].
      rewrite HF. ring.
    + apply String.eqb_neq in E.
      destruct (string_dec x t0) as [Heq | Hne]; [congruence|].
      destruct (in_dec string_dec t0 l); ring.
Qed.

(** A sum over a duplicate-free ticker list of a value looked up in a
    dictionary is the sum over the dictionary entries whose key is listed. *)
Lemma Qsum_by_ticker {V : Type} (f : string * V -> Q) (d : Dict.t V)
  (tickers : list string) :
  Dict.wf d -> NoDup tickers ->
  Qsum (map (fun t => match Dict.get d t with
                      | Some v => f (t, v)
                      | None => 0
                      end) tickers)
  == Qsum (map (fun e => if in_dec string_dec (fst e) tickers then f e else 0) d).
Proof.
  intros Hwf Hnd. induction d as [|[t0 v0] d IH]; simpl.
  - rewrite Qsum_map_zero, Qsum_nil. reflexivity.
  - unfold Dict.wf, Dict.keys in Hwf. simpl in Hwf.
    apply NoDup_cons_iff in Hwf. destruct Hwf as [Hnotin Hwf'].
    rewrite Qsum_cons, <- (IH Hwf').
    rewrite <- (Qsum_pick tickers t0 (f (t0, v0))
                  (fun t => match Dict.get d t with
                            | Some v => f (t, v)
                            | None => 0
                            end) Hnd).
    + apply Qsum_map_ext_in. intros t _.
      destruct (String.eqb t t0) eqn:E; [|reflexivity].
      apply String.eqb_eq in E. subst t. reflexivity.
    + assert (Hnone : Dict.get d t0 = None) by now apply get_none_notin.
      now rewrite Hnone.
Qed.

End SumFacts.

(** ** Equity across a rebalance *)

Section Equity.
Import Portfolio Valuation.

Lemma market_value_acc (p : Dict.t holding) (a : Q) :
  fold_left
    (fun total (e : string * holding) =>
       total + inject_Z (totalAmount (snd e)) * last_price (snd e))
    p a
  == a + market_value_of p.
Proof.
  unfold market_value_of. revert a. induction p as [|e p IH]; intro a.
  - cbn [fold_left]. ring.
  - cbn [fold_left]. rewrite (IH (a + _)), (IH (0 + _)). ring.
Qed.

Lemma market_value_reprice (prices : Dict.t Q) (p : Dict.t holding) :
  market_value_of (reprice prices p) == valuation prices p.
Proof.
  induction p as [|[t h] p IH].
  - reflexivity.
  - unfold valuation. cbn [map]. rewrite Qsum_cons.
    fold (valuation prices p). rewrite <- IH.
    unfold market_value_of at 1. cbn [reprice map fold_left].
    rewrite market_value_acc. fold (reprice prices p).
    unfold entry_value, priced_at, Dict.get_default. cbn [fst snd].
    destruct (Dict.get prices t); cbn [fst snd totalAmount last_price]; ring.
Qed.

Lemma equity_at_valuation (s : snapshot) (prices : Dict.t Q) :
  equity_at s prices == valuation prices (portfolio s) + cash s.
Proof.
  unfold equity_at, compute_market_value.
  cbn [portfolio update_snapshot_prices ledger].
  now rewrite market_value_reprice.
Qed.

Lemma valuation_app (prices : Dict.t Q) (p q : Dict.t holding) :
  valuation prices (p ++ q) == valuation prices p + valuation prices q.
Proof.
  unfold valuation. rewrite map_app. apply Qsum_app.
Qed.

Lemma valuation_set_absent (prices : Dict.t Q) (p : Dict.t holding)
  (t : string) (h : holding) :
  ~ In t (Dict.keys p) ->
  valuation prices (Dict.set p t h)
  == valuation prices p + entry_value prices (t, h).
Proof.
  intro H. rewrite (set_absent p t h H), valuation_app.
  unfold valuation at 2. cbn [map]. rewrite Qsum_cons, Qsum_nil. ring.
Qed.

Lemma valuation_reprice (prices : Dict.t Q) (p : Dict.t holding) :
  valuation prices (reprice prices p) == valuation prices p.
Proof.
  rewrite <- (market_value_reprice prices (reprice prices p)), reprice_idem.
  apply market_value_reprice.
Qed.

(** A price read as positive is the price of the map. *)
Lemma positive_price_is_listed (prices : Dict.t Q) (t : string) (dflt : Q) :
  0 < Dict.get_default prices t 0 ->
  Dict.get_default prices t dflt = Dict.get_default prices t 0.
Proof.
  unfold Dict.get_default. destruct (Dict.get prices t); [reflexivity|].
  intro H. exfalso. exact (Qlt_irrefl 0 H).
Qed.

(** *** The loop of [apply_target_weights] *)

Lemma atw_target_qty_nonneg (td px : Q) :
  0 <= td -> 0 < px -> (0 <= atw_target_qty td px)%Z.
Proof.
  intros Htd Hpx. unfold atw_target_qty, py_floordiv. rewrite py_int_inject.
  apply Qfloor_nonneg. apply Qle_shift_div_l; [exact Hpx | lra].
Qed.

Lemma atw_step_equity (portfolio_prev : Dict.t holding) (prices : Dict.t Q)
  (st : atw_state) (e : string * Q) :
  ~ In (fst e) (Dict.keys (atw_portfolio st)) ->
  0 <= snd e ->
  valuation prices (atw_portfolio (atw_step portfolio_prev prices st e))
  + atw_cash (atw_step portfolio_prev prices st e)
  == valuation prices (atw_portfolio st) + atw_cash st
     + carried_value portfolio_prev prices (fst e).
Proof.
  intros Hfresh Htd. destruct e as [t td]. cbn [fst snd] in *.
  unfold atw_step, carried_value. cbn [fst snd].
  destruct (Qle_bool (Dict.get_default prices t 0) 0) eqn:Epx.
  - destruct (0 <? qty_of (Dict.get portfolio_prev t))%Z eqn:Eq.
    + cbn [atw_portfolio atw_cash].
      rewrite (valuation_set_absent _ _ _ _ Hfresh).
      apply Qle_bool_iff in Epx. apply Qltb_false in Epx. rewrite Epx.
      unfold entry_value, priced_at. cbn [fst snd totalAmount last_price]. ring.
    + ring.
  - apply Qle_bool_false in Epx.
    pose proof (atw_target_qty_nonneg td _ Htd Epx) as Htq.
    cbn [atw_portfolio atw_cash].
    destruct (0 <? atw_target_qty td (Dict.get_default prices t 0%Q))%Z eqn:Et.
    + rewrite (valuation_set_absent _ _ _ _ Hfresh).
      unfold entry_value, priced_at. cbn [fst snd totalAmount last_price].
      rewrite (positive_price_is_listed prices t
                 (Dict.get_default prices t 0) Epx).
      rewrite inject_Z_sub. ring.
    + apply Z.ltb_ge in Et.
      assert (Hz : atw_target_qty td (Dict.get_default prices t 0) = 0%Z) by lia.
      rewrite Hz, inject_Z_sub. change (inject_Z 0) with 0. ring.
Qed.

Lemma atw_step_keys (portfolio_prev : Dict.t holding) (prices : Dict.t Q)
  (st : atw_state) (e : string * Q) (k : string) :
  In k (Dict.keys (atw_portfolio (atw_step portfolio_prev prices st e))) ->
  In k (Dict.keys (atw_portfolio st)) \/ k = fst e.
Proof.
  unfold atw_step.
  destruct (Qle_bool (Dict.get_default prices (fst e) 0) 0).
  - destruct (0 <? qty_of (Dict.get portfolio_prev (fst e)))%Z; [|tauto].
    cbn [atw_portfolio]. rewrite keys_set. tauto.
  - cbn [atw_portfolio].
    destruct (0 <? atw_target_qty (snd e) (Dict.get_default prices (fst e) 0%Q))%Z;
      [|tauto].
    rewrite keys_set. tauto.
Qed.

Lemma atw_step_keys_mono (portfolio_prev : Dict.t holding) (prices : Dict.t Q)
  (st : atw_state) (e : string * Q) (k : string) :
  In k (Dict.keys (atw_portfolio st)) ->
  In k (Dict.keys (atw_portfolio (atw_step portfolio_prev prices st e))).
Proof.
  intro H. unfold atw_step.
  destruct (Qle_bool (Dict.get_default prices (fst e) 0) 0).
  - destruct (0 <? qty_of (Dict.get portfolio_prev (fst e)))%Z; [|exact H].
    cbn [atw_portfolio]. rewrite keys_set. now right.
  - cbn [atw_portfolio].
    destruct (0 <? atw_target_qty (snd e) (Dict.get_default prices (fst e) 0%Q))%Z;
      [|exact H].
    rewrite keys_set. now right.
Qed.

Lemma atw_step_carries (portfolio_prev : Dict.t holding) (prices : Dict.t Q)
  (st : atw_state) (e : string * Q) :
  Dict.get_default prices (fst e) 0 <= 0 ->
  (0 < qty_of (Dict.get portfolio_prev (fst e)))%Z ->
  In (fst e) (Dict.keys (atw_portfolio (atw_step portfolio_prev prices st e))).
Proof.
  intros Hpx Hq. unfold atw_step.
  apply Qle_bool_iff in Hpx. rewrite Hpx.
  apply Z.ltb_lt in Hq. rewrite Hq.
  cbn [atw_portfolio]. rewrite keys_set. now left.
Qed.

Lemma atw_loop_keys_mono (portfolio_prev : Dict.t holding) (prices : Dict.t Q)
  (l : list (string * Q)) (st : atw_state) (k : string) :
  In k (Dict.keys (atw_portfolio st)) ->
  In k (Dict.keys
          (atw_portfolio (fold_left (atw_step portfolio_prev prices) l st))).
Proof.
  revert st. induction l as [|e l IH]; intros st H; cbn [fold_left]; [exact H|].
  apply IH. now apply atw_step_keys_mono.
Qed.

Lemma atw_loop_equity (portfolio_prev : Dict.t holding) (prices : Dict.t Q)
  (l : list (string * Q)) (st : atw_state) :
  NoDup (map fst l) ->
  (forall k, In k (Dict.keys (atw_portfolio st)) -> ~ In k (map fst l)) ->
  Forall (fun e => 0 <= snd e) l ->
  let st' := fold_left (atw_step portfolio_prev prices) l st in
  valuation prices (atw_portfolio st') + atw_cash st'
  == valuation prices (atw_portfolio st) + atw_cash st
     + Qsum (map (carried_value portfolio_prev prices) (map fst l))
  /\ (forall k, In k (Dict.keys (atw_portfolio st')) ->
                In k (Dict.keys (atw_portfolio st)) \/ In k (map fst l))
  /\ (forall t, In t (map fst l) ->
                Dict.get_default prices t 0 <= 0 ->
                (0 < qty_of (Dict.get portfolio_prev t))%Z ->
                In t (Dict.keys (atw_portfolio st'))).
Proof.
  revert st. induction l as [|e l IH]; intros st Hnd Hfresh Htd; cbn zeta.
  - cbn [fold_left map]. rewrite Qsum_nil. repeat split.
    + ring.
    + tauto.
    + intros t [].
  - cbn [fold_left map] in *.
    apply NoDup_cons_iff in Hnd. destruct Hnd as [Hnotin Hnd].
    inversion Htd as [|? ? He Htd']; subst.
    assert (Hfresh' :
      forall k,
        In k (Dict.keys (atw_portfolio (atw_step portfolio_prev prices st e))) ->
        ~ In k (map fst l)).
    { intros k Hk Hin. apply atw_step_keys in Hk. destruct Hk as [Hk | ->].
      - apply (Hfresh k Hk). now right.
      - contradiction. }
    destruct (IH (atw_step portfolio_prev prices st e) Hnd Hfresh' Htd')
      as [Heq [Hkeys Hcar]].
    repeat split.
    + rewrite Heq, Qsum_cons, atw_step_equity; [ring | | exact He].
      intro Hk. apply (Hfresh _ Hk). now left.
    + intros k Hk. apply Hkeys in Hk.
      destruct Hk as [Hk | Hk]; [|right; now right].
      apply atw_step_keys in Hk.
      destruct Hk as [Hk | ->]; [now left | right; now left].
    + intros t [<- | Ht] Hpx Hq.
      * apply atw_loop_keys_mono. now apply atw_step_carries.
      * now apply Hcar.
Qed.

(** Under the long-only invariant the value carried by the loop for a
    ticker is the pre-trade value of its holding. *)
Lemma carried_value_entry (portfolio_prev : Dict.t holding) (prices : Dict.t Q)
  (t : string) :
  long_only portfolio_prev ->
  carried_value portfolio_prev prices t
  == match Dict.get portfolio_prev t with
     | Some h => entry_value prices (t, h)
     | None => 0
     end.
Proof.
  intro Hlo. pose proof (long_only_qty portfolio_prev t Hlo) as Hq.
  unfold carried_value, entry_value, priced_at. cbn [fst snd].
  destruct (Qle_bool (Dict.get_default prices t 0) 0) eqn:Epx.
  - destruct (Dict.get portfolio_prev t) as [h|]; cbn [qty_of last_price_of] in *.
    + destruct (0 <? totalAmount h)%Z eqn:Eq; [reflexivity|].
      apply Z.ltb_ge in Eq. assert (Hz : totalAmount h = 0%Z) by lia.
      rewrite Hz. change (inject_Z 0) with 0. ring.
    + reflexivity.
  - apply Qle_bool_false in Epx.
    destruct (Dict.get portfolio_prev t) as [h|]; cbn [qty_of].
    + rewrite (positive_price_is_listed prices t (last_price h) Epx).
      reflexivity.
    + change (inject_Z 0) with 0. ring.
Qed.

(** *** The loop that keeps the tickers not priced today *)

Lemma kept_value_frame (prices : Dict.t Q) (np : Dict.t holding)
  (t : string) (h : holding) (e : string * holding) :
  fst e <> t -> kept_value prices (Dict.set np t h) e = kept_value prices np e.
Proof.
  intro Hne. unfold kept_value, Dict.mem. now rewrite get_set_other.
Qed.

Lemma mem_false_notin {V : Type} (d : Dict.t V) (k : string) :
  Dict.mem d k = false <-> ~ In k (Dict.keys d).
Proof.
  unfold Dict.mem. rewrite <- get_none_notin.
  destruct (Dict.get d k); split; congruence.
Qed.

Lemma atw_keep_unpriced_valuation (prices : Dict.t Q)
  (l : list (string * holding)) (np : Dict.t holding) :
  NoDup (map fst l) ->
  valuation prices (fold_left (atw_keep_unpriced prices) l np)
  == valuation prices np + Qsum (map (kept_value prices np) l).
Proof.
  revert np. induction l as [|[t h] l IH]; intros np Hnd;
    cbn [fold_left map fst] in *.
  - rewrite Qsum_nil. ring.
  - apply NoDup_cons_iff in Hnd. destruct Hnd as [Hnotin Hnd].
    rewrite (IH _ Hnd), Qsum_cons.
    unfold atw_keep_unpriced, kept_value at 2. cbn [fst snd].
    destruct (negb (Dict.mem np t) && negb (Dict.mem prices t)) eqn:E.
    + apply andb_true_iff in E. destruct E as [E _].
      apply negb_true_iff, mem_false_notin in E.
      rewrite (valuation_set_absent _ _ _ _ E).
      rewrite (Qsum_map_ext_in
                 (kept_value prices
                    (Dict.set np t
                       (mkHolding (totalAmount h) (last_price h) (entry_price h))))
                 (kept_value prices np) l).
      * unfold entry_value, priced_at. cbn [fst snd totalAmount last_price]. ring.
      * intros e He. rewrite kept_value_frame; [reflexivity|].
        intro Heq. apply Hnotin. rewrite <- Heq. now apply in_map.
    + ring.
Qed.

(** *** The full rebalance conserves equity *)

Lemma atw_target_dollars_nonneg (total_equity : Q) (ws : list Q) :
  0 <= total_equity -> Forall (Qle 0) (atw_target_dollars total_equity ws).
Proof.
  intro H. unfold atw_target_dollars. apply Forall_forall. intros td Htd.
  apply in_map_iff in Htd. destruct Htd as [w [<- _]].
  apply Qmult_le_0_compat; [apply py_max_lower | exact H].
Qed.

Lemma apply_target_weights_equity (s : snapshot) (tickers : list string)
  (prices : Dict.t Q) (ws : list Q) :
  Dict.wf (portfolio s) ->
  long_only (portfolio s) ->
  0 <= equity_at s prices ->
  NoDup tickers ->
  (List.length tickers <= List.length ws)%nat ->
  (forall t, In t (Dict.keys (portfolio s)) -> Dict.mem prices t = true ->
             In t tickers) ->
  equity_at (fst (apply_target_weights s tickers prices ws)) prices
  == equity_at s prices.
Proof.
  intros Hwf Hlo Heq0 Hnd Hlen Hcover.
  rewrite !equity_at_valuation. unfold apply_target_weights.
  cbn [fst portfolio cash update_snapshot_prices ledger].
  rewrite valuation_reprice.
  set (tds := atw_target_dollars (equity_at s prices) ws).
  set (l := combine tickers tds).
  assert (Hfst : map fst l = tickers).
  { subst l tds. apply combine_fst_covers.
    unfold atw_target_dollars. now rewrite length_map. }
  assert (Htds : Forall (fun e : string * Q => 0 <= snd e) l).
  { apply Forall_forall. intros [t td] He. cbn [snd].
    apply in_combine_r in He.
    pose proof (atw_target_dollars_nonneg _ ws Heq0) as Hall.
    rewrite Forall_forall in Hall. now apply Hall. }
  destruct (atw_loop_equity (portfolio s) prices l (mkAtw [] [] (cash s)))
    as [Hloop [Hkeys Hcar]]; [now rewrite Hfst | intros k [] | exact Htds |].
  cbn [atw_portfolio atw_cash] in Hloop, Hkeys.
  set (st' := fold_left (atw_step (portfolio s) prices) l (mkAtw [] [] (cash s)))
    in *.
  rewrite Hfst in Hloop, Hkeys, Hcar.
  rewrite (atw_keep_unpriced_valuation prices (portfolio s) (atw_portfolio st') Hwf).
  assert (Hsum :
    Qsum (map (carried_value (portfolio s) prices) tickers)
    == Qsum (map (fun e => if in_dec string_dec (fst e) tickers
                           then entry_value prices e else 0) (portfolio s))).
  { rewrite <- (Qsum_by_ticker (entry_value prices) (portfolio s) tickers Hwf Hnd).
    apply Qsum_map_ext_in. intros t _. now apply carried_value_entry. }
  assert (Hpoint :
    Qsum (map (fun e => (if in_dec string_dec (fst e) tickers
                         then entry_value prices e else 0)
                        + kept_value prices (atw_portfolio st') e) (portfolio s))
    == valuation prices (portfolio s)).
  { unfold valuation. apply Qsum_map_ext_in. intros [t h] He. cbn [fst].
    assert (Hkey : In t (Dict.keys (portfolio s))).
    { unfold Dict.keys. change t with (fst (t, h)). now apply in_map. }
    unfold kept_value. cbn [fst].
    destruct (Dict.mem prices t) eqn:Epr.
    - rewrite andb_false_r.
      destruct (in_dec string_dec t tickers) as [_ | Hout]; [ring|].
      exfalso. apply Hout. now apply Hcover.
    - rewrite andb_true_r.
      destruct (in_dec string_dec t tickers) as [Hin | Hout].
      + destruct (Dict.mem (atw_portfolio st') t) eqn:Enp; cbn [negb]; [ring|].
        apply mem_false_notin in Enp.
        assert (Hpx : Dict.get_default prices t 0 <= 0).
        { unfold Dict.get_default. unfold Dict.mem in Epr.
          destruct (Dict.get prices t); [discriminate | apply Qle_refl]. }
        assert (Hq : ~ (0 < qty_of (Dict.get (portfolio s) t))%Z).
        { intro Hq. apply Enp. now apply Hcar. }
        rewrite (in_wf_get (portfolio s) t h Hwf He) in Hq. cbn [qty_of] in Hq.
        pose proof (values_get _ (portfolio s) t h Hlo
                      (in_wf_get (portfolio s) t h Hwf He)) as Hge.
        cbv beta in Hge.
        assert (Hz : totalAmount h = 0%Z) by lia.
        unfold entry_value. cbn [fst snd]. rewrite Hz.
        change (inject_Z 0) with 0. ring.
      + assert (Enp : Dict.mem (atw_portfolio st') t = false).
        { apply mem_false_notin. intro Hk. apply Hkeys in Hk.
          destruct Hk as [[] | Hk]. contradiction. }
        rewrite Enp. cbn [negb]. ring. }
  rewrite Qsum_map_plus in Hpoint. rewrite <- Hsum in Hpoint.
  unfold valuation in *. cbn [map] in Hloop. rewrite Qsum_nil in Hloop.
  lra.
Qed.

(** *** The equity guard of the partial rebalance *)

Lemma equity_guard_equity (e0 : Q) (np : Dict.t holding) (c : Q)
  (prices : Dict.t Q) :
  Qabs
    (equity_at
       (equity_guard e0 (update_snapshot_prices (ledger np c) prices) prices)
       prices
     - e0)
  <= 1 # 1000000.
Proof.
  unfold equity_guard, compute_market_value.
  cbn [portfolio cash update_snapshot_prices ledger].
  destruct (Qltb (1 # 1000000)
              (Qabs (e0 - (market_value_of (reprice prices np) + c)))) eqn:E.
  - rewrite equity_at_valuation.
    cbn [portfolio cash update_snapshot_prices].
    rewrite reprice_idem, valuation_reprice, market_value_reprice.
    setoid_replace
      (valuation prices np + (c + (e0 - (valuation prices np + c))) - e0)
      with 0 by ring.
    simpl. discriminate.
  - apply Qltb_false in E. rewrite equity_at_valuation.
    cbn [portfolio cash update_snapshot_prices ledger].
    rewrite valuation_reprice. rewrite market_value_reprice in E.
    setoid_replace (valuation prices np + c - e0)
      with (- (e0 - (valuation prices np + c))) by ring.
    now rewrite Qabs_opp.
Qed.

Lemma apply_partial_target_weights_equity (s : snapshot) (prices : Dict.t Q)
  (w : Dict.t Q) :
  Qabs
    (equity_at (fst (apply_partial_target_weights s prices w)) prices
     - equity_at s prices)
  <= 1 # 1000000.
Proof.
  unfold apply_partial_target_weights. cbv zeta. cbn [fst].
  change (plan_initial_equity (partial_plan_of s prices w))
    with (equity_at s prices).
  apply equity_guard_equity.
Qed.

(** Where the rebalancers conserve total equity,
    [cash + sum(quantity * price)] valued with the same price map before
    and after.  [apply_partial_target_weights] changes it by at most
    [1e-6], in absolute value, for every snapshot, price map and subset
    weights: its equity guard moves any larger difference into cash.
    [apply_target_weights] leaves it unchanged when the snapshot is
    long-only with a non-negative pre-trade equity and the ticker list is
    full: duplicate-free, one weight per ticker, and containing every
    holding priced today. *)
Theorem rebalance_preserves_equity :
  forall (s : snapshot) (prices : Dict.t Q),
    (forall w : Dict.t Q,
        Qabs
          (equity_at (fst (apply_partial_target_weights s prices w)) prices
           - equity_at s prices)
        <= 1 # 1000000)
    /\ (forall (tickers : list string) (target_weights : list Q),
           Dict.wf (portfolio s) ->
           long_only (portfolio s) ->
           0 <= equity_at s prices ->
           NoDup tickers ->
           (List.length tickers <= List.length target_weights)%nat ->
           (forall t, In t (Dict.keys (portfolio s)) ->
                      Dict.mem prices t = true -> In t tickers) ->
           equity_at (fst (apply_target_weights s tickers prices target_weights))
             prices
           == equity_at s prices).
Proof.
  intros s prices. split.
  - intro w. apply apply_partial_target_weights_equity.
  - intros. now apply apply_target_weights_equity.
Qed.

(** C1. [apply_target_weights] manufactures value on a snapshot in debt.
    With nothing held and cash -1000, a weight of 1 on a ticker priced at
    10 gives a target of -100 shares: the cash is credited with 1000 for
    shares never held, the trade [(A, 0, -100)] is booked and no holding
    is written, so total equity at the same prices moves from -1000 to 0,
    beyond [1e-6] both in absolute value and relative to the pre-trade
    equity.  The sibling [apply_partial_target_weights] returns the same
    input with its equity unchanged, as its equity guard does on every
    input. *)
Theorem full_rebalance_equity_jump :
  let prices : Dict.t Q := [("A"%string, 10)] in
  let full :=
    apply_target_weights Scenario.indebted_snapshot ["A"%string] prices [1] in
  let s' := fst full in
  equity_at Scenario.indebted_snapshot prices == - (1000)
  /\ equity_at s' prices == 0
  /\ ~ Qabs (equity_at s' prices - equity_at Scenario.indebted_snapshot prices)
       <= 1 # 1000000
  /\ ~ Qabs (equity_at s' prices - equity_at Scenario.indebted_snapshot prices)
       <= (1 # 1000000) * Qabs (equity_at Scenario.indebted_snapshot prices)
  /\ portfolio s' = []
  /\ cash s' == 0
  /\ snd full = [("A"%string, 0%Z, (- (100))%Z)]
  /\ equity_at
       (fst (apply_partial_target_weights Scenario.indebted_snapshot prices
               [("A"%string, 1)])) prices
     == - (1000)
  /\ (forall (s : snapshot) (any_prices : Dict.t Q) (w : Dict.t Q),
         Qabs
           (equity_at (fst (apply_partial_target_weights s any_prices w))
              any_prices
            - equity_at s any_prices)
         <= 1 # 1000000).
Proof.
  cbv zeta.
  split; [vm_compute; reflexivity|].
  split; [vm_compute; reflexivity|].
  split; [vm_compute; congruence|].
  split; [vm_compute; congruence|].
  split; [vm_compute; reflexivity|].
  split; [vm_compute; reflexivity|].
  split; [vm_compute; reflexivity|].
  split; [vm_compute; reflexivity|].
  intros s any_prices w. apply apply_partial_target_weights_equity.
Qed.

(** The guard of the partial rebalance is an absolute threshold: one
    share worth [1e-6], sold down on paper, doubles the equity of a
    snapshot worth [1e-6] and stays within it. *)
Lemma partial_rebalance_small_drift :
  let s := ledger [("A"%string, mkHolding 1 (1 # 1000000) (1 # 1000000))] 0 in
  let prices : Dict.t Q := [("A"%string, 1 # 1000000)] in
  let s' := fst (apply_partial_target_weights s prices [("A"%string, 0)]) in
  equity_at s prices == 1 # 1000000
  /\ equity_at s' prices == 2 # 1000000
  /\ ~ Qabs (equity_at s' prices - equity_at s prices)
       <= (1 # 1000000) * Qabs (equity_at s prices).
Proof.
  cbv zeta. repeat split; vm_compute; congruence.
Qed.

End Equity.

(** ** The theorems at concrete portfolios *)

Section Witnesses.
Import Portfolio Pipeline.

Lemma capped_snapshot_wf : Dict.wf (portfolio Scenario.capped_snapshot).
Proof.
  unfold Dict.wf. simpl. repeat constructor; simpl; intuition discriminate.
Defined.

Lemma capped_snapshot_long_only : long_only (portfolio Scenario.capped_snapshot).
Proof.
  unfold long_only. simpl. repeat constructor; simpl; lia.
Defined.

Lemma rebalance_preserves_equity_witness :
  let s := Scenario.capped_snapshot in
  let prices := Scenario.capped_prices in
  let tickers := ["Z"; "C"; "A"; "B"]%string in
  let weights := [1 # 2; 0; 1 # 4; 1 # 4] in
  0 <= equity_at s prices
  /\ NoDup tickers
  /\ equity_at (fst (apply_target_weights s tickers prices weights)) prices
     == equity_at s prices.
Proof.
  cbv zeta.
  assert (Heq : 0 <= equity_at Scenario.capped_snapshot Scenario.capped_prices)
    by (vm_compute; discriminate).
  assert (Hnd : NoDup ["Z"; "C"; "A"; "B"]%string)
    by (repeat constructor; simpl; intuition discriminate).
  split; [exact Heq|]. split; [exact Hnd|].
  apply (proj2 (rebalance_preserves_equity Scenario.capped_snapshot
                  Scenario.capped_prices)
           ["Z"; "C"; "A"; "B"]%string [1 # 2; 0; 1 # 4; 1 # 4]
           capped_snapshot_wf capped_snapshot_long_only Heq Hnd).
  - simpl. lia.
  - simpl. intros t [<- | [<- | []]] _; simpl; auto.
Defined.

Lemma rebalance_no_short_witness :
  long_only
    (portfolio
       (fst (apply_partial_target_weights Scenario.capped_snapshot
               Scenario.capped_prices Scenario.capped_weights)))
  /\ long_only
       (portfolio
          (fst (apply_target_weights Scenario.capped_snapshot
                  ["Z"; "C"; "A"; "B"]%string Scenario.capped_prices
                  [1 # 2; - (1 # 4); 1 # 4; 1 # 4]))).
Proof.
  pose proof (rebalance_no_short Scenario.capped_snapshot Scenario.capped_prices
                capped_snapshot_wf capped_snapshot_long_only)
    as [Hfull [Hpartial _]].
  split; [apply Hpartial | apply Hfull].
Defined.


Lemma partial_rebalance_frame_witness :
  let s := Scenario.capped_snapshot in
  let s' :=
    fst (apply_partial_target_weights s Scenario.capped_prices
           Scenario.capped_weights) in
  0 <= buy_cash
         (plan_after_buys
            (partial_plan_of s Scenario.capped_prices Scenario.capped_weights))
  /\ option_map totalAmount (Dict.get (portfolio s') "Z")
     = option_map totalAmount (Dict.get (portfolio s) "Z")
  /\ option_map entry_price (Dict.get (portfolio s') "Z")
     = option_map entry_price (Dict.get (portfolio s) "Z").
Proof.
  cbv zeta.
  assert (Hc : 0 <= buy_cash
                      (plan_after_buys
                         (partial_plan_of Scenario.capped_snapshot
                            Scenario.capped_prices Scenario.capped_weights)))
    by (vm_compute; discriminate).
  assert (Hout : ~ In "Z"%string (Dict.keys Scenario.capped_weights))
    by (simpl; intuition discriminate).
  split; [exact Hc|].
  destruct (partial_rebalance_frame Scenario.capped_snapshot
              Scenario.capped_prices Scenario.capped_weights "Z" Hc Hout)
    as [Hq [He _]].
  split; assumption.
Defined.

Lemma size_positions_decision_override_witness :
  exists trades tr,
    size_positions ["AAPL"%string] [6 # 10] [("AAPL", "SELL")%string]
      [("AAPL"%string, mkHolding 10 100 90)] 1000 [("AAPL"%string, 110)] 1
    = Some trades
    /\ Dict.get trades "AAPL" = Some tr
    /\ target_qty tr = 0%Z
    /\ delta_shares tr = (- 10)%Z.
Proof.
  assert (Hlen : (List.length ["AAPL"%string] <= List.length [6 # 10])%nat)
    by (simpl; lia).
  assert (Hin : In "AAPL"%string ["AAPL"%string]) by (simpl; auto).
  assert (Hpx : 0 < Dict.get_default [("AAPL"%string, 110)] "AAPL" 0)
    by reflexivity.
  destruct (size_positions_decision_override ["AAPL"%string] [6 # 10]
              [("AAPL", "SELL")%string] [("AAPL"%string, mkHolding 10 100 90)]
              1000 [("AAPL"%string, 110)] 1 "AAPL" Hlen Hin Hpx)
    as [trades [tr [Hrun [Hget [Hcur [_ [Hsell _]]]]]]].
  exists trades, tr. split; [exact Hrun|]. split; [exact Hget|].
  destruct (Hsell eq_refl) as [Htq Hdelta].
  split; [exact Htq|]. rewrite Hdelta, Hcur. reflexivity.
Defined.

End Witnesses.

(* ================================================================== *)
(** * Part III: further properties of the engine                       *)
(* ================================================================== *)

(** ** Repricing a snapshot *)

Section Revaluation.
Import Portfolio.

Lemma reprice_same_keys (prices : Dict.t Q) (p : Dict.t holding) :
  Dict.keys (reprice prices p) = Dict.keys p.
Proof.
  unfold Dict.keys, reprice. rewrite map_map. apply map_ext.
  intros [t h]. cbn [fst]. now destruct (Dict.get prices t).
Qed.

Lemma wf_reprice (prices : Dict.t Q) (p : Dict.t holding) :
  Dict.wf p -> Dict.wf (reprice prices p).
Proof.
  unfold Dict.wf. now rewrite reprice_same_keys.
Qed.

Lemma update_snapshot_prices_idem (s : snapshot) (prices : Dict.t Q) :
  update_snapshot_prices (update_snapshot_prices s prices) prices
  = update_snapshot_prices s prices.
Proof.
  unfold update_snapshot_prices. cbn [portfolio cash].
  now rewrite reprice_idem.
Qed.

(** X1. [update_snapshot_prices] is idempotent; it keeps the tickers, the
    cash and, ticker by ticker, the quantity and the entry price; a holding
    takes today's price when the map has one and keeps its last price
    otherwise; the four aggregates it writes are consistent with the
    repriced holdings: [net_liquidation = portfolio_value = buying_power =
    market value + cash] and [liquid = cash]. *)
Theorem update_snapshot_prices_revalues :
  forall (s : snapshot) (prices : Dict.t Q),
    let s' := update_snapshot_prices s prices in
    update_snapshot_prices s' prices = s'
    /\ Dict.keys (portfolio s') = Dict.keys (portfolio s)
    /\ cash s' = cash s
    /\ (forall t,
           Dict.get (portfolio s') t
           = option_map
               (fun h => mkHolding (totalAmount h) (priced_at prices t h)
                           (entry_price h))
               (Dict.get (portfolio s) t))
    /\ net_liquidation s' = Some (compute_market_value s' + cash s')
    /\ portfolio_value s' = net_liquidation s'
    /\ buying_power s' = net_liquidation s'
    /\ liquid s' = Some (cash s').
Proof.
  intros s prices. cbv zeta. split; [apply update_snapshot_prices_idem|].
  split; [apply reprice_same_keys|]. split; [reflexivity|].
  split; [intro t; apply reprice_get|].
  repeat split.
Qed.

(** With cash [>= 0] the correction is the repricing. *)
Lemma force_cash_non_negative_solvent (s : snapshot) (prices : Dict.t Q) :
  0 <= cash s ->
  force_cash_non_negative s prices = update_snapshot_prices s prices.
Proof.
  intro H. unfold force_cash_non_negative.
  apply Qle_bool_iff in H. now rewrite H.
Qed.

(** X2. On a revaluation-only day that starts with cash [>= 0] the
    snapshot written is the repriced snapshot: cash and, for every ticker,
    quantity and entry price are untouched, and [last_price] is today's
    price where there is one. *)
Theorem revaluation_day_frame :
  forall (s : snapshot) (prices : Dict.t Q) (t : string),
    0 <= cash s ->
    let s' := emit_revaluation s prices in
    s' = update_snapshot_prices s prices
    /\ cash s' = cash s
    /\ option_map totalAmount (Dict.get (portfolio s') t)
       = option_map totalAmount (Dict.get (portfolio s) t)
    /\ option_map entry_price (Dict.get (portfolio s') t)
       = option_map entry_price (Dict.get (portfolio s) t)
    /\ option_map last_price (Dict.get (portfolio s') t)
       = option_map (priced_at prices t) (Dict.get (portfolio s) t).
Proof.
  intros s prices t Hc. cbv zeta.
  assert (Heq : emit_revaluation s prices = update_snapshot_prices s prices).
  { unfold emit_revaluation.
    rewrite force_cash_non_negative_solvent by exact Hc.
    apply update_snapshot_prices_idem. }
  rewrite Heq. split; [reflexivity|]. split; [reflexivity|].
  cbn [portfolio update_snapshot_prices]. rewrite reprice_get.
  destruct (Dict.get (portfolio s) t); cbn [option_map]; auto.
Qed.

Lemma revaluation_day_frame_witness :
  let s := Scenario.capped_snapshot in
  let prices : Dict.t Q := [("Z"%string, 120)] in
  0 <= cash s
  /\ option_map totalAmount (Dict.get (portfolio (emit_revaluation s prices)) "Z")
     = Some 900%Z
  /\ option_map last_price (Dict.get (portfolio (emit_revaluation s prices)) "Z")
     = Some 120.
Proof.
  cbv zeta.
  assert (Hc : 0 <= cash Scenario.capped_snapshot) by (vm_compute; discriminate).
  split; [exact Hc|].
  destruct (revaluation_day_frame Scenario.capped_snapshot [("Z"%string, 120)]
              "Z" Hc) as [_ [_ [Hq [_ Hp]]]].
  split; [exact Hq | exact Hp].
Defined.

(** X3. [force_cash_non_negative] is idempotent: correcting a corrected
    snapshot at the same prices changes nothing. *)
Theorem force_cash_non_negative_idem :
  forall (s : snapshot) (prices : Dict.t Q),
    force_cash_non_negative (force_cash_non_negative s prices) prices
    = force_cash_non_negative s prices.
Proof.
  intros s prices.
  rewrite (force_cash_non_negative_solvent (force_cash_non_negative s prices))
    by apply force_cash_non_negative_cash.
  unfold force_cash_non_negative.
  destruct (Qle_bool 0 (cash s)); apply update_snapshot_prices_idem.
Qed.

End Revaluation.

(** ** Market weights of the holdings *)

Section HoldingWeights.
Import Portfolio Valuation PortfolioWeights.

Lemma market_value_sum (p : Dict.t holding) :
  market_value_of p
  == Qsum (map (fun e : string * holding =>
                  inject_Z (totalAmount (snd e)) * last_price (snd e)) p).
Proof.
  induction p as [|e p IH].
  - reflexivity.
  - cbn [map]. rewrite Qsum_cons, <- IH.
    unfold market_value_of at 1. cbn [fold_left].
    rewrite market_value_acc. ring.
Qed.

Lemma holdings_to_weights_length (s : snapshot) (tickers : list string) :
  List.length (holdings_to_weights s tickers) = List.length tickers.
Proof.
  unfold holdings_to_weights.
  destruct (Qle_bool (compute_market_value s) 0); apply length_map.
Qed.

Lemma holdings_to_weights_total (s : snapshot) (tickers : list string) :
  0 < compute_market_value s ->
  Dict.wf (portfolio s) ->
  NoDup tickers ->
  (forall t, In t (Dict.keys (portfolio s)) -> In t tickers) ->
  Qsum (holdings_to_weights s tickers) == 1.
Proof.
  intros Hpos Hwf Hnd Hcover. unfold holdings_to_weights.
  pose proof Hpos as Hb. apply Qle_bool_false in Hb. rewrite Hb.
  pose proof Hpos as Hb'. apply Qltb_true in Hb'. rewrite Hb'.
  set (mv := compute_market_value s) in *.
  set (g := fun e : string * holding =>
              inject_Z (totalAmount (snd e)) * last_price (snd e) / mv).
  rewrite (Qsum_map_ext_in _
             (fun t => match Dict.get (portfolio s) t with
                       | Some h => g (t, h)
                       | None => 0
                       end)).
  2:{ intros t _. destruct (Dict.get (portfolio s) t) as [h|];
        cbn [qty_of last_price_of].
      - reflexivity.
      - change (inject_Z 0) with 0. unfold Qdiv. ring. }
  rewrite (Qsum_by_ticker g (portfolio s) tickers Hwf Hnd).
  rewrite (Qsum_map_ext_in _ g).
  2:{ intros [t h] He. cbn [fst].
      destruct (in_dec string_dec t tickers) as [_ | Hout]; [reflexivity|].
      exfalso. apply Hout, Hcover. unfold Dict.keys.
      change t with (fst (t, h)). now apply in_map. }
  unfold g.
  rewrite <- (map_map
                (fun e : string * holding =>
                   inject_Z (totalAmount (snd e)) * last_price (snd e))
                (fun x => x / mv)).
  rewrite Qsum_map_div, <- market_value_sum.
  fold (compute_market_value s). fold mv. field. lra.
Qed.

(** X4. [holdings_to_weights] returns one weight per listed ticker; all
    weights are 0 when the market value is not positive; with a positive
    market value, a duplicate-free ticker list that contains every holding
    gets weights that sum to 1. *)
Theorem holdings_to_weights_sum :
  forall (s : snapshot) (tickers : list string),
    List.length (holdings_to_weights s tickers) = List.length tickers
    /\ (compute_market_value s <= 0 ->
        holdings_to_weights s tickers = map (fun _ => 0) tickers)
    /\ (0 < compute_market_value s ->
        Dict.wf (portfolio s) ->
        NoDup tickers ->
        (forall t, In t (Dict.keys (portfolio s)) -> In t tickers) ->
        Qsum (holdings_to_weights s tickers) == 1).
Proof.
  intros s tickers. split; [apply holdings_to_weights_length|]. split.
  - intro H. unfold holdings_to_weights.
    apply Qle_bool_iff in H. now rewrite H.
  - apply holdings_to_weights_total.
Qed.

Lemma holdings_to_weights_sum_witness :
  Qsum (holdings_to_weights Scenario.capped_snapshot ["Z"; "C"; "A"]%string) == 1.
Proof.
  apply (proj2 (proj2 (holdings_to_weights_sum Scenario.capped_snapshot
                         ["Z"; "C"; "A"]%string))).
  - vm_compute. reflexivity.
  - apply capped_snapshot_wf.
  - repeat constructor; simpl; intuition discriminate.
  - simpl. intros t [<- | [<- | []]]; simpl; auto.
Defined.

End HoldingWeights.

(** ** Value through the cash correction *)

Section ForcedSales.
Import Portfolio Valuation PortfolioWeights.

Lemma Qsum_perm (l l' : list Q) : Permutation l l' -> Qsum l == Qsum l'.
Proof.
  induction 1 as [|x l l' _ IH|x y l|l l' l'' _ IH1 _ IH2].
  - reflexivity.
  - rewrite !Qsum_cons, IH. reflexivity.
  - rewrite !Qsum_cons. ring.
  - now rewrite IH1.
Qed.

Lemma valuation_set_present (prices : Dict.t Q) (p : Dict.t holding)
  (t : string) (h0 h : holding) :
  Dict.get p t = Some h0 ->
  valuation prices (Dict.set p t h) + entry_value prices (t, h0)
  == valuation prices p + entry_value prices (t, h).
Proof.
  unfold valuation. induction p as [|[k v] p IH]; cbn [Dict.get Dict.set].
  - discriminate.
  - destruct (String.eqb t k) eqn:E; intro Hget.
    + apply String.eqb_eq in E. subst k. inversion Hget; subst v.
      cbn [map]. rewrite !Qsum_cons. ring.
    + cbn [map]. rewrite !Qsum_cons. specialize (IH Hget). lra.
Qed.

Lemma valuation_drop_flat (prices : Dict.t Q) (p : Dict.t holding) :
  long_only p -> valuation prices (drop_flat p) == valuation prices p.
Proof.
  unfold long_only, Dict.values, valuation, drop_flat.
  induction p as [|[t h] p IH]; cbn [map filter snd]; intro H.
  - reflexivity.
  - inversion H as [|? ? Hh Hp]; subst.
    destruct (0 <? totalAmount h)%Z eqn:E; cbn [map]; rewrite !Qsum_cons.
    + now rewrite (IH Hp).
    + rewrite (IH Hp). apply Z.ltb_ge in E.
      assert (Hz : totalAmount h = 0%Z) by lia.
      unfold entry_value. cbn [fst snd]. rewrite Hz.
      change (inject_Z 0) with 0. ring.
Qed.

Lemma sell_candidates_matching (prices : Dict.t Q) (p : Dict.t holding) :
  Dict.wf p -> matching prices (sell_candidates_of prices p) p.
Proof.
  intro Hwf. split.
  - exact (proj1 (sell_candidates_covered prices p Hwf)).
  - apply Forall_forall. intros c Hc. unfold sell_candidates_of in Hc.
    apply in_flat_map in Hc. destruct Hc as [[t h] [He Hc]]. cbn [fst snd] in Hc.
    destruct (totalAmount h <=? 0)%Z eqn:Eq; [contradiction|].
    destruct (Qle_bool (Dict.get_default prices t (last_price h)) 0) eqn:Ep;
      [contradiction|].
    destruct Hc as [<- | []]. cbn [sc_ticker sc_qty sc_px sc_mv].
    exists h. apply Z.leb_gt in Eq. apply Qle_bool_false in Ep.
    repeat split; auto. now apply in_wf_get.
Qed.

Lemma matching_perm (prices : Dict.t Q) (cands cands' : list sell_cand)
  (p : Dict.t holding) :
  Permutation cands cands' -> matching prices cands p -> matching prices cands' p.
Proof.
  intros Hperm [Hnd Hall]. split.
  - eapply Permutation_NoDup; [|exact Hnd]. now apply Permutation_map.
  - eapply Permutation_Forall; eassumption.
Qed.

Lemma matching_tail (prices : Dict.t Q) (c : sell_cand)
  (rest : list sell_cand) (p : Dict.t holding) (h : holding) :
  matching prices (c :: rest) p ->
  matching prices rest (Dict.set p (sc_ticker c) h).
Proof.
  intros [Hnd Hall]. cbn [map] in Hnd.
  apply NoDup_cons_iff in Hnd. destruct Hnd as [Hnotin Hnd].
  inversion Hall as [|? ? _ Hrest]; subst.
  split; [exact Hnd|].
  apply Forall_forall. intros c' Hc'.
  rewrite Forall_forall in Hrest. destruct (Hrest c' Hc') as [h' Hh'].
  exists h'. rewrite get_set_other; [exact Hh'|].
  intro Heq. apply Hnotin. rewrite <- Heq. now apply in_map.
Qed.

Lemma matching_skip (prices : Dict.t Q) (c : sell_cand)
  (rest : list sell_cand) (p : Dict.t holding) :
  matching prices (c :: rest) p -> matching prices rest p.
Proof.
  intros [Hnd Hall]. cbn [map] in Hnd.
  apply NoDup_cons_iff in Hnd. inversion Hall; subst. split; tauto.
Qed.

Lemma matching_covered (prices : Dict.t Q) (cands : list sell_cand)
  (p : Dict.t holding) :
  matching prices cands p -> covered cands p.
Proof.
  intros [Hnd Hall]. split; [exact Hnd|].
  eapply Forall_impl; [|exact Hall].
  intros c [h [Hget [Hq _]]]. rewrite Hget. cbn [qty_of]. lia.
Qed.

Lemma matching_values_nonneg (prices : Dict.t Q) (cands : list sell_cand)
  (p : Dict.t holding) :
  matching prices cands p -> 0 <= Qsum (map sc_mv cands).
Proof.
  intros [_ Hall]. apply Qsum_nonneg. apply Forall_forall.
  intros v Hv. apply in_map_iff in Hv. destruct Hv as [c [<- Hc]].
  rewrite Forall_forall in Hall.
  destruct (Hall c Hc) as [h [_ [_ [_ [Hq [Hpx Hmv]]]]]].
  rewrite Hmv. apply Qmult_le_0_compat; [|lra].
  change 0 with (inject_Z 0). rewrite <- Zle_Qle. lia.
Qed.

(** A sale at the valuation price moves value from the holding to cash. *)
Lemma sale_keeps_value (prices : Dict.t Q) (p : Dict.t holding) (t : string)
  (h : holding) (sold : Z) (c : Q) :
  Dict.get p t = Some h ->
  valuation prices
    (Dict.set p t
       (mkHolding (totalAmount h - sold) (priced_at prices t h) (entry_price h)))
  + (c + inject_Z sold * priced_at prices t h)
  == valuation prices p + c.
Proof.
  intro Hget.
  pose proof (valuation_set_present prices p t h
                (mkHolding (totalAmount h - sold) (priced_at prices t h)
                   (entry_price h)) Hget) as H.
  assert (Hpx :
    priced_at prices t
      (mkHolding (totalAmount h - sold) (priced_at prices t h) (entry_price h))
    = priced_at prices t h).
  { unfold priced_at, Dict.get_default. cbn [last_price].
    now destruct (Dict.get prices t). }
  unfold entry_value in H. cbn [fst snd totalAmount] in H.
  rewrite Hpx, inject_Z_sub in H. lra.
Qed.

Lemma forced_sells_value (prices : Dict.t Q) (cands : list sell_cand)
  (st : fsell_state) :
  matching prices cands (fs_portfolio st) ->
  valuation prices (fs_portfolio (forced_sells cands st))
  + fs_cash (forced_sells cands st)
  == valuation prices (fs_portfolio st) + fs_cash st.
Proof.
  revert st. induction cands as [|c rest IH]; intros st Hm; cbn [forced_sells].
  - reflexivity.
  - destruct (Qle_bool (fs_shortfall st) 0); [reflexivity|].
    destruct (Z.min (sc_qty c) (py_ceil (fs_shortfall st / sc_px c)) <=? 0)%Z.
    + apply IH. eapply matching_skip; eassumption.
    + rewrite IH by now apply matching_tail.
      cbn [fs_portfolio fs_cash].
      destruct Hm as [_ Hall]. inversion Hall as [|? ? Hc _]; subst.
      destruct Hc as [h [Hget [_ [Hpx _]]]].
      rewrite Hget. cbn [qty_of entry_price_of]. rewrite <- Hpx.
      now apply sale_keeps_value.
Qed.

Lemma ceil_covers (x px : Q) :
  0 < px -> x <= inject_Z (py_ceil (x / px)) * px.
Proof.
  intro Hpx. unfold py_ceil.
  pose proof (Qle_ceiling (x / px)) as H.
  apply (Qmult_le_compat_r _ _ px) in H; [|lra].
  setoid_replace (x / px * px) with x in H by (field; lra). exact H.
Qed.

Lemma ceil_positive (x px : Q) : 0 < x -> 0 < px -> (0 < py_ceil (x / px))%Z.
Proof.
  intros Hx Hpx. unfold py_ceil.
  assert (Hq : 0 < x / px) by (apply Qlt_shift_div_l; [exact Hpx | lra]).
  pose proof (Qle_ceiling (x / px)) as H.
  assert (Hlt : inject_Z 0 < inject_Z (Qceiling (x / px))).
  { change (inject_Z 0) with 0. lra. }
  now rewrite <- Zlt_Qlt in Hlt.
Qed.

(** The forced sales stop with cash [>= 0], or else have sold every
    candidate in full. *)
Lemma forced_sells_cover (prices : Dict.t Q) (cands : list sell_cand)
  (st : fsell_state) :
  matching prices cands (fs_portfolio st) ->
  0 <= fs_cash st + fs_shortfall st ->
  0 <= fs_cash (forced_sells cands st)
  \/ fs_cash (forced_sells cands st) == fs_cash st + Qsum (map sc_mv cands).
Proof.
  revert st. induction cands as [|c rest IH]; intros st Hm Hinv;
    cbn [forced_sells map].
  - right. rewrite Qsum_nil. ring.
  - destruct (Qle_bool (fs_shortfall st) 0) eqn:Esf.
    + left. apply Qle_bool_iff in Esf. lra.
    + apply Qle_bool_false in Esf.
      pose proof Hm as [_ Hall]. inversion Hall as [|? ? Hc _]; subst.
      destruct Hc as [h [Hget [Hqty [Hprice [Hq [Hpx Hmv]]]]]].
      pose proof (ceil_positive _ _ Esf Hpx) as Hceil.
      pose proof (ceil_covers (fs_shortfall st) _ Hpx) as Hcov.
      pose proof (matching_values_nonneg prices rest _
                    (matching_skip prices c rest _ Hm)) as Hrest.
      destruct (Z.min (sc_qty c) (py_ceil (fs_shortfall st / sc_px c)) <=? 0)%Z
        eqn:Emin.
      { apply Z.leb_le in Emin. lia. }
      set (sell := Z.min (sc_qty c) (py_ceil (fs_shortfall st / sc_px c))) in *.
      set (st' :=
             mkFsell
               (Dict.set (fs_portfolio st) (sc_ticker c)
                  (mkHolding
                     (qty_of (Dict.get (fs_portfolio st) (sc_ticker c)) - sell)
                     (sc_px c)
                     (entry_price_of (Dict.get (fs_portfolio st) (sc_ticker c)))))
               (fs_cash st + inject_Z sell * sc_px c)
               (py_max 0 (fs_shortfall st - inject_Z sell * sc_px c))).
      assert (Hm' : matching prices rest (fs_portfolio st'))
        by (subst st'; cbn [fs_portfolio]; now apply matching_tail).
      assert (Hv : 0 <= inject_Z sell * sc_px c).
      { apply Z.leb_gt in Emin. apply Qmult_le_0_compat; [|lra].
        change 0 with (inject_Z 0). rewrite <- Zle_Qle. lia. }
      assert (Hinv' : 0 <= fs_cash st' + fs_shortfall st').
      { subst st'. cbn [fs_cash fs_shortfall].
        pose proof (py_max_lower 0 (fs_shortfall st - inject_Z sell * sc_px c))
          as Hlow.
        unfold py_max in *. destruct (Qltb 0 _) eqn:E.
        - clear -Hinv. lra.
        - apply Qltb_false in E. clear -Hinv E. lra. }
      destruct (Z.min_spec (sc_qty c) (py_ceil (fs_shortfall st / sc_px c)))
        as [[Hlt Hsell] | [Hge Hsell]]; fold sell in Hsell.
      * (* the whole position is sold *)
        destruct (IH st' Hm' Hinv') as [Hdone | Hall']; [now left|].
        right. rewrite Hall'. subst st'. cbn [fs_cash].
        rewrite Qsum_cons, Hmv, Hsell. ring.
      * (* enough shares are sold to cover the shortfall *)
        assert (Hcash : 0 <= fs_cash st + inject_Z sell * sc_px c).
        { rewrite Hsell. clear -Hinv Hcov. lra. }
        destruct (IH st' Hm' Hinv') as [Hdone | Hall']; [now left|].
        left. rewrite Hall'. subst st'. cbn [fs_cash].
        clear -Hcash Hrest. lra.
Qed.

(** X5. From a long-only snapshot, [force_cash_non_negative] never lowers
    total equity (cash plus holdings at the same price map): sales move
    value into cash at the valuation price, and only the final
    [max(0.0, cash)] can add what the sales did not cover. *)
Theorem force_cash_non_negative_keeps_value :
  forall (s : snapshot) (prices : Dict.t Q),
    Dict.wf (portfolio s) ->
    long_only (portfolio s) ->
    equity_at s prices <= equity_at (force_cash_non_negative s prices) prices.
Proof.
  intros s prices Hwf Hlo. rewrite !equity_at_valuation.
  unfold force_cash_non_negative.
  destruct (Qle_bool 0 (cash s)) eqn:Ec;
    cbn [portfolio cash update_snapshot_prices ledger];
    rewrite valuation_reprice; [apply Qle_refl|].
  set (cands := sort_desc sc_mv (sell_candidates_of prices (portfolio s))).
  set (st0 := mkFsell (portfolio s) (cash s) (- cash s)).
  assert (Hm : matching prices cands (fs_portfolio st0)).
  { subst cands st0. cbn [fs_portfolio].
    eapply matching_perm;
      [apply Permutation_sym, sort_desc_perm | now apply sell_candidates_matching]. }
  pose proof (forced_sells_value prices cands st0 Hm) as Hval.
  pose proof (forced_sells_long_only cands st0 (matching_covered _ _ _ Hm) Hlo)
    as Hlo'.
  rewrite (valuation_drop_flat prices _ Hlo').
  pose proof (py_max_lower 0 (fs_cash (forced_sells cands st0))) as Hmax.
  unfold py_max in *. subst st0. cbn [fs_portfolio fs_cash] in Hval.
  destruct (Qltb 0 (fs_cash (forced_sells cands
                               (mkFsell (portfolio s) (cash s) (- cash s)))))
    eqn:E.
  - lra.
  - apply Qltb_false in E. lra.
Qed.

Lemma force_cash_non_negative_keeps_value_witness :
  let s := ledger [("A"%string, mkHolding 10 50 40)] (- (120)) in
  let prices : Dict.t Q := [("A"%string, 50)] in
  equity_at s prices <= equity_at (force_cash_non_negative s prices) prices.
Proof.
  cbv zeta.
  apply (force_cash_non_negative_keeps_value
           (ledger [("A"%string, mkHolding 10 50 40)] (- (120)))
           [("A"%string, 50)]).
  - unfold Dict.wf. simpl. repeat constructor; simpl; intuition.
  - unfold long_only. simpl. repeat constructor; simpl; lia.
Defined.

(** X6. When the holdings that can be sold (positive quantity, positive
    price) are worth at least the shortfall, [force_cash_non_negative]
    covers it by sales alone: total equity is unchanged and nothing is
    added by the final clamp.  With cash already [>= 0] nothing is sold. *)
Theorem force_cash_non_negative_covers_shortfall :
  forall (s : snapshot) (prices : Dict.t Q),
    Dict.wf (portfolio s) ->
    long_only (portfolio s) ->
    - cash s <= sellable_value prices (portfolio s) ->
    equity_at (force_cash_non_negative s prices) prices == equity_at s prices.
Proof.
  intros s prices Hwf Hlo Hcover. rewrite !equity_at_valuation.
  unfold force_cash_non_negative.
  destruct (Qle_bool 0 (cash s)) eqn:Ec;
    cbn [portfolio cash update_snapshot_prices ledger];
    rewrite valuation_reprice; [reflexivity|].
  apply Qle_bool_false in Ec.
  set (cands := sort_desc sc_mv (sell_candidates_of prices (portfolio s))).
  set (st0 := mkFsell (portfolio s) (cash s) (- cash s)).
  assert (Hm : matching prices cands (fs_portfolio st0)).
  { subst cands st0. cbn [fs_portfolio].
    eapply matching_perm;
      [apply Permutation_sym, sort_desc_perm | now apply sell_candidates_matching]. }
  pose proof (forced_sells_value prices cands st0 Hm) as Hval.
  pose proof (forced_sells_long_only cands st0 (matching_covered _ _ _ Hm) Hlo)
    as Hlo'.
  rewrite (valuation_drop_flat prices _ Hlo').
  assert (Hsum : Qsum (map sc_mv cands) == sellable_value prices (portfolio s)).
  { unfold sellable_value. apply Qsum_perm, Permutation_map.
    subst cands. apply sort_desc_perm. }
  assert (Hcash : 0 <= fs_cash (forced_sells cands st0)).
  { destruct (forced_sells_cover prices cands st0 Hm) as [H | H].
    - subst st0. cbn [fs_cash fs_shortfall]. lra.
    - exact H.
    - rewrite H, Hsum. subst st0. cbn [fs_cash]. lra. }
  assert (Hmax : py_max 0 (fs_cash (forced_sells cands st0))
                 == fs_cash (forced_sells cands st0)).
  { unfold py_max. destruct (Qltb 0 _) eqn:E; [reflexivity|].
    apply Qltb_false in E. lra. }
  rewrite Hmax. subst st0. cbn [fs_portfolio fs_cash] in *. lra.
Qed.

Lemma force_cash_non_negative_covers_shortfall_witness :
  let s := ledger [("A"%string, mkHolding 10 50 40)] (- (120)) in
  let prices : Dict.t Q := [("A"%string, 50)] in
  - cash s <= sellable_value prices (portfolio s)
  /\ equity_at (force_cash_non_negative s prices) prices == equity_at s prices.
Proof.
  cbv zeta.
  assert (Hcover :
    - cash (ledger [("A"%string, mkHolding 10 50 40)] (- (120)))
    <= sellable_value [("A"%string, 50)]
         (portfolio (ledger [("A"%string, mkHolding 10 50 40)] (- (120)))))
    by (vm_compute; discriminate).
  split; [exact Hcover|].
  apply (force_cash_non_negative_covers_shortfall
           (ledger [("A"%string, mkHolding 10 50 40)] (- (120)))
           [("A"%string, 50)]).
  - unfold Dict.wf. simpl. repeat constructor; simpl; intuition.
  - unfold long_only. simpl. repeat constructor; simpl; lia.
  - exact Hcover.
Defined.

End ForcedSales.

(** ** The invariant of the day loop *)

Section DayInvariant.
Import Portfolio Valuation DayLoop.

Lemma emergency_sells_wf (cands : list sell_cand) (st : esell_state) :
  Dict.wf (es_portfolio st) -> Dict.wf (es_portfolio (emergency_sells cands st)).
Proof.
  revert st. induction cands as [|c rest IH]; intros st H; cbn [emergency_sells].
  - exact H.
  - destruct (Qle_bool (es_shortfall st) 0); [exact H|].
    destruct (Z.min (sc_qty c) (py_ceil (es_shortfall st / sc_px c)) <=? 0)%Z.
    + now apply IH.
    + apply IH. cbn [es_portfolio]. now apply wf_set.
Qed.

Lemma forced_sells_wf (cands : list sell_cand) (st : fsell_state) :
  Dict.wf (fs_portfolio st) -> Dict.wf (fs_portfolio (forced_sells cands st)).
Proof.
  revert st. induction cands as [|c rest IH]; intros st H; cbn [forced_sells].
  - exact H.
  - destruct (Qle_bool (fs_shortfall st) 0); [exact H|].
    destruct (Z.min (sc_qty c) (py_ceil (fs_shortfall st / sc_px c)) <=? 0)%Z.
    + now apply IH.
    + apply IH. cbn [fs_portfolio]. now apply wf_set.
Qed.

Lemma force_cash_non_negative_wf (s : snapshot) (prices : Dict.t Q) :
  Dict.wf (portfolio s) -> Dict.wf (portfolio (force_cash_non_negative s prices)).
Proof.
  intro H. unfold force_cash_non_negative.
  destruct (Qle_bool 0 (cash s)); cbn [portfolio update_snapshot_prices ledger];
    apply wf_reprice; [exact H|].
  apply wf_drop_flat, forced_sells_wf. exact H.
Qed.

Lemma apply_partial_target_weights_wf (s : snapshot) (prices : Dict.t Q)
  (w : Dict.t Q) :
  Dict.wf (portfolio s) -> long_only (portfolio s) ->
  Dict.wf (portfolio (fst (apply_partial_target_weights s prices w))).
Proof.
  intros Hwf Hlo. unfold apply_partial_target_weights. cbv zeta. cbn [fst].
  set (bought := plan_after_buys (partial_plan_of s prices w)).
  assert (Hb : Dict.wf (buy_portfolio bought) /\ long_only (buy_portfolio bought)).
  { subst bought. unfold partial_plan_of. cbn [plan_after_buys].
    apply buy_pass_invariant. cbn [buy_portfolio]. now split. }
  destruct (unwind_pass_invariant (buy_applied bought) (buy_portfolio bought)
              (buy_cash bought) Hb) as [Hwf' _].
  set (unwound := unwind_pass (buy_applied bought) (buy_portfolio bought)
                    (buy_cash bought)) in *.
  assert (Hsold :
    Dict.wf (fst (fst (emergency_pass prices (fst unwound) (snd unwound)
                         (buy_changes bought))))).
  { unfold emergency_pass. destruct (Qltb (snd unwound) 0); [|exact Hwf'].
    cbn [fst]. apply wf_drop_flat, emergency_sells_wf. exact Hwf'. }
  unfold equity_guard.
  destruct (Qltb _ _); cbn [portfolio update_snapshot_prices ledger];
    repeat apply wf_reprice; exact Hsold.
Qed.

(** What every written snapshot satisfies. *)
Lemma run_day_invariant (s : snapshot) (d : day) :
  Dict.wf (portfolio s) -> long_only (portfolio s) ->
  Dict.wf (portfolio (run_day s d))
  /\ long_only (portfolio (run_day s d))
  /\ 0 <= cash (run_day s d).
Proof.
  intros Hwf Hlo. destruct d as [prices w | prices]; cbn [run_day].
  - unfold emit_rebalance.
    pose proof (apply_partial_target_weights_wf s prices w Hwf Hlo) as Hwf'.
    pose proof (apply_partial_target_weights_long_only s prices w Hwf Hlo)
      as Hlo'.
    split; [now apply force_cash_non_negative_wf|].
    split; [now apply force_cash_non_negative_long_only|].
    apply force_cash_non_negative_cash.
  - unfold emit_revaluation.
    assert (Hwf' : Dict.wf (portfolio (update_snapshot_prices s prices)))
      by (now apply wf_reprice).
    assert (Hlo' : long_only (portfolio (update_snapshot_prices s prices)))
      by (now apply long_only_reprice).
    split; [now apply force_cash_non_negative_wf|].
    split; [now apply force_cash_non_negative_long_only|].
    apply force_cash_non_negative_cash.
Qed.

(** X7. Along any sequence of rebalance and revaluation days, started from
    a long-only snapshot, every snapshot the day loop writes is long-only,
    has cash [>= 0] and keeps one entry per ticker, whatever the prices
    and the target weights of each day. *)
Theorem day_loop_invariant :
  forall (days : list day) (d : day) (s : snapshot),
    Dict.wf (portfolio s) ->
    long_only (portfolio s) ->
    let written := run_days s (days ++ [d]) in
    Dict.wf (portfolio written)
    /\ long_only (portfolio written)
    /\ 0 <= cash written.
Proof.
  intros days d. unfold run_days.
  induction days as [|d0 days IH]; intros s Hwf Hlo; cbn [app fold_left].
  - now apply run_day_invariant.
  - destruct (run_day_invariant s d0 Hwf Hlo) as [Hwf' [Hlo' _]].
    now apply IH.
Qed.

Lemma day_loop_invariant_witness :
  let days :=
    [RevaluationDay Scenario.capped_prices;
     RebalanceDay Scenario.capped_prices Scenario.capped_weights] in
  0 <= cash (run_days Scenario.capped_snapshot
               (days ++ [RevaluationDay [("Z"%string, 80)]])).
Proof.
  cbv zeta.
  apply (day_loop_invariant
           [RevaluationDay Scenario.capped_prices;
            RebalanceDay Scenario.capped_prices Scenario.capped_weights]
           (RevaluationDay [("Z"%string, 80)]) Scenario.capped_snapshot
           capped_snapshot_wf capped_snapshot_long_only).
Defined.

End DayInvariant.

(** ** What the full rebalance writes for a listed ticker *)

Section FullRebalance.
Import Portfolio Valuation.

Lemma combine_fst_nodup {A B : Type} (l : list A) (l' : list B) :
  NoDup l -> NoDup (map fst (combine l l')).
Proof.
  revert l'. induction l as [|a l IH]; intros l' Hnd; [constructor|].
  destruct l' as [|b l']; [constructor|]. cbn [combine map fst].
  apply NoDup_cons_iff in Hnd. destruct Hnd as [Hnotin Hnd].
  constructor; [|now apply IH].
  intro Hin. apply Hnotin. apply in_map_iff in Hin.
  destruct Hin as [[a' b'] [Heq Hin]]. cbn [fst] in Heq. subst a'.
  now apply in_combine_l in Hin.
Qed.

Lemma combine_map_r {A B C : Type} (f : B -> C) (l : list A) (l' : list B) :
  combine l (map f l') = map (fun p => (fst p, f (snd p))) (combine l l').
Proof.
  revert l'. induction l as [|a l IH]; intros [|b l']; cbn; try reflexivity.
  now rewrite IH.
Qed.

Lemma atw_step_get_other (portfolio_prev : Dict.t holding) (prices : Dict.t Q)
  (st : atw_state) (e : string * Q) (t : string) :
  fst e <> t ->
  Dict.get (atw_portfolio (atw_step portfolio_prev prices st e)) t
  = Dict.get (atw_portfolio st) t.
Proof.
  intro Hne. unfold atw_step.
  destruct (Qle_bool (Dict.get_default prices (fst e) 0) 0).
  - destruct (0 <? qty_of (Dict.get portfolio_prev (fst e)))%Z; [|reflexivity].
    cbn [atw_portfolio]. apply get_set_other. congruence.
  - cbn [atw_portfolio].
    destruct (0 <? atw_target_qty (snd e) (Dict.get_default prices (fst e) 0%Q))%Z;
      [|reflexivity].
    apply get_set_other. congruence.
Qed.

Lemma atw_loop_get_other (portfolio_prev : Dict.t holding) (prices : Dict.t Q)
  (l : list (string * Q)) (st : atw_state) (t : string) :
  ~ In t (map fst l) ->
  Dict.get (atw_portfolio (fold_left (atw_step portfolio_prev prices) l st)) t
  = Dict.get (atw_portfolio st) t.
Proof.
  revert st. induction l as [|e l IH]; intros st Hnotin; cbn [fold_left].
  - reflexivity.
  - cbn [map] in Hnotin. rewrite IH by (intro; apply Hnotin; now right).
    apply atw_step_get_other. intro Heq. apply Hnotin. now left.
Qed.

(** The holding a step writes for its own ticker does not depend on the
    portfolio built so far, as long as the ticker is new to it. *)
Lemma atw_step_get_same (portfolio_prev : Dict.t holding) (prices : Dict.t Q)
  (st : atw_state) (t : string) (td : Q) :
  Dict.get (atw_portfolio st) t = None ->
  Dict.get (atw_portfolio (atw_step portfolio_prev prices st (t, td))) t
  = Dict.get
      (atw_portfolio (atw_step portfolio_prev prices (mkAtw [] [] 0) (t, td))) t.
Proof.
  intro Hnone. unfold atw_step. cbn [fst snd].
  destruct (Qle_bool (Dict.get_default prices t 0) 0).
  - destruct (0 <? qty_of (Dict.get portfolio_prev t))%Z; cbn [atw_portfolio].
    + now rewrite !get_set_same.
    + exact Hnone.
  - cbn [atw_portfolio].
    destruct (0 <? atw_target_qty td (Dict.get_default prices t 0%Q))%Z.
    + now rewrite !get_set_same.
    + exact Hnone.
Qed.

Lemma atw_loop_get (portfolio_prev : Dict.t holding) (prices : Dict.t Q)
  (l : list (string * Q)) (st : atw_state) (t : string) (td : Q) :
  NoDup (map fst l) ->
  In (t, td) l ->
  Dict.get (atw_portfolio st) t = None ->
  Dict.get (atw_portfolio (fold_left (atw_step portfolio_prev prices) l st)) t
  = Dict.get
      (atw_portfolio (atw_step portfolio_prev prices (mkAtw [] [] 0) (t, td))) t.
Proof.
  revert st. induction l as [|e l IH]; intros st Hnd Hin Hnone;
    [contradiction|].
  cbn [map] in Hnd. apply NoDup_cons_iff in Hnd. destruct Hnd as [Hnotin Hnd].
  cbn [fold_left]. destruct Hin as [-> | Hin].
  - cbn [fst] in Hnotin. rewrite atw_loop_get_other by exact Hnotin.
    now apply atw_step_get_same.
  - assert (Hne : fst e <> t).
    { intro Heq. apply Hnotin. rewrite Heq.
      change t with (fst (t, td)). now apply in_map. }
    apply IH; [exact Hnd | exact Hin|].
    now rewrite atw_step_get_other.
Qed.

Lemma atw_keep_unpriced_get (prices : Dict.t Q) (l : list (string * holding))
  (np : Dict.t holding) (t : string) :
  Dict.mem prices t = true ->
  Dict.get (fold_left (atw_keep_unpriced prices) l np) t = Dict.get np t.
Proof.
  intro Hmem. revert np. induction l as [|[k h] l IH]; intro np;
    cbn [fold_left]; [reflexivity|].
  rewrite IH. unfold atw_keep_unpriced. cbn [fst snd].
  destruct (negb (Dict.mem np k) && negb (Dict.mem prices k)) eqn:E;
    [|reflexivity].
  apply get_set_other. intro Heq. subst k.
  rewrite Hmem in E. cbn in E. now rewrite andb_false_r in E.
Qed.

Lemma positive_price_mem (prices : Dict.t Q) (t : string) :
  0 < Dict.get_default prices t 0 -> Dict.mem prices t = true.
Proof.
  unfold Dict.get_default, Dict.mem.
  destruct (Dict.get prices t); [reflexivity|].
  intro H. exfalso. exact (Qlt_irrefl 0 H).
Qed.

(** A volume-weighted average of two prices lies between them. *)
Lemma weighted_entry_between (a b : Z) (pe px : Q) :
  (0 < a)%Z -> (0 < b)%Z ->
  let e := (inject_Z a * pe + inject_Z b * px) / inject_Z (a + b) in
  (pe <= px -> pe <= e /\ e <= px) /\ (px <= pe -> px <= e /\ e <= pe).
Proof.
  intros Ha Hb. cbv zeta.
  assert (HA : 0 < inject_Z a) by (change 0 with (inject_Z 0); now rewrite <- Zlt_Qlt).
  assert (HB : 0 < inject_Z b) by (change 0 with (inject_Z 0); now rewrite <- Zlt_Qlt).
  rewrite inject_Z_plus.
  set (qa := inject_Z a) in *. set (qb := inject_Z b) in *.
  assert (Hab : 0 < qa + qb) by lra.
  split; intro Hle; split.
  - apply Qle_shift_div_l; [exact Hab|].
    assert (0 <= qb * (px - pe)) by (apply Qmult_le_0_compat; lra). lra.
  - apply Qle_shift_div_r; [exact Hab|].
    assert (0 <= qa * (px - pe)) by (apply Qmult_le_0_compat; lra). lra.
  - apply Qle_shift_div_l; [exact Hab|].
    assert (0 <= qa * (pe - px)) by (apply Qmult_le_0_compat; lra). lra.
  - apply Qle_shift_div_r; [exact Hab|].
    assert (0 <= qb * (pe - px)) by (apply Qmult_le_0_compat; lra). lra.
Qed.

(** X8. In the snapshot returned by [apply_target_weights] over a
    duplicate-free ticker list, a listed ticker priced above 0 holds exactly
    its target [floor(max(0, w) * total_equity / price)] at today's price,
    and is absent when that target is not positive.  Its entry price is the
    previous one after a trim or no change, today's price when the position
    is opened, and a value between the previous entry price and today's
    price when shares are added. *)
Theorem apply_target_weights_sets_target :
  forall (s : snapshot) (tickers : list string) (prices : Dict.t Q)
         (ws : list Q) (t : string) (w : Q),
    NoDup tickers ->
    In (t, w) (combine tickers ws) ->
    0 < Dict.get_default prices t 0 ->
    let px := Dict.get_default prices t 0 in
    let tq := atw_target_qty (py_max 0 w * equity_at s prices) px in
    let prev := qty_of (Dict.get (portfolio s) t) in
    let prev_entry := entry_price_of (Dict.get (portfolio s) t) in
    let after :=
      Dict.get (portfolio (fst (apply_target_weights s tickers prices ws))) t in
    ((tq <= 0)%Z -> after = None)
    /\ ((0 < tq)%Z ->
        exists h,
          after = Some h
          /\ totalAmount h = tq
          /\ last_price h = px
          /\ ((tq <= prev)%Z -> entry_price h = prev_entry)
          /\ (prev = 0%Z -> entry_price h = px)
          /\ ((0 < prev < tq)%Z ->
              (prev_entry <= px -> prev_entry <= entry_price h <= px)
              /\ (px <= prev_entry -> px <= entry_price h <= prev_entry))).
Proof.
  intros s tickers prices ws t w Hnd Hin Hpx. cbv zeta.
  unfold apply_target_weights.
  cbn [fst portfolio update_snapshot_prices ledger].
  rewrite reprice_get.
  rewrite (atw_keep_unpriced_get prices _ _ t (positive_price_mem _ _ Hpx)).
  set (E := equity_at s prices).
  assert (Hin' : In (t, py_max 0 w * E) (combine tickers (atw_target_dollars E ws))).
  { unfold atw_target_dollars. rewrite combine_map_r.
    apply in_map_iff. exists (t, w). split; [reflexivity | exact Hin]. }
  rewrite (atw_loop_get (portfolio s) prices _ (mkAtw [] [] (cash s)) t
             (py_max 0 w * E) (combine_fst_nodup _ _ Hnd) Hin' eq_refl).
  unfold atw_step. cbn [fst snd].
  pose proof Hpx as Hb. apply Qle_bool_false in Hb. rewrite Hb.
  cbn [atw_portfolio].
  set (tq := atw_target_qty (py_max 0 w * E) (Dict.get_default prices t 0)).
  set (prev := qty_of (Dict.get (portfolio s) t)).
  split.
  - intro Hle. apply Z.ltb_ge in Hle. now rewrite Hle.
  - intro Hpos. pose proof Hpos as Hb'. apply Z.ltb_lt in Hb'. rewrite Hb'.
    rewrite get_set_same. cbn [option_map totalAmount entry_price].
    eexists. split; [reflexivity|].
    cbn [totalAmount last_price entry_price].
    split; [reflexivity|].
    split.
    { unfold priced_at. cbn [last_price].
      apply (positive_price_is_listed prices t _ Hpx). }
    split; [|split].
    + intro Hle.
      assert (Hd : (0 <? tq - prev)%Z = false) by (apply Z.ltb_ge; lia).
      now rewrite Hd.
    + intro Hz. rewrite Hz.
      assert (Hd : (0 <? tq - 0)%Z = true) by (apply Z.ltb_lt; lia).
      rewrite Hd. reflexivity.
    + intros [Hp Hlt].
      assert (Hd : (0 <? tq - prev)%Z = true) by (apply Z.ltb_lt; lia).
      assert (Hp' : (0 <? prev)%Z = true) by (now apply Z.ltb_lt).
      rewrite Hd, Hp'. cbn [andb].
      apply (weighted_entry_between prev (tq - prev)); lia.
Qed.

Lemma apply_target_weights_sets_target_witness :
  exists h,
    Dict.get
      (portfolio
         (fst (apply_target_weights Scenario.capped_snapshot
                 ["Z"; "C"; "A"; "B"]%string Scenario.capped_prices
                 [1 # 2; 0; 1 # 4; 1 # 4]))) "Z"
    = Some h
    /\ last_price h = 100.
Proof.
  assert (Hnd : NoDup ["Z"; "C"; "A"; "B"]%string)
    by (repeat constructor; simpl; intuition discriminate).
  assert (Hin : In ("Z"%string, 1 # 2)
                  (combine ["Z"; "C"; "A"; "B"]%string [1 # 2; 0; 1 # 4; 1 # 4]))
    by (simpl; auto).
  assert (Hpx : 0 < Dict.get_default Scenario.capped_prices "Z" 0)
    by reflexivity.
  destruct (apply_target_weights_sets_target Scenario.capped_snapshot
              ["Z"; "C"; "A"; "B"]%string Scenario.capped_prices
              [1 # 2; 0; 1 # 4; 1 # 4] "Z" (1 # 2) Hnd Hin Hpx)
    as [_ Hpos].
  destruct Hpos as [h [Hget [_ [Hlast _]]]]; [vm_compute; reflexivity|].
  exists h. split; [exact Hget | exact Hlast].
Defined.

End FullRebalance.

(** ** The full rebalance does not overdraw *)

Section NoOverdraft.
Import Portfolio Valuation.

Lemma floor_spend (td px : Q) :
  0 < px -> inject_Z (atw_target_qty td px) * px <= td.
Proof.
  intro Hpx. unfold atw_target_qty, py_floordiv. rewrite py_int_inject.
  pose proof (Qfloor_le (td / px)) as H.
  apply (Qmult_le_compat_r _ _ px) in H; [|lra].
  setoid_replace (td / px * px) with td in H by (field; lra). exact H.
Qed.

Lemma atw_step_spend (portfolio_prev : Dict.t holding) (prices : Dict.t Q)
  (st : atw_state) (e : string * Q) :
  ~ In (fst e) (Dict.keys (atw_portfolio st)) ->
  0 <= snd e ->
  (Dict.get_default prices (fst e) 0 <= 0 ->
   (qty_of (Dict.get portfolio_prev (fst e)) <= 0)%Z) ->
  valuation prices (atw_portfolio (atw_step portfolio_prev prices st e))
  <= valuation prices (atw_portfolio st) + snd e.
Proof.
  intros Hfresh Htd Hpriced. destruct e as [t td]. cbn [fst snd] in *.
  unfold atw_step. cbn [fst snd].
  destruct (Qle_bool (Dict.get_default prices t 0) 0) eqn:Epx.
  - apply Qle_bool_iff in Epx. specialize (Hpriced Epx).
    assert (Hq : (0 <? qty_of (Dict.get portfolio_prev t))%Z = false)
      by (apply Z.ltb_ge; exact Hpriced).
    rewrite Hq. lra.
  - apply Qle_bool_false in Epx. cbn [atw_portfolio].
    destruct (0 <? atw_target_qty td (Dict.get_default prices t 0%Q))%Z; [|lra].
    rewrite (valuation_set_absent _ _ _ _ Hfresh).
    unfold entry_value, priced_at. cbn [fst snd totalAmount last_price].
    rewrite (positive_price_is_listed prices t (Dict.get_default prices t 0) Epx).
    pose proof (floor_spend td _ Epx). lra.
Qed.

Lemma atw_loop_spend (portfolio_prev : Dict.t holding) (prices : Dict.t Q)
  (l : list (string * Q)) (st : atw_state) :
  NoDup (map fst l) ->
  (forall k, In k (Dict.keys (atw_portfolio st)) -> ~ In k (map fst l)) ->
  Forall (fun e => 0 <= snd e) l ->
  (forall t, Dict.get_default prices t 0 <= 0 ->
             (qty_of (Dict.get portfolio_prev t) <= 0)%Z) ->
  valuation prices
    (atw_portfolio (fold_left (atw_step portfolio_prev prices) l st))
  <= valuation prices (atw_portfolio st) + Qsum (map snd l).
Proof.
  intros Hnd Hfresh Htd Hpriced. revert st Hnd Hfresh Htd.
  induction l as [|e l IH]; intros st Hnd Hfresh Htd; cbn [fold_left map].
  - rewrite Qsum_nil. lra.
  - cbn [map] in Hnd. apply NoDup_cons_iff in Hnd. destruct Hnd as [Hnotin Hnd].
    inversion Htd as [|? ? He Htd']; subst.
    assert (Hstep := atw_step_spend portfolio_prev prices st e).
    eapply Qle_trans; [apply IH; [exact Hnd | | exact Htd']|].
    + intros k Hk Hin. apply atw_step_keys in Hk. destruct Hk as [Hk | ->].
      * apply (Hfresh k Hk). now right.
      * contradiction.
    + rewrite Qsum_cons.
      assert (Hs : valuation prices
                     (atw_portfolio (atw_step portfolio_prev prices st e))
                   <= valuation prices (atw_portfolio st) + snd e).
      { apply Hstep; [|exact He | apply Hpriced].
        intro Hk. apply (Hfresh _ Hk). now left. }
      lra.
Qed.

Lemma atw_keep_unpriced_idle (prices : Dict.t Q) (l : list (string * holding))
  (np : Dict.t holding) :
  (forall e, In e l -> Dict.mem prices (fst e) = true) ->
  fold_left (atw_keep_unpriced prices) l np = np.
Proof.
  revert np. induction l as [|e l IH]; intros np H; cbn [fold_left];
    [reflexivity|].
  unfold atw_keep_unpriced at 2.
  rewrite (H e (or_introl eq_refl)), andb_false_r.
  apply IH. intros e' He'. apply H. now right.
Qed.

Lemma Qsum_target_dollars (total_equity : Q) (ws : list Q) :
  Qsum (atw_target_dollars total_equity ws)
  == Qsum (map (py_max 0) ws) * total_equity.
Proof.
  unfold atw_target_dollars. induction ws as [|w ws IH]; cbn [map].
  - rewrite !Qsum_nil. ring.
  - rewrite !Qsum_cons, IH. ring.
Qed.

Lemma combine_snd_covers {A B : Type} (l : list A) (l' : list B) :
  List.length l = List.length l' -> map snd (combine l l') = l'.
Proof.
  revert l'. induction l as [|a l IH]; intros [|b l'] H; cbn in *;
    try reflexivity; try discriminate.
  f_equal. apply IH. congruence.
Qed.

Lemma valuation_priced_nonneg (prices : Dict.t Q) (p : Dict.t holding) :
  long_only p ->
  (forall t, In t (Dict.keys p) -> 0 < Dict.get_default prices t 0) ->
  0 <= valuation prices p.
Proof.
  intros Hlo Hpx. unfold valuation. apply Qsum_nonneg, Forall_forall.
  intros v Hv. apply in_map_iff in Hv. destruct Hv as [[t h] [<- He]].
  unfold entry_value, priced_at. cbn [fst snd].
  assert (Hkey : In t (Dict.keys p)).
  { unfold Dict.keys. change t with (fst (t, h)). now apply in_map. }
  rewrite (positive_price_is_listed prices t (last_price h) (Hpx t Hkey)).
  apply Qmult_le_0_compat.
  - change 0 with (inject_Z 0). rewrite <- Zle_Qle.
    unfold long_only in Hlo. rewrite Forall_forall in Hlo. apply Hlo.
    unfold Dict.values. change h with (snd (t, h)). now apply in_map.
  - specialize (Hpx t Hkey). lra.
Qed.

(** X9. [apply_target_weights] never overdraws: from a long-only snapshot
    with cash [>= 0] whose holdings are all listed and priced above 0
    today, with one weight per ticker of a duplicate-free list and clamped
    weights [max(0, w)] that add up to at most 1, the returned cash is
    [>= 0] (whole-share rounding only leaves cash unspent). *)
Theorem apply_target_weights_no_overdraft :
  forall (s : snapshot) (tickers : list string) (prices : Dict.t Q)
         (ws : list Q),
    Dict.wf (portfolio s) ->
    long_only (portfolio s) ->
    0 <= cash s ->
    NoDup tickers ->
    List.length tickers = List.length ws ->
    (forall t, In t (Dict.keys (portfolio s)) ->
               In t tickers /\ 0 < Dict.get_default prices t 0) ->
    Qsum (map (py_max 0) ws) <= 1 ->
    0 <= cash (fst (apply_target_weights s tickers prices ws)).
Proof.
  intros s tickers prices ws Hwf Hlo Hcash Hnd Hlen Hheld Hsum.
  assert (HE : 0 <= equity_at s prices).
  { rewrite equity_at_valuation.
    pose proof (valuation_priced_nonneg prices (portfolio s) Hlo
                  (fun t Ht => proj2 (Hheld t Ht))). lra. }
  pose proof (apply_target_weights_equity s tickers prices ws Hwf Hlo HE Hnd
                (Nat.eq_le_incl _ _ Hlen)
                (fun t Ht _ => proj1 (Hheld t Ht))) as Heq.
  rewrite (equity_at_valuation (fst _)) in Heq.
  unfold apply_target_weights in *.
  cbn [fst portfolio cash update_snapshot_prices ledger] in *.
  rewrite valuation_reprice in Heq.
  rewrite atw_keep_unpriced_idle in Heq.
  2:{ intros [t h] He. cbn [fst]. apply positive_price_mem.
      apply Hheld. unfold Dict.keys. change t with (fst (t, h)).
      now apply in_map. }
  set (tds := atw_target_dollars (equity_at s prices) ws) in *.
  set (l := combine tickers tds) in *.
  assert (Hlen' : List.length tickers = List.length tds).
  { subst tds. unfold atw_target_dollars. now rewrite length_map. }
  assert (Hspend :
    valuation prices
      (atw_portfolio
         (fold_left (atw_step (portfolio s) prices) l (mkAtw [] [] (cash s))))
    <= valuation prices [] + Qsum (map snd l)).
  { apply (atw_loop_spend (portfolio s) prices l (mkAtw [] [] (cash s))).
    - subst l. now apply combine_fst_nodup.
    - intros k [].
    - apply Forall_forall. intros [t td] He. cbn [snd].
      subst l. apply in_combine_r in He.
      pose proof (atw_target_dollars_nonneg _ ws HE) as Hall.
      rewrite Forall_forall in Hall. now apply Hall.
    - intros t Hpx.
      destruct (Dict.get (portfolio s) t) as [h|] eqn:Eg; cbn [qty_of]; [|lia].
      exfalso. apply get_some_in in Eg.
      assert (Hkey : In t (Dict.keys (portfolio s))).
      { unfold Dict.keys. change t with (fst (t, h)). now apply in_map. }
      destruct (Hheld t Hkey) as [_ Hpos]. lra. }
  subst l. rewrite (combine_snd_covers _ _ Hlen') in Hspend.
  subst tds. rewrite Qsum_target_dollars in Hspend.
  unfold valuation at 2 in Hspend. cbn [map] in Hspend.
  rewrite Qsum_nil in Hspend.
  assert (Hbound : Qsum (map (py_max 0) ws) * equity_at s prices
                   <= equity_at s prices).
  { assert (0 <= (1 - Qsum (map (py_max 0) ws)) * equity_at s prices)
      by (apply Qmult_le_0_compat; lra). lra. }
  lra.
Qed.

Lemma apply_target_weights_no_overdraft_witness :
  0 <= cash (fst (apply_target_weights Scenario.capped_snapshot
                    ["Z"; "C"; "A"; "B"]%string Scenario.capped_prices
                    [1 # 2; 0; 1 # 4; 1 # 4])).
Proof.
  apply apply_target_weights_no_overdraft.
  - apply capped_snapshot_wf.
  - apply capped_snapshot_long_only.
  - vm_compute. discriminate.
  - repeat constructor; simpl; intuition discriminate.
  - reflexivity.
  - simpl. intros t [<- | [<- | []]]; split; simpl; auto; reflexivity.
  - vm_compute. discriminate.
Defined.

End NoOverdraft.

(** ** The biweekly rebalance days *)

Section BiweeklyDays.
Import Scheduler.

Variable parse_date : string -> option Z.

Lemma select_days_extends (start : Z) (dates : list string) (lr : option Z)
  (sel out : list string) :
  select_days parse_date start dates lr sel = Some out ->
  exists new, out = sel ++ new.
Proof.
  revert lr sel. induction dates as [|d rest IH]; intros lr sel H;
    cbn [select_days] in H.
  - inversion H. exists []. now rewrite app_nil_r.
  - destruct (parse_date d) as [c|]; [|discriminate].
    destruct (c <? start)%Z; [eauto|].
    destruct (match lr with None => true | Some l => (14 <=? c - l)%Z end);
      [|eauto].
    destruct (IH _ _ H) as [new Hnew]. exists (d :: new).
    rewrite Hnew, <- app_assoc. reflexivity.
Qed.

Lemma select_days_spaced (start : Z) (dates : list string) (lr : option Z)
  (sel out : list string) :
  select_days parse_date start dates lr sel = Some out ->
  exists new,
    out = sel ++ new
    /\ spaced parse_date start lr new
    /\ incl new dates.
Proof.
  revert lr sel. induction dates as [|d rest IH]; intros lr sel H;
    cbn [select_days] in H.
  - inversion H. exists []. rewrite app_nil_r.
    repeat split. intros x [].
  - destruct (parse_date d) as [c|] eqn:Ed; [|discriminate].
    destruct (c <? start)%Z eqn:Es.
    { destruct (IH _ _ H) as [new [Hout [Hsp Hin]]].
      exists new. repeat split; auto. now apply incl_tl. }
    apply Z.ltb_ge in Es.
    destruct (match lr with None => true | Some l => (14 <=? c - l)%Z end)
      eqn:Eg.
    + destruct (IH _ _ H) as [new [Hout [Hsp Hin]]].
      exists (d :: new). split; [now rewrite Hout, <- app_assoc|]. split.
      * cbn [spaced]. exists c. repeat split; auto.
        destruct lr as [l|]; [now apply Z.leb_le in Eg | exact I].
      * intros x [<- | Hx]; [now left | right; now apply Hin].
    + destruct (IH _ _ H) as [new [Hout [Hsp Hin]]].
      exists new. repeat split; auto. now apply incl_tl.
Qed.

Lemma select_days_covers (start : Z) (dates : list string) (lr : option Z)
  (sel out : list string) :
  select_days parse_date start dates lr sel = Some out ->
  forall pre d post c,
    dates = pre ++ d :: post ->
    parse_date d = Some c ->
    (start <= c)%Z ->
    In d out
    \/ (exists r cr,
           In r pre /\ In r out /\ parse_date r = Some cr /\ (c - cr < 14)%Z)
    \/ (exists cl, lr = Some cl /\ (c - cl < 14)%Z).
Proof.
  revert lr sel. induction dates as [|x rest IH];
    intros lr sel H pre d post c Hsplit Hd Hc.
  - destruct pre; discriminate.
  - cbn [select_days] in H.
    destruct (parse_date x) as [cx|] eqn:Ex; [|discriminate].
    destruct pre as [|x' pre'].
    + cbn [app] in Hsplit. inversion Hsplit; subst x rest.
      rewrite Hd in Ex. inversion Ex; subst cx.
      assert (Es : (c <? start)%Z = false) by (apply Z.ltb_ge; exact Hc).
      rewrite Es in H.
      destruct lr as [l|].
      * destruct (14 <=? c - l)%Z eqn:Eg.
        -- left. destruct (select_days_extends _ _ _ _ _ H) as [new ->].
           apply in_or_app. left. apply in_or_app. right. now left.
        -- right. right. exists l. split; [reflexivity|].
           apply Z.leb_gt in Eg. exact Eg.
      * left. destruct (select_days_extends _ _ _ _ _ H) as [new ->].
        apply in_or_app. left. apply in_or_app. right. now left.
    + cbn [app] in Hsplit. inversion Hsplit; subst x' rest.
      destruct (cx <? start)%Z.
      { destruct (IH _ _ H pre' d post c eq_refl Hd Hc)
          as [Hin | [[r [cr [Hr Hrest]]] | Hlr]].
        - now left.
        - right. left. exists r, cr. split; [now right | exact Hrest].
        - right. right. exact Hlr. }
      destruct (match lr with None => true | Some l => (14 <=? cx - l)%Z end).
      * destruct (IH _ _ H pre' d post c eq_refl Hd Hc)
          as [Hin | [[r [cr [Hr Hrest]]] | [cl [Hcl Hlt]]]].
        -- now left.
        -- right. left. exists r, cr. split; [now right | exact Hrest].
        -- right. left. exists x, cx. inversion Hcl; subst cl.
           split; [now left|]. split; [|split; [exact Ex | exact Hlt]].
           destruct (select_days_extends _ _ _ _ _ H) as [new ->].
           apply in_or_app. left. apply in_or_app. right. now left.
      * destruct (IH _ _ H pre' d post c eq_refl Hd Hc)
          as [Hin | [[r [cr [Hr Hrest]]] | Hlr]].
        -- now left.
        -- right. left. exists r, cr. split; [now right | exact Hrest].
        -- right. right. exact Hlr.
Qed.

Lemma select_days_total (start : Z) (dates : list string) (lr : option Z)
  (sel : list string) :
  (forall d, In d dates -> parse_date d <> None) ->
  select_days parse_date start dates lr sel <> None.
Proof.
  revert lr sel. induction dates as [|d rest IH]; intros lr sel Hp;
    cbn [select_days].
  - discriminate.
  - destruct (parse_date d) as [c|] eqn:Ed.
    + assert (Hrest : forall d', In d' rest -> parse_date d' <> None)
        by (intros d' Hd'; apply Hp; now right).
      destruct (c <? start)%Z; [now apply IH|].
      destruct (match lr with None => true | Some l => (14 <=? c - l)%Z end);
        now apply IH.
    + exfalso. apply (Hp d); [now left | exact Ed].
Qed.

(** X10. When the start date and every trading date parse,
    [biweekly_rebalance_days] returns a selection; the selected days are
    trading dates on or after the start, each at least 14 days after the
    previous selected one; and every trading date on or after the start is
    selected or comes less than 14 days after a selected date that
    precedes it in the list. *)
Theorem biweekly_rebalance_days_spacing :
  forall (trading_dates : list string) (start_date : string) (start : Z),
    parse_date start_date = Some start ->
    (forall d, In d trading_dates -> parse_date d <> None) ->
    exists selected,
      biweekly_rebalance_days parse_date trading_dates start_date = Some selected
      /\ incl selected trading_dates
      /\ spaced parse_date start None selected
      /\ (forall pre d post c,
             trading_dates = pre ++ d :: post ->
             parse_date d = Some c ->
             (start <= c)%Z ->
             In d selected
             \/ exists r cr,
                 In r pre /\ In r selected /\ parse_date r = Some cr
                 /\ (c - cr < 14)%Z).
Proof.
  intros dates start_date start Hs Hp. unfold biweekly_rebalance_days.
  rewrite Hs.
  destruct (select_days parse_date start dates None []) as [out|] eqn:E.
  - exists out. split; [reflexivity|].
    destruct (select_days_spaced _ _ _ _ _ E) as [new [Hout [Hsp Hin]]].
    cbn [app] in Hout. subst new. split; [exact Hin|]. split; [exact Hsp|].
    intros pre d post c Hsplit Hd Hc.
    destruct (select_days_covers _ _ _ _ _ E pre d post c Hsplit Hd Hc)
      as [H | [H | [cl [Hcl _]]]]; [now left | now right | discriminate].
  - exfalso. exact (select_days_total start dates None [] Hp E).
Qed.

End BiweeklyDays.

Lemma biweekly_rebalance_days_spacing_witness :
  exists selected,
    Scheduler.biweekly_rebalance_days CalendarExample.parse_january
      CalendarExample.trading_dates "2025-01-06"
    = Some selected
    /\ incl selected CalendarExample.trading_dates.
Proof.
  assert (Hs : CalendarExample.parse_january "2025-01-06" = Some 739257%Z)
    by reflexivity.
  assert (Hp : forall d, In d CalendarExample.trading_dates ->
                         CalendarExample.parse_january d <> None).
  { intros d Hd. simpl in Hd.
    destruct Hd as [<- | [<- | [<- | [<- | [<- | []]]]]]; discriminate. }
  destruct (biweekly_rebalance_days_spacing CalendarExample.parse_january
              CalendarExample.trading_dates "2025-01-06" 739257 Hs Hp)
    as [selected [Hrun [Hincl _]]].
  exists selected. split; [exact Hrun | exact Hincl].
Defined.

(** ** The previous trading day *)

Section PreviousDay.
Import Calendar.

Lemma ltb_lt (a b : string) : String.ltb a b = true <-> String_as_OT.lt a b.
Proof.
  rewrite <- String_as_OT.cmp_lt. unfold String.ltb, String_as_OT.cmp.
  destruct (String.compare a b); split; congruence.
Qed.

Lemma ltb_trans (a b c : string) :
  String.ltb a b = true -> String.ltb b c = true -> String.ltb a c = true.
Proof.
  rewrite !ltb_lt. apply String_as_OT.lt_trans.
Qed.

Lemma ltb_irrefl (a : string) : String.ltb a a = false.
Proof.
  destruct (String.ltb a a) eqn:E; [|reflexivity].
  apply ltb_lt in E. exfalso. exact (String_as_OT.lt_not_eq a a E eq_refl).
Qed.

Lemma ltb_asym (a b : string) : String.ltb a b = true -> String.ltb b a = false.
Proof.
  intro H. destruct (String.ltb b a) eqn:E; [|reflexivity].
  pose proof (ltb_trans _ _ _ H E) as Hc. now rewrite ltb_irrefl in Hc.
Qed.

Lemma ltb_trichotomy (a b : string) :
  String.ltb a b = false -> a <> b -> String.ltb b a = true.
Proof.
  unfold String.ltb. rewrite (String.compare_antisym b a).
  destruct (String.compare a b) eqn:E; cbn; intros H Hne;
    try reflexivity; try discriminate.
  apply String.compare_eq_iff in E. contradiction.
Qed.

Lemma ltb_leb (a b : string) : String.ltb a b = true -> String.leb a b = true.
Proof.
  unfold String.ltb, String.leb. destruct (String.compare a b); congruence.
Qed.

Lemma leb_refl (a : string) : String.leb a a = true.
Proof.
  destruct (String.leb_total a a); assumption.
Qed.

Lemma index_from_none (date_str : string) (dates : list string) (i : nat) :
  index_from date_str dates i = None -> ~ In date_str dates.
Proof.
  revert i. induction dates as [|d rest IH]; intros i H; cbn in *; [tauto|].
  destruct (String.eqb d date_str) eqn:E; [discriminate|].
  apply String.eqb_neq in E. intros [Heq | Hin]; [contradiction|].
  exact (IH _ H Hin).
Qed.

Lemma index_from_split (date_str : string) (dates : list string) (i j : nat) :
  ascending dates ->
  index_from date_str dates i = Some j ->
  exists lo hi,
    dates = lo ++ hi
    /\ j = (i + List.length lo)%nat
    /\ Forall (fun x => String.ltb x date_str = true) lo
    /\ Forall (fun x => String.ltb x date_str = false) hi.
Proof.
  revert i. induction dates as [|d rest IH]; intros i Hs H; cbn in H;
    [discriminate|].
  apply StronglySorted_inv in Hs. destruct Hs as [Hs Hd].
  destruct (String.eqb d date_str) eqn:E.
  - apply String.eqb_eq in E. subst d. inversion H; subst j.
    exists [], (date_str :: rest). cbn [app List.length].
    repeat split; [lia | constructor |].
    constructor; [apply ltb_irrefl|].
    eapply Forall_impl; [|exact Hd]. intros x Hx. now apply ltb_asym.
  - destruct (IH _ Hs H) as [lo [hi [Hsplit [Hj [Hlo Hhi]]]]].
    exists (d :: lo), hi. cbn [app List.length]. subst rest.
    repeat split; [lia | | exact Hhi].
    constructor; [|exact Hlo].
    rewrite Forall_forall in Hd. apply Hd.
    (* date_str occurs in the rest *)
    clear -H. revert H. generalize (S i).
    induction (lo ++ hi) as [|x l IHl]; intros n H; cbn in H; [discriminate|].
    destruct (String.eqb x date_str) eqn:E.
    + apply String.eqb_eq in E. now left.
    + right. eauto.
Qed.

Lemma insert_position_split (date_str : string) (dates : list string) (i : nat) :
  ascending dates ->
  ~ In date_str dates ->
  exists lo hi,
    dates = lo ++ hi
    /\ insert_position date_str dates i = (i + List.length lo)%nat
    /\ Forall (fun x => String.ltb x date_str = true) lo
    /\ Forall (fun x => String.ltb x date_str = false) hi.
Proof.
  revert i. induction dates as [|d rest IH]; intros i Hs Hnotin;
    cbn [insert_position].
  - exists [], []. cbn. repeat split; [lia | constructor | constructor].
  - apply StronglySorted_inv in Hs. destruct Hs as [Hs Hd].
    destruct (String.ltb date_str d) eqn:E.
    + exists [], (d :: rest). cbn [app List.length].
      repeat split; [lia | constructor |].
      constructor; [now apply ltb_asym|].
      eapply Forall_impl; [|exact Hd]. intros x Hx.
      apply ltb_asym. eapply ltb_trans; eassumption.
    + destruct (IH (S i) Hs) as [lo [hi [Hsplit [Hpos [Hlo Hhi]]]]].
      { intro Hin. apply Hnotin. now right. }
      exists (d :: lo), hi. cbn [app List.length]. subst rest.
      repeat split; [rewrite Hpos; lia | | exact Hhi].
      constructor; [|exact Hlo].
      apply ltb_trichotomy; [exact E|].
      intro Heq. apply Hnotin. now left.
Qed.

Lemma ascending_last_greatest (lo hi : list string) (p : string) :
  ascending (lo ++ hi) ->
  nth_error (lo ++ hi) (List.length lo - 1) = Some p ->
  lo <> [] ->
  In p lo /\ forall d, In d lo -> String.leb d p = true.
Proof.
  revert p. induction lo as [|x lo IH]; intros p Hs Hnth Hne; [congruence|].
  cbn [app] in Hs. apply StronglySorted_inv in Hs. destruct Hs as [Hs Hx].
  destruct lo as [|y lo].
  - cbn in Hnth. inversion Hnth; subst p. split; [now left|].
    intros d [<- | []]. apply leb_refl.
  - cbn [List.length] in Hnth.
    replace (S (S (List.length lo)) - 1)%nat with (S (List.length lo)) in Hnth
      by lia.
    cbn [app nth_error] in Hnth.
    destruct (IH p Hs) as [Hin Hmax].
    + cbn [List.length app]. replace (S (List.length lo) - 1)%nat
        with (List.length lo) by lia. exact Hnth.
    + discriminate.
    + split; [now right|].
      intros d [<- | Hd]; [|now apply Hmax].
      apply ltb_leb. rewrite Forall_forall in Hx. apply Hx.
      apply in_or_app. now left.
Qed.

(** X11. On a calendar in strictly ascending order
    [previous_trading_day] returns the latest date strictly before
    [date_str], whether or not [date_str] is itself a trading date, and
    raises exactly when no date of the calendar precedes it (in particular
    on the empty calendar). *)
Theorem previous_trading_day_latest_before :
  forall (dates : list string) (date_str : string),
    ascending dates ->
    match previous_trading_day dates date_str with
    | Some p =>
        In p dates
        /\ String.ltb p date_str = true
        /\ (forall d, In d dates -> String.ltb d date_str = true ->
                      String.leb d p = true)
    | None => forall d, In d dates -> String.ltb d date_str = false
    end.
Proof.
  intros dates date_str Hs. unfold previous_trading_day.
  assert (Hsplit :
    exists lo hi,
      dates = lo ++ hi
      /\ match index_from date_str dates 0 with
         | Some i => i
         | None => insert_position date_str dates 0
         end = List.length lo
      /\ Forall (fun x => String.ltb x date_str = true) lo
      /\ Forall (fun x => String.ltb x date_str = false) hi).
  { destruct (index_from date_str dates 0) as [i|] eqn:E.
    - destruct (index_from_split _ _ _ _ Hs E) as [lo [hi [H1 [H2 H3]]]].
      exists lo, hi. repeat split; tauto.
    - apply index_from_none in E.
      destruct (insert_position_split date_str dates 0 Hs E)
        as [lo [hi [H1 [H2 H3]]]].
      exists lo, hi. repeat split; tauto. }
  destruct Hsplit as [lo [hi [Hdates [Hidx [Hlo Hhi]]]]].
  rewrite Hidx. subst dates.
  destruct lo as [|x lo].
  - cbn [List.length Nat.eqb app]. intros d Hd.
    rewrite Forall_forall in Hhi. now apply Hhi.
  - cbn [List.length Nat.eqb].
    destruct (nth_error ((x :: lo) ++ hi) (S (List.length lo) - 1)) as [p|] eqn:En.
    + destruct (ascending_last_greatest (x :: lo) hi p Hs En) as [Hin Hmax];
        [discriminate|].
      split; [apply in_or_app; now left|]. split.
      * rewrite Forall_forall in Hlo. now apply Hlo.
      * intros d Hd Hlt. apply in_app_or in Hd. destruct Hd as [Hd | Hd].
        -- now apply Hmax.
        -- rewrite Forall_forall in Hhi. rewrite (Hhi d Hd) in Hlt. discriminate.
    + exfalso. apply nth_error_None in En. rewrite length_app in En.
      cbn [List.length] in En. lia.
Qed.

Lemma previous_trading_day_latest_before_witness :
  ascending CalendarExample.trading_dates
  /\ match previous_trading_day CalendarExample.trading_dates "2025-01-20" with
     | Some p =>
         In p CalendarExample.trading_dates
         /\ String.ltb p "2025-01-20" = true
         /\ (forall d, In d CalendarExample.trading_dates ->
                       String.ltb d "2025-01-20" = true ->
                       String.leb d p = true)
     | None =>
         forall d, In d CalendarExample.trading_dates ->
                   String.ltb d "2025-01-20" = false
     end.
Proof.
  assert (Hs : ascending CalendarExample.trading_dates).
  { unfold ascending, CalendarExample.trading_dates. repeat constructor. }
  split; [exact Hs|].
  exact (previous_trading_day_latest_before CalendarExample.trading_dates
           "2025-01-20" Hs).
Defined.

End PreviousDay.

(** ** The rebalance schedule *)

Section BuildSchedule.
Import Schedule.

Lemma anchor_index_spec (anchor : string) (valid_days : list string) (i : nat) :
  match anchor_index anchor valid_days i with
  | Some a =>
      (i <= a)%nat
      /\ (exists d, nth_error valid_days (a - i) = Some d
                    /\ String.leb anchor d = true)
      /\ (forall j d, (j < a - i)%nat -> nth_error valid_days j = Some d ->
                      String.leb anchor d = false)
  | None => forall d, In d valid_days -> String.leb anchor d = false
  end.
Proof.
  revert i. induction valid_days as [|x rest IH]; intro i; cbn [anchor_index].
  - intros d [].
  - destruct (String.leb anchor x) eqn:E.
    + split; [lia|]. split.
      * exists x. rewrite Nat.sub_diag. now split.
      * intros j d Hj. lia.
    + specialize (IH (S i)).
      destruct (anchor_index anchor rest (S i)) as [a|].
      * destruct IH as [Hle [[d [Hd Hleb]] Hbefore]].
        split; [lia|]. split.
        -- exists d. replace (a - i)%nat with (S (a - S i)) by lia.
           now split.
        -- intros j d' Hj Hnth. destruct j as [|j].
           ++ cbn in Hnth. inversion Hnth; subst d'. exact E.
           ++ cbn in Hnth. apply (Hbefore j d'); [lia | exact Hnth].
      * intros d [<- | Hd]; [exact E | now apply IH].
Qed.

Lemma every_cadence_nth (valid_days : list string) (cadence : nat) :
  (1 <= cadence)%nat ->
  forall fuel i k,
    (List.length valid_days <= fuel + i)%nat ->
    nth_error (every_cadence fuel valid_days cadence i) k
    = nth_error valid_days (i + k * cadence).
Proof.
  intros Hc. induction fuel as [|fuel IH]; intros i k Hfuel;
    cbn [every_cadence].
  - rewrite nth_error_nil. symmetry. apply nth_error_None. nia.
  - destruct (nth_error valid_days i) as [d|] eqn:E.
    + destruct k as [|k].
      * cbn [nth_error]. now rewrite Nat.mul_0_l, Nat.add_0_r.
      * cbn [nth_error]. rewrite IH by lia. f_equal. lia.
    + rewrite nth_error_nil. symmetry. apply nth_error_None.
      apply nth_error_None in E. nia.
Qed.

(** X12. With a cadence of at least one day [_build_schedule] ends and
    returns, for every [k], the valid day at position
    [anchor_idx + k * cadence_days] (and stops where that position leaves
    the calendar), where [anchor_idx] is the position of the first valid
    day on or after the anchor: that day is [>= anchor] and every earlier
    valid day is before the anchor.  When no valid day is on or after the
    anchor the schedule is empty. *)
Theorem build_schedule_every_cadence :
  forall (valid_days : list string) (anchor : string) (cadence_days : Z),
    (1 <= cadence_days)%Z ->
    exists dates,
      build_schedule valid_days anchor cadence_days = Some dates
      /\ match anchor_index anchor valid_days 0 with
         | Some anchor_idx =>
             (forall k,
                 nth_error dates k
                 = nth_error valid_days
                     (anchor_idx + k * Z.to_nat cadence_days))
             /\ (exists d, nth_error valid_days anchor_idx = Some d
                           /\ nth_error dates 0 = Some d
                           /\ String.leb anchor d = true)
             /\ (forall j d, (j < anchor_idx)%nat ->
                             nth_error valid_days j = Some d ->
                             String.leb anchor d = false)
         | None =>
             dates = []
             /\ forall d, In d valid_days -> String.leb anchor d = false
         end.
Proof.
  intros valid_days anchor cadence_days Hc.
  pose proof (anchor_index_spec anchor valid_days 0) as Hspec.
  unfold build_schedule.
  destruct valid_days as [|x rest] eqn:Edays.
  - exists []. split; [reflexivity|]. cbn. split; [reflexivity | intros d []].
  - rewrite <- Edays in *.
    destruct (anchor_index anchor valid_days 0) as [a|] eqn:Ea.
    + destruct (Z.leb_spec cadence_days 0) as [Hle | _]; [lia|].
      eexists. split; [reflexivity|].
      destruct Hspec as [_ [[d [Hd Hleb]] Hbefore]].
      rewrite Nat.sub_0_r in Hd.
      assert (Hnth : forall k,
        nth_error (every_cadence (List.length valid_days) valid_days
                     (Z.to_nat cadence_days) a) k
        = nth_error valid_days (a + k * Z.to_nat cadence_days)).
      { intro k. apply every_cadence_nth; lia. }
      split; [exact Hnth|]. split.
      * exists d. split; [exact Hd|]. split; [|exact Hleb].
        rewrite Hnth, Nat.mul_0_l, Nat.add_0_r. exact Hd.
      * intros j d' Hj. apply Hbefore. lia.
    + exists []. split; [reflexivity|]. split; [reflexivity | exact Hspec].
Qed.

Lemma build_schedule_every_cadence_witness :
  (1 <= 2)%Z
  /\ build_schedule CalendarExample.trading_dates "2025-01-07" 2
     = Some ["2025-01-07"; "2025-01-21"]%string.
Proof.
  split; [lia|].
  destruct (build_schedule_every_cadence CalendarExample.trading_dates
              "2025-01-07" 2 ltac:(lia)) as [dates [Hrun _]].
  rewrite Hrun. vm_compute in Hrun. congruence.
Defined.

End BuildSchedule.

(** ** Executing the sized trades *)

Section RunnerFacts.
Import Portfolio Valuation.

Lemma affordable_spend (l px : Q) (buy_qty delta : Z) :
  0 < px ->
  buy_qty = Z.min delta (py_int (py_floordiv l px)) ->
  inject_Z buy_qty * px <= l.
Proof.
  intros Hpx Hb.
  pose proof (floor_spend l px Hpx) as Hfloor. unfold atw_target_qty in Hfloor.
  assert (Hle : (buy_qty <= py_int (py_floordiv l px))%Z) by lia.
  rewrite Zle_Qle in Hle.
  apply (Qmult_le_compat_r _ _ px) in Hle; [|lra]. lra.
Qed.

Lemma execute_trade_invariant (d : Runner.data) (e : string * Pipeline.trade) :
  Dict.wf (Runner.portfolio d) ->
  long_only (Runner.portfolio d) ->
  0 <= Runner.liquid d ->
  Dict.wf (Runner.portfolio (Runner.execute_trade d e))
  /\ long_only (Runner.portfolio (Runner.execute_trade d e))
  /\ 0 <= Runner.liquid (Runner.execute_trade d e).
Proof.
  intros Hwf Hlo Hliq. destruct e as [sym tr]. unfold Runner.execute_trade.
  cbn [fst snd].
  pose proof (long_only_qty (Runner.portfolio d) sym Hlo) as Hcur.
  destruct (Qle_bool (Pipeline.price tr) 0) eqn:Epx; [tauto|].
  apply Qle_bool_false in Epx.
  set (cur := qty_of (Dict.get (Runner.portfolio d) sym)) in *.
  set (tgt := Z.max 0 (Pipeline.target_qty tr)).
  destruct (0 <? tgt - cur)%Z eqn:Ebuy.
  - apply Z.ltb_lt in Ebuy.
    destruct (Z.min (tgt - cur)
                (py_int (py_floordiv (Runner.liquid d) (Pipeline.price tr)))
              <=? 0)%Z eqn:Eaff; cbn [Runner.portfolio Runner.liquid].
    + split; [now apply wf_set|]. split; [|exact Hliq].
      apply long_only_set; [exact Hlo | cbn; lia].
    + apply Z.leb_gt in Eaff.
      split; [now apply wf_set|]. split.
      * apply long_only_set; [exact Hlo | cbn; lia].
      * pose proof (affordable_spend (Runner.liquid d) (Pipeline.price tr) _
                      (tgt - cur) Epx eq_refl) as Hspend.
        lra.
  - destruct (tgt - cur <? 0)%Z eqn:Esell; cbn [Runner.portfolio Runner.liquid].
    + apply Z.ltb_lt in Esell.
      split; [now apply wf_set|]. split.
      * apply long_only_set; [exact Hlo | cbn; lia].
      * assert (Hs : (0 <= Z.min (Z.abs (tgt - cur)) (Z.max 0 cur))%Z) by lia.
        rewrite Zle_Qle in Hs.
        apply (Qmult_le_compat_r _ _ (Pipeline.price tr)) in Hs; [|lra].
        change (inject_Z 0) with 0 in Hs. lra.
    + split; [now apply wf_set|]. split; [|exact Hliq].
      apply long_only_set; [exact Hlo | cbn; lia].
Qed.

Lemma execute_trades_invariant (trades : Dict.t Pipeline.trade)
  (decisions : Dict.t string) (d : Runner.data) :
  Dict.wf (Runner.portfolio d) ->
  long_only (Runner.portfolio d) ->
  0 <= Runner.liquid d ->
  Dict.wf (Runner.portfolio (Runner._execute_trades_long_only trades decisions d))
  /\ long_only
       (Runner.portfolio (Runner._execute_trades_long_only trades decisions d))
  /\ 0 <= Runner.liquid (Runner._execute_trades_long_only trades decisions d).
Proof.
  unfold Runner._execute_trades_long_only. revert d.
  induction trades as [|e trades IH]; intros d Hwf Hlo Hliq; cbn [fold_left].
  - tauto.
  - destruct (execute_trade_invariant d e Hwf Hlo Hliq) as [H1 [H2 H3]].
    now apply IH.
Qed.

Lemma run_day_solvent (d : Runner.data) (dy : Runner.day) :
  Dict.wf (Runner.portfolio d) ->
  long_only (Runner.portfolio d) ->
  0 <= Runner.liquid d ->
  Dict.wf (Runner.portfolio (Runner.run_day d dy))
  /\ long_only (Runner.portfolio (Runner.run_day d dy))
  /\ 0 <= Runner.liquid (Runner.run_day d dy).
Proof.
  intros Hwf Hlo Hliq.
  destruct dy as [trades decisions closes | closes];
    cbn [Runner.run_day Runner.reload Runner._snapshot Portfolio.portfolio
         Portfolio.liquid Runner.portfolio Runner.liquid].
  - destruct (execute_trades_invariant trades decisions d Hwf Hlo Hliq)
      as [H1 [H2 H3]].
    split; [now apply wf_reprice|]. split; [now apply long_only_reprice|].
    exact H3.
  - split; [now apply wf_reprice|]. split; [now apply long_only_reprice|].
    exact Hliq.
Qed.

(** X13. [_execute_trades_long_only] never overdraws and never shorts:
    from a long-only book with cash [>= 0], whatever trades it is handed,
    the book it writes is long-only with cash [>= 0] (a buy is cut to what
    the cash affords, a sale to what is held); and so is the book after
    any sequence of days of the loop of [main]. *)
Theorem execute_trades_long_only_solvent :
  forall (d : Runner.data),
    Dict.wf (Runner.portfolio d) ->
    long_only (Runner.portfolio d) ->
    0 <= Runner.liquid d ->
    (forall trades decisions,
        let d' := Runner._execute_trades_long_only trades decisions d in
        Dict.wf (Runner.portfolio d')
        /\ long_only (Runner.portfolio d')
        /\ 0 <= Runner.liquid d')
    /\ (forall days,
           let d' := Runner.run_days d days in
           Dict.wf (Runner.portfolio d')
           /\ long_only (Runner.portfolio d')
           /\ 0 <= Runner.liquid d').
Proof.
  intros d Hwf Hlo Hliq. split.
  - intros trades decisions. now apply execute_trades_invariant.
  - intros days. cbv zeta. unfold Runner.run_days. revert d Hwf Hlo Hliq.
    induction days as [|dy days IH]; intros d Hwf Hlo Hliq; cbn [fold_left].
    + tauto.
    + destruct (run_day_solvent d dy Hwf Hlo Hliq) as [H1 [H2 H3]].
      now apply IH.
Qed.

Lemma entry_value_listed (prices : Dict.t Q) (sym : string) (px : Q)
  (h : holding) :
  Dict.get prices sym = Some px ->
  entry_value prices (sym, h) = inject_Z (totalAmount h) * px.
Proof.
  intro H. unfold entry_value, priced_at, Dict.get_default. cbn [fst snd].
  now rewrite H.
Qed.

Lemma valuation_set_listed (prices : Dict.t Q) (p : Dict.t holding)
  (sym : string) (px : Q) (h : holding) :
  Dict.get prices sym = Some px ->
  valuation prices (Dict.set p sym h)
  == valuation prices p
     + (inject_Z (totalAmount h) - inject_Z (qty_of (Dict.get p sym))) * px.
Proof.
  intro Hpx. destruct (Dict.get p sym) as [h0|] eqn:E; cbn [qty_of].
  - pose proof (valuation_set_present prices p sym h0 h E) as H.
    rewrite !(entry_value_listed prices sym px) in H by exact Hpx. lra.
  - apply get_none_notin in E.
    rewrite (valuation_set_absent prices p sym h E).
    rewrite (entry_value_listed prices sym px) by exact Hpx.
    change (inject_Z 0) with 0. ring.
Qed.

Lemma execute_trade_self_financing (prices : Dict.t Q) (d : Runner.data)
  (sym : string) (tr : Pipeline.trade) :
  (0 < Pipeline.price tr -> Dict.get prices sym = Some (Pipeline.price tr)) ->
  Runner.liquid (Runner.execute_trade d (sym, tr))
  + valuation prices (Runner.portfolio (Runner.execute_trade d (sym, tr)))
  == Runner.liquid d + valuation prices (Runner.portfolio d).
Proof.
  intro Hlisted. unfold Runner.execute_trade. cbn [fst snd].
  destruct (Qle_bool (Pipeline.price tr) 0) eqn:Epx; [reflexivity|].
  apply Qle_bool_false in Epx. specialize (Hlisted Epx).
  set (cur := qty_of (Dict.get (Runner.portfolio d) sym)).
  set (tgt := Z.max 0 (Pipeline.target_qty tr)).
  destruct (0 <? tgt - cur)%Z.
  - destruct (Z.min (tgt - cur)
                (py_int (py_floordiv (Runner.liquid d) (Pipeline.price tr)))
              <=? 0)%Z; cbn [Runner.portfolio Runner.liquid];
      rewrite (valuation_set_listed prices _ sym _ _ Hlisted);
      cbn [totalAmount]; fold cur.
    + ring.
    + rewrite inject_Z_plus. ring.
  - destruct (tgt - cur <? 0)%Z; cbn [Runner.portfolio Runner.liquid];
      rewrite (valuation_set_listed prices _ sym _ _ Hlisted);
      cbn [totalAmount]; fold cur.
    + rewrite inject_Z_sub. ring.
    + ring.
Qed.

Lemma execute_trades_value (prices : Dict.t Q)
  (trades : Dict.t Pipeline.trade) (d : Runner.data) :
  Runner.traded_at prices trades ->
  Runner.liquid (fold_left Runner.execute_trade trades d)
  + valuation prices (Runner.portfolio (fold_left Runner.execute_trade trades d))
  == Runner.liquid d + valuation prices (Runner.portfolio d).
Proof.
  unfold Runner.traded_at. revert d.
  induction trades as [|[sym tr] trades IH]; intros d Hat; cbn [fold_left].
  - reflexivity.
  - rewrite IH.
    + apply execute_trade_self_financing. intro Hpx. apply (Hat sym tr);
        [now left | exact Hpx].
    + intros s t Hin. apply Hat. now right.
Qed.

(** X14. The executor is self-financing: valued at the prices the trades
    are made at (a ticker not traded at its last price), cash plus
    positions are worth the same after [_execute_trades_long_only] as
    before. *)
Theorem execute_trades_self_financing :
  forall (prices : Dict.t Q) (trades : Dict.t Pipeline.trade)
         (decisions : Dict.t string) (d : Runner.data),
    Runner.traded_at prices trades ->
    let d' := Runner._execute_trades_long_only trades decisions d in
    Runner.liquid d' + valuation prices (Runner.portfolio d')
    == Runner.liquid d + valuation prices (Runner.portfolio d).
Proof.
  intros prices trades decisions d Hat. cbv zeta.
  unfold Runner._execute_trades_long_only. now apply execute_trades_value.
Qed.

Lemma runner_example_wf : Dict.wf (Runner.portfolio RunnerExample.book).
Proof.
  unfold Dict.wf. cbn. constructor; [tauto | constructor].
Qed.

Lemma runner_example_long_only : long_only (Runner.portfolio RunnerExample.book).
Proof.
  unfold long_only, Dict.values, RunnerExample.book.
  cbn [map snd Runner.portfolio].
  constructor; [cbn [totalAmount]; lia | constructor].
Qed.

Lemma execute_trades_long_only_solvent_witness :
  0 <= Runner.liquid
         (Runner._execute_trades_long_only RunnerExample.trades []
            RunnerExample.book).
Proof.
  assert (Hliq : 0 <= Runner.liquid RunnerExample.book)
    by (cbn; discriminate).
  apply (execute_trades_long_only_solvent RunnerExample.book
           runner_example_wf runner_example_long_only Hliq).
Defined.

Lemma runner_example_traded_at :
  Runner.traded_at RunnerExample.prices RunnerExample.trades.
Proof.
  intros sym tr Hin Hpx. cbn in Hin.
  destruct Hin as [Heq | [Heq | []]]; inversion Heq; subst; reflexivity.
Qed.

Lemma execute_trades_self_financing_witness :
  let d' :=
    Runner._execute_trades_long_only RunnerExample.trades []
      RunnerExample.book in
  Runner.liquid d' + valuation RunnerExample.prices (Runner.portfolio d')
  == Runner.liquid RunnerExample.book
     + valuation RunnerExample.prices (Runner.portfolio RunnerExample.book).
Proof.
  exact (execute_trades_self_financing RunnerExample.prices
           RunnerExample.trades [] RunnerExample.book
           runner_example_traded_at).
Defined.

Lemma execute_trade_frame (d : Runner.data) (e : string * Pipeline.trade)
  (sym : string) :
  sym <> fst e ->
  Dict.get (Runner.portfolio (Runner.execute_trade d e)) sym
  = Dict.get (Runner.portfolio d) sym.
Proof.
  intro Hne. unfold Runner.execute_trade.
  repeat match goal with
         | |- context [if ?c then _ else _] => destruct c
         end;
    cbn [Runner.portfolio]; try reflexivity; now apply get_set_other.
Qed.

Lemma execute_trade_unpriced (d : Runner.data) (e : string * Pipeline.trade) :
  Pipeline.price (snd e) <= 0 -> Runner.execute_trade d e = d.
Proof.
  intro H. unfold Runner.execute_trade.
  destruct (Qle_bool (Pipeline.price (snd e)) 0) eqn:E; [reflexivity|].
  apply Qle_bool_false in E. lra.
Qed.

Lemma execute_trades_frame (trades : Dict.t Pipeline.trade) (d : Runner.data)
  (sym : string) :
  (forall tr, In (sym, tr) trades -> Pipeline.price tr <= 0) ->
  Dict.get (Runner.portfolio (fold_left Runner.execute_trade trades d)) sym
  = Dict.get (Runner.portfolio d) sym.
Proof.
  revert d. induction trades as [|[s tr] trades IH]; intros d H;
    cbn [fold_left]; [reflexivity|].
  rewrite IH by (intros tr' Hin; apply H; now right).
  destruct (string_dec sym s) as [Heq | Hne].
  - subst s. rewrite execute_trade_unpriced; [reflexivity|].
    apply H. now left.
  - now apply execute_trade_frame.
Qed.

Lemma execute_trade_tracks (d : Runner.data) (sym : string)
  (tr : Pipeline.trade) :
  0 < Pipeline.price tr ->
  let cur := qty_of (Dict.get (Runner.portfolio d) sym) in
  let tgt := Z.max 0 (Pipeline.target_qty tr) in
  let after := Dict.get (Runner.portfolio (Runner.execute_trade d (sym, tr))) sym in
  last_price_of after = Pipeline.price tr
  /\ ((tgt <= cur)%Z -> qty_of after = tgt)
  /\ ((cur <= tgt)%Z ->
      qty_of after
      = (cur + Z.max 0 (Z.min (tgt - cur)
                          (Qfloor (Runner.liquid d / Pipeline.price tr))))%Z).
Proof.
  intro Hpx. cbv zeta. unfold Runner.execute_trade. cbn [fst snd].
  destruct (Qle_bool (Pipeline.price tr) 0) eqn:Epx.
  { apply Qle_bool_iff in Epx. lra. }
  unfold py_floordiv. rewrite py_int_inject.
  set (cur := qty_of (Dict.get (Runner.portfolio d) sym)).
  set (tgt := Z.max 0 (Pipeline.target_qty tr)).
  set (aff := Qfloor (Runner.liquid d / Pipeline.price tr)).
  destruct (0 <? tgt - cur)%Z eqn:Ebuy.
  - apply Z.ltb_lt in Ebuy.
    destruct (Z.min (tgt - cur) aff <=? 0)%Z eqn:Eaff;
      cbn [Runner.portfolio]; rewrite get_set_same;
      cbn [last_price_of qty_of last_price totalAmount].
    + apply Z.leb_le in Eaff. repeat split; lia.
    + apply Z.leb_gt in Eaff. repeat split; lia.
  - apply Z.ltb_ge in Ebuy.
    destruct (tgt - cur <? 0)%Z eqn:Esell;
      cbn [Runner.portfolio]; rewrite get_set_same;
      cbn [last_price_of qty_of last_price totalAmount].
    + apply Z.ltb_lt in Esell. repeat split; lia.
    + apply Z.ltb_ge in Esell. repeat split; lia.
Qed.

(** X15. What [_execute_trades_long_only] does to each ticker.  A ticker
    with no trade priced above 0 keeps its entry untouched.  A ticker
    traded at a price above 0 is marked at that price; its quantity is
    brought to [max(0, target_qty)] exactly when that is a sale or no
    change, and otherwise moves from the held quantity towards the target
    without passing it (the buy is cut to what the cash affords at that
    point). *)
Theorem execute_trades_follow_targets :
  forall (trades : Dict.t Pipeline.trade) (decisions : Dict.t string)
         (d : Runner.data),
    Dict.wf trades ->
    let d' := Runner._execute_trades_long_only trades decisions d in
    (forall sym,
        (forall tr, In (sym, tr) trades -> Pipeline.price tr <= 0) ->
        Dict.get (Runner.portfolio d') sym = Dict.get (Runner.portfolio d) sym)
    /\ (forall sym tr,
           In (sym, tr) trades ->
           0 < Pipeline.price tr ->
           let cur := qty_of (Dict.get (Runner.portfolio d) sym) in
           let tgt := Z.max 0 (Pipeline.target_qty tr) in
           let after := Dict.get (Runner.portfolio d') sym in
           last_price_of after = Pipeline.price tr
           /\ ((tgt <= cur)%Z -> qty_of after = tgt)
           /\ ((cur <= tgt)%Z -> (cur <= qty_of after <= tgt)%Z)).
Proof.
  intros trades decisions d Hwf. cbv zeta.
  unfold Runner._execute_trades_long_only. split.
  - intros sym H. now apply execute_trades_frame.
  - revert d. unfold Dict.wf, Dict.keys in Hwf.
    induction trades as [|[s0 tr0] trades IH]; intros d sym tr Hin Hpx;
      [contradiction|].
    cbn [map fst] in Hwf. apply NoDup_cons_iff in Hwf.
    destruct Hwf as [Hnotin Hwf]. cbn [fold_left].
    destruct Hin as [Heq | Hin].
    + inversion Heq; subst s0 tr0.
      rewrite execute_trades_frame.
      * destruct (execute_trade_tracks d sym tr Hpx) as [H1 [H2 H3]].
        split; [exact H1|]. split; [exact H2|].
        intro Hle. rewrite (H3 Hle). lia.
      * intros tr' Hin'. exfalso. apply Hnotin.
        change sym with (fst (sym, tr')). now apply in_map.
    + assert (Hne : sym <> s0).
      { intro Heq. subst s0. apply Hnotin.
        change sym with (fst (sym, tr)). now apply in_map. }
      specialize (IH Hwf (Runner.execute_trade d (s0, tr0)) sym tr Hin Hpx).
      rewrite (execute_trade_frame d (s0, tr0) sym Hne) in IH. exact IH.
Qed.

Lemma execute_trades_follow_targets_witness :
  qty_of (Dict.get
            (Runner.portfolio
               (Runner._execute_trades_long_only RunnerExample.trades []
                  RunnerExample.book)) "AAPL")
  = 6%Z.
Proof.
  assert (Hwf : Dict.wf RunnerExample.trades).
  { unfold Dict.wf. cbn. constructor.
    - intros [H | []]. discriminate.
    - constructor; [tauto | constructor]. }
  destruct (execute_trades_follow_targets RunnerExample.trades []
              RunnerExample.book Hwf) as [_ H].
  destruct (H "AAPL"%string (Pipeline.mkTrade (-4) 6 10 110)) as [_ [Hsell _]].
  - now left.
  - reflexivity.
  - apply Hsell. cbn. lia.
Defined.

(** X16. How the sizing and the execution compose, for one ticker priced
    above 0.  A SELL decision on a held position is executed in full: the
    position is closed, its entry price is reset and the cash grows by
    quantity times price.  A BUY or HOLD decision on a flat ticker whose
    target value is below one share is sized as a purchase of
    [max(min_lot, 1)] shares, but the executor reads [target_qty] (0), not
    [delta_shares]: nothing is bought and the cash is unchanged. *)
Theorem sized_trade_execution :
  forall (d : Runner.data) (sym decision : string) (target_value px : Q)
         (min_lot : Z),
    0 < px ->
    let cur := qty_of (Dict.get (Runner.portfolio d) sym) in
    let tr := Pipeline.size_trade decision target_value px cur min_lot in
    let d' := Runner.execute_trade d (sym, tr) in
    let after := Dict.get (Runner.portfolio d') sym in
    (decision = "SELL"%string -> (0 < cur)%Z ->
       Pipeline.delta_shares tr = (- cur)%Z
       /\ after = Some (mkHolding 0 px 0)
       /\ Runner.liquid d' == Runner.liquid d + inject_Z cur * px)
    /\ ((decision = "BUY"%string \/ decision = "HOLD"%string) ->
        cur = 0%Z -> target_value < px ->
        Pipeline.delta_shares tr = Z.max min_lot 1
        /\ qty_of after = 0%Z
        /\ Runner.liquid d' = Runner.liquid d).
Proof.
  intros d sym decision target_value px min_lot Hpx. cbv zeta.
  set (cur := qty_of (Dict.get (Runner.portfolio d) sym)).
  assert (Epx : Qle_bool px 0 = false) by (apply Qle_bool_false; exact Hpx).
  split.
  - intros Hdec Hcur. subst decision.
    unfold Pipeline.size_trade, Runner.execute_trade.
    cbn [fst snd Pipeline.price Pipeline.target_qty Pipeline.delta_shares
         String.eqb Ascii.eqb Bool.eqb].
    rewrite Epx.
    replace (0 <? cur)%Z with true by (symmetry; apply Z.ltb_lt; lia).
    fold cur. change (Z.max 0 0) with 0%Z.
    replace (0 <? 0 - cur)%Z with false by (symmetry; apply Z.ltb_ge; lia).
    replace (0 - cur <? 0)%Z with true by (symmetry; apply Z.ltb_lt; lia).
    cbn [Runner.portfolio Runner.liquid]. rewrite get_set_same.
    replace (Z.min (Z.abs (0 - cur)) (Z.max 0 cur)) with cur by lia.
    rewrite Z.sub_diag. cbn [Z.eqb]. repeat split; reflexivity.
  - intros Hdec Hcur Htv.
    assert (Htq : Z.max 0 (py_int (py_floordiv target_value px)) = 0%Z).
    { unfold py_floordiv. rewrite py_int_inject.
      assert (H1 : target_value / px < 1).
      { apply Qlt_shift_div_r; [exact Hpx | lra]. }
      assert (H2 : (Qfloor (target_value / px) < 1)%Z).
      { destruct (Z_lt_le_dec (Qfloor (target_value / px)) 1) as [Hl | Hg];
          [exact Hl|].
        exfalso. rewrite Zle_Qle in Hg.
        pose proof (Qfloor_le (target_value / px)) as Hf.
        change (inject_Z 1) with 1 in Hg. lra. }
      lia. }
    unfold Pipeline.size_trade, Runner.execute_trade.
    cbn [fst snd Pipeline.price Pipeline.target_qty Pipeline.delta_shares].
    rewrite Epx. fold cur. rewrite Hcur, Htq.
    assert (Es : String.eqb decision "SELL" = false)
      by (destruct Hdec; subst decision; reflexivity).
    assert (Eb : String.eqb decision "BUY" || String.eqb decision "HOLD" = true)
      by (destruct Hdec; subst decision; reflexivity).
    rewrite Es, Eb. cbn [Z.ltb Z.compare Z.max Z.sub Z.opp Z.add].
    cbn [Runner.portfolio Runner.liquid]. rewrite get_set_same.
    cbn [qty_of totalAmount]. repeat split; lia.
Qed.

Lemma sized_trade_execution_witness :
  let tr := Pipeline.size_trade "BUY" 250 300 0 10 in
  Pipeline.delta_shares tr = 10%Z
  /\ qty_of (Dict.get
               (Runner.portfolio
                  (Runner.execute_trade RunnerExample.book ("MSFT"%string, tr)))
               "MSFT")
     = 0%Z.
Proof.
  assert (Hpx : 0 < 300) by reflexivity.
  destruct (sized_trade_execution RunnerExample.book "MSFT" "BUY" 250 300 10 Hpx)
    as [_ H].
  destruct H as [H1 [H2 _]];
    [now left | reflexivity | reflexivity |].
  split; [exact H1 | exact H2].
Defined.

Lemma net_liq_of_valuation (closes : Dict.t Q) (p : Dict.t holding) (l : Q) :
  Runner.net_liq_of l (reprice closes p) == l + valuation closes p.
Proof.
  unfold Runner.net_liq_of. rewrite market_value_acc.
  now rewrite market_value_reprice.
Qed.

(** X17. The snapshot of a day.  [_snapshot] reports as net liquidation
    (and as portfolio value and buying power) the cash plus every position
    at its closing price, a position without a close at its last price;
    it changes no quantity, no entry price and not the cash.  So a
    rebalance day whose trades are made at the closing prices reports the
    same net liquidation as the snapshot of the untraded book would. *)
Theorem snapshot_net_liquidation :
  forall (d : Runner.data) (closes : Dict.t Q),
    let s := Runner._snapshot d closes in
    (exists net_liq,
        net_liquidation s = Some net_liq
        /\ portfolio_value s = Some net_liq
        /\ buying_power s = Some net_liq
        /\ net_liq == Runner.liquid d + valuation closes (Runner.portfolio d)
        /\ forall trades decisions,
             Runner.traded_at closes trades ->
             exists net_liq',
               net_liquidation
                 (Runner._snapshot
                    (Runner._execute_trades_long_only trades decisions d)
                    closes)
               = Some net_liq'
               /\ net_liq' == net_liq)
    /\ cash s = Runner.liquid d
    /\ Runner.liquid (Runner.reload s) = Runner.liquid d
    /\ forall sym,
         qty_of (Dict.get (Runner.portfolio (Runner.reload s)) sym)
         = qty_of (Dict.get (Runner.portfolio d) sym)
         /\ entry_price_of (Dict.get (Runner.portfolio (Runner.reload s)) sym)
            = entry_price_of (Dict.get (Runner.portfolio d) sym)
         /\ last_price_of (Dict.get (Runner.portfolio (Runner.reload s)) sym)
            = match Dict.get closes sym with
              | Some px =>
                  match Dict.get (Runner.portfolio d) sym with
                  | Some _ => px
                  | None => 0
                  end
              | None => last_price_of (Dict.get (Runner.portfolio d) sym)
              end.
Proof.
  intros d closes. cbv zeta. unfold Runner._snapshot, Runner.reload.
  cbn [net_liquidation portfolio_value buying_power cash Portfolio.liquid
       Portfolio.portfolio Runner.portfolio Runner.liquid].
  split; [|split; [reflexivity | split; [reflexivity|]]].
  - eexists. split; [reflexivity|]. split; [reflexivity|].
    split; [reflexivity|]. split; [apply net_liq_of_valuation|].
    intros trades decisions Hat. eexists. split; [reflexivity|].
    rewrite !net_liq_of_valuation.
    unfold Runner._execute_trades_long_only.
    now apply execute_trades_value.
  - intro sym. rewrite reprice_get. unfold priced_at, Dict.get_default.
    destruct (Dict.get (Runner.portfolio d) sym) as [h|];
      destruct (Dict.get closes sym);
      cbn [option_map qty_of entry_price_of last_price_of totalAmount
           entry_price last_price];
      repeat split; reflexivity.
Qed.

Lemma snapshot_net_liquidation_witness :
  exists net_liq,
    net_liquidation
      (Runner._snapshot
         (Runner._execute_trades_long_only RunnerExample.trades []
            RunnerExample.book)
         RunnerExample.prices)
    = Some net_liq
    /\ net_liq == 2100.
Proof.
  destruct (snapshot_net_liquidation RunnerExample.book RunnerExample.prices)
    as [[net_liq [_ [_ [_ [Hval Hday]]]]] _].
  destruct (Hday RunnerExample.trades [] runner_example_traded_at)
    as [net_liq' [Hrun Heq]].
  exists net_liq'. split; [exact Hrun|].
  rewrite Heq, Hval. reflexivity.
Defined.

End RunnerFacts.

(** ** The sized targets against the value of the book *)

Section SizingFacts.
Import Portfolio Pipeline.

Lemma portfolio_value_of_pos (holdings : Dict.t holding) (total_cash : Q)
  (prices : Dict.t Q) (tickers : list string) :
  0 < portfolio_value_of holdings total_cash prices tickers.
Proof.
  unfold portfolio_value_of.
  destruct (Qle_bool _ 0) eqn:E; [reflexivity|].
  now apply Qle_bool_false in E.
Qed.

Lemma size_trade_target_cost (decision : string) (target_value px : Q)
  (curr_qty min_lot : Z) :
  0 < px -> 0 <= target_value ->
  let tr := size_trade decision target_value px curr_qty min_lot in
  (0 <= target_qty tr)%Z
  /\ price tr = px
  /\ inject_Z (target_qty tr) * px <= target_value.
Proof.
  intros Hpx Htv. unfold size_trade. cbn [target_qty price].
  destruct (String.eqb decision "SELL").
  - split; [lia|]. split; [reflexivity|].
    change (inject_Z 0) with 0. lra.
  - split; [lia|]. split; [reflexivity|].
    pose proof (floor_spend target_value px Hpx) as Hfloor.
    unfold atw_target_qty in Hfloor.
    destruct (Z.max_spec 0 (py_int (py_floordiv target_value px)))
      as [[_ ->] | [_ ->]]; [exact Hfloor|].
    change (inject_Z 0) with 0. lra.
Qed.

Lemma planned_value_set (trades : Dict.t trade) (t : string) (tr : trade) :
  ~ In t (Dict.keys trades) ->
  Sizing.planned_value (Dict.set trades t tr)
  == Sizing.planned_value trades + inject_Z (target_qty tr) * price tr.
Proof.
  intro H. rewrite (set_absent trades t tr H). unfold Sizing.planned_value.
  rewrite map_app, Qsum_app. cbn [map snd]. rewrite Qsum_cons, Qsum_nil. ring.
Qed.

Lemma size_loop_planned (decisions : Dict.t string) (holdings : Dict.t holding)
  (prices targets : Dict.t Q) (min_lot : Z) (tickers : list string) :
  NoDup tickers ->
  (forall t tv, Dict.get targets t = Some tv -> 0 <= tv) ->
  forall trades result,
    (forall t, In t tickers -> ~ In t (Dict.keys trades)) ->
    Forall (fun tr => (0 <= target_qty tr)%Z) (Dict.values trades) ->
    size_loop decisions holdings prices targets min_lot tickers trades
    = Some result ->
    Sizing.planned_value result
    <= Sizing.planned_value trades
       + Qsum (map (fun t => Dict.get_default targets t 0) tickers)
    /\ Forall (fun tr => (0 <= target_qty tr)%Z) (Dict.values result).
Proof.
  intros Hnd Htargets.
  induction tickers as [|t rest IH]; intros trades result Hfresh Hpos Hrun;
    cbn [size_loop] in Hrun.
  - inversion Hrun; subst result. cbn [map]. rewrite Qsum_nil.
    split; [lra | exact Hpos].
  - apply NoDup_cons_iff in Hnd. destruct Hnd as [Hnotin Hnd].
    cbn [map]. rewrite Qsum_cons.
    assert (Hdflt : 0 <= Dict.get_default targets t 0).
    { unfold Dict.get_default. destruct (Dict.get targets t) as [tv|] eqn:E;
        [exact (Htargets t tv E) | lra]. }
    destruct (Qle_bool (Dict.get_default prices t 0) 0) eqn:Epx.
    + destruct (IH Hnd trades result) as [H1 H2]; auto.
      { intros t' Hin. apply Hfresh. now right. }
      split; [lra | exact H2].
    + apply Qle_bool_false in Epx.
      destruct (Dict.get targets t) as [tv|] eqn:Et; [|discriminate].
      pose proof (Htargets t tv Et) as Htv.
      destruct (size_trade_target_cost (decision_of decisions t) tv
                  (Dict.get_default prices t 0) (qty_of (Dict.get holdings t))
                  min_lot Epx Htv) as [Hq [Hp Hcost]].
      set (tr := size_trade (decision_of decisions t) tv
                   (Dict.get_default prices t 0) (qty_of (Dict.get holdings t))
                   min_lot) in *.
      destruct (IH Hnd (Dict.set trades t tr) result) as [H1 H2];
        [| | exact Hrun |].
      * intros t' Hin Hkey. apply keys_set in Hkey.
        destruct Hkey as [-> | Hkey]; [contradiction|].
        apply (Hfresh t'); [now right | exact Hkey].
      * apply values_set; [exact Hpos | exact Hq].
      * split; [|exact H2].
        rewrite planned_value_set in H1 by (apply Hfresh; now left).
        rewrite Hp in H1.
        unfold Dict.get_default in *. rewrite Et. lra.
Qed.

Lemma targets_of_nodup (pv : Q) (l : list (string * Q)) (d0 : Dict.t Q) :
  NoDup (map fst l) ->
  (forall t, In t (map fst l) -> ~ In t (Dict.keys d0)) ->
  fold_left
    (fun d (e : string * Q) => Dict.set d (fst e) (py_max 0 (snd e) * pv)) l d0
  = d0 ++ map (fun e : string * Q => (fst e, py_max 0 (snd e) * pv)) l.
Proof.
  revert d0. induction l as [|[t x] l IH]; intros d0 Hnd Hfresh;
    cbn [fold_left map fst snd].
  - now rewrite app_nil_r.
  - cbn [map fst] in Hnd. apply NoDup_cons_iff in Hnd.
    destruct Hnd as [Hnotin Hnd].
    rewrite IH.
    + rewrite set_absent by (apply Hfresh; now left).
      now rewrite <- app_assoc.
    + exact Hnd.
    + intros t' Hin Hkey. apply keys_set in Hkey.
      destruct Hkey as [-> | Hkey]; [contradiction|].
      apply (Hfresh t'); [now right | exact Hkey].
Qed.

Lemma targets_sum (pv : Q) (tickers : list string) (w : list Q) :
  NoDup tickers ->
  List.length w = List.length tickers ->
  Qsum (map (fun t => Dict.get_default (targets_of tickers w pv) t 0) tickers)
  == Qsum (map (fun x => py_max 0 x * pv) w).
Proof.
  intros Hnd Hlen. unfold targets_of.
  rewrite targets_of_nodup.
  2: { rewrite combine_fst_covers by lia. exact Hnd. }
  2: { intros t _ []. }
  cbn [app]. revert w Hlen.
  induction tickers as [|t rest IH]; intros [|x w] Hlen;
    cbn [List.length] in Hlen; try discriminate.
  - reflexivity.
  - apply NoDup_cons_iff in Hnd. destruct Hnd as [Hnotin Hnd].
    cbn [combine map fst snd]. rewrite !Qsum_cons.
    unfold Dict.get_default at 1. cbn [Dict.get]. rewrite String.eqb_refl.
    rewrite <- (IH Hnd w) by lia.
    apply Qplus_comp; [reflexivity|].
    apply Qsum_map_ext_in. intros t' Hin.
    unfold Dict.get_default. cbn [Dict.get].
    destruct (String.eqb t' t) eqn:E; [|reflexivity].
    apply String.eqb_eq in E. subst t'. contradiction.
Qed.

Lemma targets_nonneg (pv : Q) (l : list (string * Q)) (d0 : Dict.t Q) :
  0 <= pv ->
  (forall t tv, Dict.get d0 t = Some tv -> 0 <= tv) ->
  forall t tv,
    Dict.get
      (fold_left
         (fun d (e : string * Q) => Dict.set d (fst e) (py_max 0 (snd e) * pv))
         l d0) t = Some tv ->
    0 <= tv.
Proof.
  intro Hpv. revert d0. induction l as [|[k x] l IH]; intros d0 Hd0 t tv;
    cbn [fold_left fst snd].
  - apply Hd0.
  - apply IH. intros t' tv'. destruct (string_dec t' k) as [-> | Hne].
    + rewrite get_set_same. intro H. inversion H; subst tv'.
      pose proof (py_max_lower 0 x). nra.
    + rewrite get_set_other by exact Hne. apply Hd0.
Qed.

Lemma clamped_sum (w : list Q) (pv : Q) :
  Forall (Qle 0) w ->
  Qsum (map (fun x => py_max 0 x * pv) w) == Qsum w * pv.
Proof.
  induction 1 as [|x w Hx Hw IH]; cbn [map].
  - rewrite Qsum_nil. ring.
  - rewrite !Qsum_cons, IH.
    assert (Hmax : py_max 0 x == x).
    { unfold py_max. destruct (Qltb 0 x) eqn:E; [reflexivity|].
      apply Qltb_false in E. lra. }
    rewrite Hmax. ring.
Qed.

(** X18. [size_positions] plans within the value of the book.  The
    portfolio value it sizes against is always positive (a book worth
    [<= 0] is sized as if worth 1,000,000).  For distinct tickers and
    long-only weights that sum to at most 1 (what [mean_variance_optimize]
    returns), sizing succeeds, no target quantity is negative, and the
    target quantities cost, at today's prices, no more than that
    portfolio value. *)
Theorem size_positions_plans_within_value :
  forall (tickers : list string) (w : list Q) (decisions : Dict.t string)
         (holdings : Dict.t holding) (total_cash : Q) (prices : Dict.t Q)
         (min_lot : Z),
    NoDup tickers ->
    List.length w = List.length tickers ->
    Forall (Qle 0) w ->
    Qsum w <= 1 ->
    let portfolio_value :=
      portfolio_value_of holdings total_cash prices tickers in
    0 < portfolio_value
    /\ exists trades,
         size_positions tickers w decisions holdings total_cash prices min_lot
         = Some trades
         /\ Forall (fun tr => (0 <= target_qty tr)%Z) (Dict.values trades)
         /\ Sizing.planned_value trades <= portfolio_value.
Proof.
  intros tickers w decisions holdings total_cash prices min_lot
    Hnd Hlen Hw Hsum. cbv zeta.
  pose proof (portfolio_value_of_pos holdings total_cash prices tickers) as Hpv.
  split; [exact Hpv|].
  unfold size_positions.
  destruct tickers as [|t0 rest] eqn:Et.
  - exists []. split; [reflexivity|]. split; [constructor|].
    unfold Sizing.planned_value. cbn [map]. rewrite Qsum_nil. lra.
  - rewrite <- Et in *.
    set (pv := portfolio_value_of holdings total_cash prices tickers) in *.
    destruct (size_loop_total decisions holdings prices
                (targets_of tickers w pv) min_lot tickers [])
      as [trades Hrun].
    { intros t Hin. unfold targets_of. apply targets_of_defined. left.
      rewrite combine_fst_covers by lia. exact Hin. }
    exists trades. split; [exact Hrun|].
    destruct (size_loop_planned decisions holdings prices
                (targets_of tickers w pv) min_lot tickers Hnd)
      with (trades := @nil (string * trade)) (result := trades)
      as [Hcost Hpos]; [| | | exact Hrun |].
    + unfold targets_of. apply targets_nonneg; [lra|]. intros t tv H.
      discriminate H.
    + intros t _ [].
    + constructor.
    + split; [exact Hpos|].
      rewrite (targets_sum pv tickers w Hnd Hlen) in Hcost.
      rewrite (clamped_sum w pv Hw) in Hcost.
      unfold Sizing.planned_value in Hcost at 2. cbn [map] in Hcost.
      rewrite Qsum_nil in Hcost. nra.
Qed.

Lemma size_positions_plans_within_value_witness :
  exists trades,
    size_positions ["AAPL"; "MSFT"]%string [3 # 5; 2 # 5] [] [] 1000
      RunnerExample.prices 1
    = Some trades
    /\ Sizing.planned_value trades <= 1000.
Proof.
  assert (Hnd : NoDup ["AAPL"; "MSFT"]%string).
  { constructor; [intros [H | []]; discriminate|].
    constructor; [tauto | constructor]. }
  assert (Hw : Forall (Qle 0) [3 # 5; 2 # 5]).
  { repeat constructor; discriminate. }
  assert (Hsum : Qsum [3 # 5; 2 # 5] <= 1) by (vm_compute; discriminate).
  destruct (size_positions_plans_within_value ["AAPL"; "MSFT"]%string
              [3 # 5; 2 # 5] [] [] 1000 RunnerExample.prices 1
              Hnd eq_refl Hw Hsum) as [_ [trades [Hrun [_ Hcost]]]].
  exists trades. split; [exact Hrun | exact Hcost].
Defined.

End SizingFacts.


(** ** Views from the last price move *)

Section ViewsFacts.
Import LinAlg Views.

Variables price_t_minus_1 price_t : Dict.t Q.

Lemma rets_from_spec (tickers : list string) (i0 : nat) (e : Q * nat) :
  In e (rets_from price_t_minus_1 price_t i0 tickers) ->
  (i0 <= snd e)%nat
  /\ exists t p1 p0,
       nth_error tickers (snd e - i0) = Some t
       /\ Dict.get price_t t = Some p1
       /\ Dict.get price_t_minus_1 t = Some p0
       /\ 0 < p0
       /\ fst e = p1 / p0 - 1.
Proof.
  revert i0. induction tickers as [|t rest IH]; intros i0 Hin;
    cbn [rets_from] in Hin; [contradiction|].
  assert (Hrest : In e (rets_from price_t_minus_1 price_t (S i0) rest) ->
                  (i0 <= snd e)%nat
                  /\ exists t0 p1 p0,
                       nth_error (t :: rest) (snd e - i0) = Some t0
                       /\ Dict.get price_t t0 = Some p1
                       /\ Dict.get price_t_minus_1 t0 = Some p0
                       /\ 0 < p0
                       /\ fst e = p1 / p0 - 1).
  { intro H. destruct (IH _ H) as [Hle [t0 [p1 [p0 [Hnth Hrest]]]]].
    split; [lia|]. exists t0, p1, p0. split; [|exact Hrest].
    replace (snd e - i0)%nat with (S (snd e - S i0)) by lia. exact Hnth. }
  destruct (Dict.get price_t t) as [p1|] eqn:E1; [|auto].
  destruct (Dict.get price_t_minus_1 t) as [p0|] eqn:E0; [|auto].
  destruct (Qltb 0 p0) eqn:Ep; [|auto].
  destruct Hin as [<- | Hin]; [|auto].
  cbn [fst snd]. split; [lia|]. exists t, p1, p0.
  rewrite Nat.sub_diag. apply Qltb_true in Ep. repeat split; auto.
Qed.

Lemma rets_from_indices (tickers : list string) (i0 : nat) :
  NoDup (map snd (rets_from price_t_minus_1 price_t i0 tickers)).
Proof.
  revert i0. induction tickers as [|t rest IH]; intro i0; cbn [rets_from].
  - constructor.
  - assert (Hfresh : ~ In i0 (map snd (rets_from price_t_minus_1 price_t
                                         (S i0) rest))).
    { intro Hin. apply in_map_iff in Hin. destruct Hin as [e [He Hin]].
      apply rets_from_spec in Hin. lia. }
    destruct (Dict.get price_t t); [|apply IH].
    destruct (Dict.get price_t_minus_1 t); [|apply IH].
    destruct (Qltb 0 q0); [|apply IH].
    cbn [map snd]. constructor; [exact Hfresh | apply IH].
Qed.

Lemma insert_pair_desc_perm (x : Q * nat) (l : list (Q * nat)) :
  Permutation (insert_pair_desc x l) (x :: l).
Proof.
  induction l as [|y l IH]; cbn [insert_pair_desc].
  - apply Permutation_refl.
  - destruct (pair_ltb y x).
    + apply Permutation_refl.
    + eapply perm_trans; [apply perm_skip, IH | apply perm_swap].
Qed.

Lemma sort_pairs_acc_perm (l acc : list (Q * nat)) :
  Permutation (fold_left (fun acc x => insert_pair_desc x acc) l acc) (l ++ acc).
Proof.
  revert acc. induction l as [|x l IH]; intro acc; cbn [fold_left app].
  - apply Permutation_refl.
  - eapply perm_trans; [apply IH|].
    eapply perm_trans; [apply Permutation_app_head, insert_pair_desc_perm|].
    apply Permutation_sym, Permutation_middle.
Qed.

Lemma sort_pairs_desc_perm (l : list (Q * nat)) :
  Permutation (sort_pairs_desc l) l.
Proof.
  unfold sort_pairs_desc. eapply perm_trans; [apply sort_pairs_acc_perm|].
  now rewrite app_nil_r.
Qed.

Lemma pair_ltb_true (a b : Q * nat) : pair_ltb a b = true -> fst a <= fst b.
Proof.
  unfold pair_ltb. intro H. apply orb_true_iff in H. destruct H as [H | H].
  - apply Qltb_true in H. lra.
  - apply andb_true_iff in H. destruct H as [H _].
    apply Qeq_bool_iff in H. lra.
Qed.

Lemma pair_ltb_false (a b : Q * nat) : pair_ltb a b = false -> fst b <= fst a.
Proof.
  unfold pair_ltb. intro H. apply orb_false_iff in H. destruct H as [H _].
  now apply Qltb_false in H.
Qed.

Lemma insert_pair_desc_sorted (x : Q * nat) (l : list (Q * nat)) :
  StronglySorted (fun a b => fst b <= fst a) l ->
  StronglySorted (fun a b => fst b <= fst a) (insert_pair_desc x l).
Proof.
  induction 1 as [|y l Hs IH Hy]; cbn [insert_pair_desc].
  - constructor; constructor.
  - destruct (pair_ltb y x) eqn:E.
    + apply pair_ltb_true in E. constructor.
      * constructor; assumption.
      * constructor; [exact E|].
        eapply Forall_impl; [|exact Hy]. cbv beta. intros z Hz. lra.
    + apply pair_ltb_false in E. constructor; [exact IH|].
      apply (Permutation_Forall (Permutation_sym (insert_pair_desc_perm x l))).
      constructor; assumption.
Qed.

Lemma sort_pairs_desc_sorted (l : list (Q * nat)) :
  StronglySorted (fun a b => fst b <= fst a) (sort_pairs_desc l).
Proof.
  unfold sort_pairs_desc.
  assert (H : forall acc,
             StronglySorted (fun a b => fst b <= fst a) acc ->
             StronglySorted (fun a b => fst b <= fst a)
               (fold_left (fun acc x => insert_pair_desc x acc) l acc)).
  { induction l as [|x l IH]; intros acc Hacc; cbn [fold_left];
      [exact Hacc|].
    apply IH. now apply insert_pair_desc_sorted. }
  apply H. constructor.
Qed.

Lemma sorted_prefix_dominates {A : Type} (R : A -> A -> Prop) (l : list A)
  (n : nat) :
  StronglySorted R l ->
  forall a b, In a (firstn n l) -> In b (skipn n l) -> R a b.
Proof.
  intro Hs. revert n. induction Hs as [|x l Hs IH Hx]; intros n a b Ha Hb.
  - rewrite firstn_nil in Ha. contradiction.
  - destruct n as [|n]; cbn [firstn skipn] in *; [contradiction|].
    destruct Ha as [<- | Ha].
    + rewrite Forall_forall in Hx. apply Hx.
      rewrite <- (firstn_skipn n l). apply in_or_app. now right.
    + now apply (IH n).
Qed.

Lemma py_take_firstn {A : Type} (k : Z) (l : list A) :
  exists n, py_take k l = firstn n l
            /\ ((0 <= k)%Z -> n = Z.to_nat k).
Proof.
  unfold py_take. destruct (0 <=? k)%Z eqn:E.
  - eexists. split; [reflexivity|]. reflexivity.
  - eexists. split; [reflexivity|]. apply Z.leb_gt in E. lia.
Qed.

Lemma dot_one_hot (x : vec) (i : nat) :
  (i < List.length x)%nat ->
  dot (one_hot (List.length x) i) x == nth i x 0.
Proof.
  unfold dot, one_hot.
  assert (H : forall (x : vec) (i0 i : nat),
             (i0 <= i < i0 + List.length x)%nat ->
             Qsum (map (fun p : Q * Q => fst p * snd p)
                     (combine (map (fun j => if Nat.eqb j i then 1 else 0)
                                 (seq i0 (List.length x))) x))
             == nth (i - i0) x 0).
  { clear. induction x as [|a x IH]; intros i0 i Hi; cbn [List.length] in *;
      [lia|].
    cbn [seq map combine fst snd]. rewrite Qsum_cons.
    destruct (Nat.eqb i0 i) eqn:E.
    - apply Nat.eqb_eq in E. subst i0. rewrite Nat.sub_diag. cbn [nth].
      assert (Hz : Qsum (map (fun p : Q * Q => fst p * snd p)
                           (combine (map (fun j => if Nat.eqb j i then 1 else 0)
                                       (seq (S i) (List.length x))) x)) == 0).
      { apply Qsum_all_zero. apply Forall_forall. intros y Hy.
        apply in_map_iff in Hy. destruct Hy as [[u v] [<- Hin]].
        apply in_combine_l in Hin. apply in_map_iff in Hin.
        destruct Hin as [j [Hu Hj]]. apply in_seq in Hj.
        cbn [fst snd]. subst u.
        destruct (Nat.eqb j i) eqn:Ej; [apply Nat.eqb_eq in Ej; lia|]. ring. }
      rewrite Hz. ring.
    - apply Nat.eqb_neq in E. rewrite (IH (S i0) i) by lia.
      replace (i - i0)%nat with (S (i - S i0)) by lia. cbn [nth]. ring. }
  intro Hi. rewrite (H x 0%nat i) by lia. now rewrite Nat.sub_0_r.
Qed.

(** X19. [build_views_from_prices] returns one view per selected ticker:
    [P] has one one-hot row per selected index, so that [P @ x] picks the
    selected components of [x], and every entry of [Q] is 0.002.  The
    selected indices are distinct positions of tickers priced on both
    days with the earlier price above 0; for [top_k >= 0] there are
    [min(top_k, number of such tickers)] of them; and they are the best
    movers: no ticker left out has a higher return than a selected one. *)
Theorem build_views_from_prices_top_movers :
  forall (tickers : list string) (top_k : Z),
    let rets := rets_from price_t_minus_1 price_t 0 tickers in
    let '(P, Qv, selected) :=
      build_views_from_prices tickers price_t_minus_1 price_t top_k in
    List.length P = List.length selected
    /\ Qv = map (fun _ => 2 # 1000) selected
    /\ (forall x : vec,
           List.length x = List.length tickers ->
           Forall2 Qeq (mat_vec P x) (map (fun i => nth i x 0) selected))
    /\ NoDup selected
    /\ ((0 <= top_k)%Z ->
        List.length selected = Nat.min (Z.to_nat top_k) (List.length rets))
    /\ exists taken dropped,
         selected = map snd taken
         /\ Permutation (taken ++ dropped) rets
         /\ Forall (eligible tickers price_t_minus_1 price_t) taken
         /\ forall a b, In a taken -> In b dropped -> fst b <= fst a.
Proof.
  intros tickers top_k. cbv zeta. unfold build_views_from_prices.
  set (rets := rets_from price_t_minus_1 price_t 0 tickers).
  destruct (py_take_firstn top_k (sort_pairs_desc rets)) as [n [Htake Hn]].
  rewrite Htake.
  pose proof (sort_pairs_desc_perm rets) as Hperm.
  pose proof (sort_pairs_desc_sorted rets) as Hsorted.
  assert (Hsel : forall e, In e (firstn n (sort_pairs_desc rets)) ->
                           In e rets).
  { intros e He. apply (Permutation_in _ Hperm).
    rewrite <- (firstn_skipn n (sort_pairs_desc rets)).
    apply in_or_app. now left. }
  split; [now rewrite length_map|].
  split; [reflexivity|].
  split.
  { intros x Hx. unfold mat_vec. rewrite !map_map.
    assert (Hpick : forall l : list (Q * nat),
               (forall e, In e l -> In e rets) ->
               Forall2 Qeq
                 (map (fun e => dot (one_hot (List.length tickers) (snd e)) x) l)
                 (map (fun e => nth (snd e) x 0) l)).
    { induction l as [|e l IH]; intro Hl; cbn [map]; constructor.
      - rewrite <- Hx. apply dot_one_hot.
        destruct (rets_from_spec tickers 0 e (Hl e (or_introl eq_refl)))
          as [_ [t [p1 [p0 [Hnth _]]]]].
        rewrite Nat.sub_0_r in Hnth.
        rewrite Hx. apply nth_error_Some. congruence.
      - apply IH. intros e' He'. apply Hl. now right. }
    apply Hpick. exact Hsel. }
  split.
  { pose proof (rets_from_indices tickers 0) as Hnd. fold rets in Hnd.
    apply (Permutation_NoDup
             (Permutation_map snd (Permutation_sym Hperm))) in Hnd.
    rewrite <- (firstn_skipn n (sort_pairs_desc rets)), map_app in Hnd.
    now apply NoDup_app_remove_r in Hnd. }
  split.
  { intro Hk. rewrite length_map, length_firstn, (Hn Hk).
    now rewrite (Permutation_length Hperm). }
  exists (firstn n (sort_pairs_desc rets)), (skipn n (sort_pairs_desc rets)).
  split; [reflexivity|].
  split; [now rewrite firstn_skipn|].
  split.
  - apply Forall_forall. intros e He.
    destruct (rets_from_spec tickers 0 e (Hsel e He))
      as [_ [t [p1 [p0 [Hnth Hrest]]]]].
    rewrite Nat.sub_0_r in Hnth. exists t, p1, p0. tauto.
  - intros a b Ha Hb.
    exact (sorted_prefix_dominates _ _ n Hsorted a b Ha Hb).
Qed.

End ViewsFacts.

Lemma build_views_from_prices_top_movers_witness :
  let '(P, Qv, selected) :=
    Views.build_views_from_prices ViewsExample.tickers
      ViewsExample.price_t_minus_1 ViewsExample.price_t 1 in
  List.length selected
  = Nat.min (Z.to_nat 1)
      (List.length
         (Views.rets_from ViewsExample.price_t_minus_1 ViewsExample.price_t 0
            ViewsExample.tickers)).
Proof.
  pose proof (build_views_from_prices_top_movers ViewsExample.price_t_minus_1
                ViewsExample.price_t ViewsExample.tickers 1) as H.
  cbv zeta in H.
  destruct (Views.build_views_from_prices ViewsExample.tickers
              ViewsExample.price_t_minus_1 ViewsExample.price_t 1)
    as [[P Qv] selected].
  destruct H as [_ [_ [_ [_ [Hlen _]]]]]. apply Hlen. lia.
Defined.

(** ** The body of the day loop of [run] *)

Section RunLoopFacts.
Import Portfolio Valuation RunLoop.

Lemma values_sum (p : Dict.t holding) :
  Qsum (map (fun info => inject_Z (totalAmount info) * last_price info)
          (Dict.values p))
  == market_value_of p.
Proof.
  rewrite market_value_sum. unfold Dict.values. now rewrite map_map.
Qed.

(** X20. The daily return the loop records is the relative change of
    total equity when the snapshot carried in is revalued at today's
    prices (a holding not priced today at its last price), and 0 when the
    carried equity is not positive.  On a revaluation-only day that starts
    with cash [>= 0] it is the return from the carried snapshot to the
    snapshot written. *)
Theorem daily_return_is_equity_change :
  forall (s : snapshot) (prices_today : Dict.t Q),
    let equity_prev := compute_market_value s + cash s in
    (equity_prev <= 0 -> daily_return s prices_today = 0)
    /\ (0 < equity_prev ->
        equity_at s prices_today
        == equity_prev * (1 + daily_return s prices_today))
    /\ (0 < equity_prev -> 0 <= cash s ->
        let written := emit_revaluation s prices_today in
        compute_market_value written + cash written
        == equity_prev * (1 + daily_return s prices_today)).
Proof.
  intros s prices_today. cbv zeta.
  assert (Hret : 0 < compute_market_value s + cash s ->
                 equity_at s prices_today
                 == (compute_market_value s + cash s)
                    * (1 + daily_return s prices_today)).
  { intro Hpos. unfold daily_return.
    assert (Hprev := values_sum (portfolio s)).
    fold (compute_market_value s) in Hprev.
    rewrite equity_at_valuation. unfold valuation.
    change (Qsum (map (entry_value prices_today) (portfolio s)))
      with (Qsum
              (map (fun e : string * holding =>
                      inject_Z (totalAmount (snd e))
                      * Dict.get_default prices_today (fst e)
                          (last_price (snd e)))
                 (portfolio s))).
    set (mv_today := Qsum (map _ (portfolio s))).
    set (mv_prev := Qsum _) in *.
    rewrite <- Hprev in Hpos |- *. clearbody mv_today mv_prev.
    destruct (Qltb 0 (mv_prev + cash s)) eqn:E.
    - field. lra.
    - apply Qltb_false in E. lra. }
  split; [|split].
  - intro Hle. unfold daily_return.
    destruct (Qltb 0 _) eqn:E; [|reflexivity].
    apply Qltb_true in E. rewrite values_sum in E.
    unfold compute_market_value in Hle. lra.
  - exact Hret.
  - intros Hpos Hcash. rewrite <- (Hret Hpos).
    unfold emit_revaluation.
    rewrite force_cash_non_negative_solvent
      by (rewrite update_snapshot_prices_cash; exact Hcash).
    unfold equity_at, compute_market_value.
    cbn [update_snapshot_prices portfolio cash ledger].
    rewrite reprice_idem. reflexivity.
Qed.

Lemma Qsum_zero_all (xs : list Q) :
  Forall (Qle 0) xs -> Qsum xs <= 0 -> Forall (fun x => x == 0) xs.
Proof.
  induction 1 as [|x xs Hx Hxs IH]; intro Hsum; [constructor|].
  rewrite Qsum_cons in Hsum.
  pose proof (Qsum_nonneg xs Hxs) as Hge.
  constructor; [lra|]. apply IH. lra.
Qed.

Lemma partial_loop_invariant (top10 : list string) (l : list (string * Q))
  (st : Dict.t Q * Q) :
  NoDup (map fst l) ->
  (forall t, In t (map fst l) -> ~ In t (Dict.keys (fst st))) ->
  Dict.wf (fst st) ->
  Forall (Qle 0) (Dict.values (fst st)) ->
  snd st == Qsum (Dict.values (fst st)) ->
  let st' := fold_left (partial_step top10) l st in
  Dict.wf (fst st')
  /\ Forall (Qle 0) (Dict.values (fst st'))
  /\ snd st' == Qsum (Dict.values (fst st'))
  /\ forall t,
       In t (Dict.keys (fst st'))
       <-> In t (Dict.keys (fst st))
           \/ (In t (map fst l) /\ In t top10).
Proof.
  cbv zeta. revert st.
  induction l as [|[t0 x] l IH]; intros st Hnd Hfresh Hwf Hpos Hsum;
    cbn [fold_left].
  - split; [exact Hwf|]. split; [exact Hpos|]. split; [exact Hsum|].
    intro t. cbn [map In]. tauto.
  - cbn [map fst] in Hnd. apply NoDup_cons_iff in Hnd.
    destruct Hnd as [Hnotin Hnd].
    assert (Hstep : partial_step top10 st (t0, x)
                    = if existsb (String.eqb t0) top10
                      then (Dict.set (fst st) t0 (py_max 0 x),
                            snd st + py_max 0 x)
                      else st) by reflexivity.
    rewrite Hstep. clear Hstep.
    destruct (existsb (String.eqb t0) top10) eqn:E.
    + assert (Hin10 : In t0 top10).
      { apply existsb_exists in E. destruct E as [y [Hy Heq]].
        apply String.eqb_eq in Heq. now subst y. }
      assert (Ht0 : ~ In t0 (Dict.keys (fst st)))
        by (apply Hfresh; now left).
      destruct (IH (Dict.set (fst st) t0 (py_max 0 x),
                    snd st + py_max 0 x)) as [H1 [H2 [H3 H4]]]; cbn [fst snd].
      * exact Hnd.
      * intros t Hin Hkey. apply keys_set in Hkey.
        destruct Hkey as [-> | Hkey]; [contradiction|].
        apply (Hfresh t); [now right | exact Hkey].
      * now apply wf_set.
      * apply values_set; [exact Hpos | apply py_max_lower].
      * rewrite (set_absent _ _ _ Ht0). unfold Dict.values.
        rewrite map_app, Qsum_app. cbn [map snd].
        rewrite Qsum_cons, Qsum_nil. fold (Dict.values (fst st)).
        rewrite Hsum. ring.
      * split; [exact H1|]. split; [exact H2|]. split; [exact H3|].
        intro t. rewrite H4. cbn [fst snd]. rewrite keys_set.
        cbn [map fst In].
        split.
        -- intros [[-> | Hk] | [Hl H10]]; auto.
        -- intros [Hk | [[<- | Hl] H10]]; auto.
    + assert (Hnot10 : ~ In t0 top10).
      { intro Hin. apply not_true_iff_false in E. apply E.
        apply existsb_exists. exists t0. split; [exact Hin|].
        apply String.eqb_refl. }
      destruct (IH st) as [H1 [H2 [H3 H4]]]; auto.
      { intros t Hin. apply Hfresh. now right. }
      split; [exact H1|]. split; [exact H2|]. split; [exact H3|].
      intro t. rewrite H4. cbn [map fst In].
      split.
      * intros [Hk | [Hl H10]]; auto.
      * intros [Hk | [[<- | Hl] H10]]; auto. contradiction.
Qed.

(** X21. The partial weights [run] hands to the rebalancer.  For a
    duplicate-free optimisation universe the dictionary [partial] has one
    entry for each of its first ten tickers that has an optimizer weight
    and no other; no weight is negative; and the weights sum to 1, unless
    every clamped optimizer weight of those tickers is 0, in which case
    all of them are 0. *)
Theorem partial_weights_distribution :
  forall (opt_universe : list string) (target_w_opt : list Q),
    NoDup opt_universe ->
    let partial := partial_of opt_universe target_w_opt in
    Dict.wf partial
    /\ (forall t,
           In t (Dict.keys partial)
           <-> In t (firstn 10 opt_universe)
               /\ In t (map fst (combine opt_universe target_w_opt)))
    /\ Forall (Qle 0) (Dict.values partial)
    /\ (Qsum (Dict.values partial) == 1
        \/ Forall (fun v => v == 0) (Dict.values partial)).
Proof.
  intros u w Hnd. cbv zeta. unfold partial_of.
  destruct (partial_loop_invariant (firstn 10 u) (combine u w) ([], 0))
    as [Hwf [Hpos [Hsum Hkeys]]]; cbn [fst snd Dict.keys Dict.values map].
  - now apply combine_fst_nodup.
  - intros t _ [].
  - constructor.
  - constructor.
  - rewrite Qsum_nil. reflexivity.
  - set (st := fold_left (partial_step (firstn 10 u)) (combine u w) ([], 0))
      in *.
    destruct (Qltb 0 (snd st)) eqn:E.
    + apply Qltb_true in E.
      assert (Hk : Dict.keys (map (fun e : string * Q => (fst e, snd e / snd st))
                                (fst st)) = Dict.keys (fst st)).
      { unfold Dict.keys. rewrite map_map. reflexivity. }
      assert (Hv : Dict.values (map (fun e : string * Q => (fst e, snd e / snd st))
                                  (fst st))
                   = map (fun x => x / snd st) (Dict.values (fst st))).
      { unfold Dict.values. rewrite !map_map. reflexivity. }
      split; [unfold Dict.wf; rewrite Hk; exact Hwf|].
      split.
      { intro t. rewrite Hk, Hkeys. cbn [fst Dict.keys map In]. tauto. }
      rewrite Hv. split.
      * apply Forall_forall. intros y Hy. apply in_map_iff in Hy.
        destruct Hy as [x [<- Hx]]. rewrite Forall_forall in Hpos.
        specialize (Hpos x Hx). apply Qle_shift_div_l; [exact E | lra].
      * left. rewrite Qsum_map_div, <- Hsum. field. lra.
    + apply Qltb_false in E.
      split; [exact Hwf|]. split.
      { intro t. rewrite Hkeys. cbn [fst Dict.keys map In]. tauto. }
      split; [exact Hpos|].
      right. apply Qsum_zero_all; [exact Hpos|]. rewrite <- Hsum. exact E.
Qed.

Lemma partial_weights_distribution_witness :
  Qsum (Dict.values (partial_of ["AAPL"; "MSFT"]%string [3 # 5; 2 # 5])) == 1
  \/ Forall (fun v => v == 0)
       (Dict.values (partial_of ["AAPL"; "MSFT"]%string [3 # 5; 2 # 5])).
Proof.
  assert (Hnd : NoDup ["AAPL"; "MSFT"]%string).
  { constructor; [intros [H | []]; discriminate|].
    constructor; [tauto | constructor]. }
  apply (partial_weights_distribution ["AAPL"; "MSFT"]%string [3 # 5; 2 # 5]
           Hnd).
Defined.

Lemma insert_desc_sorted {A : Type} (key : A -> Q) (x : A) (l : list A) :
  StronglySorted (fun a b => key b <= key a) l ->
  StronglySorted (fun a b => key b <= key a) (insert_desc key x l).
Proof.
  induction 1 as [|y l Hs IH Hy]; cbn [insert_desc].
  - constructor; constructor.
  - destruct (Qltb (key y) (key x)) eqn:E.
    + apply Qltb_true in E. constructor.
      * constructor; assumption.
      * constructor; [lra|].
        eapply Forall_impl; [|exact Hy]. cbv beta. intros z Hz. lra.
    + apply Qltb_false in E. constructor; [exact IH|].
      apply (Permutation_Forall
               (Permutation_sym (insert_desc_perm key x l))).
      constructor; assumption.
Qed.

Lemma sort_desc_sorted {A : Type} (key : A -> Q) (l : list A) :
  StronglySorted (fun a b => key b <= key a) (sort_desc key l).
Proof.
  unfold sort_desc.
  assert (H : forall acc,
             StronglySorted (fun a b => key b <= key a) acc ->
             StronglySorted (fun a b => key b <= key a)
               (fold_left (fun acc x => insert_desc key x acc) l acc)).
  { induction l as [|x l IH]; intros acc Hacc; cbn [fold_left];
      [exact Hacc|].
    apply IH. now apply insert_desc_sorted. }
  apply H. constructor.
Qed.

(** X22. The optimisation universe of a rebalance day: the tickers are
    ranked by market value at today's prices (a ticker not priced today
    at its last price) and the first 50 are kept.  The universe has
    [min(50, number of tickers)] tickers, all of them listed tickers,
    distinct when the tickers are; and no ticker left out is worth more
    than a ticker kept. *)
Theorem opt_universe_top_by_value :
  forall (s : snapshot) (prices_today : Dict.t Q) (tickers : list string),
    let opt_universe := opt_universe_of s prices_today tickers in
    List.length opt_universe = Nat.min 50 (List.length tickers)
    /\ incl opt_universe tickers
    /\ (NoDup tickers -> NoDup opt_universe)
    /\ exists kept dropped,
         opt_universe = map fst kept
         /\ Permutation (kept ++ dropped) (mv_pairs_of s prices_today tickers)
         /\ forall a b, In a kept -> In b dropped -> snd b <= snd a.
Proof.
  intros s prices_today tickers. cbv zeta. unfold opt_universe_of.
  set (pairs := mv_pairs_of s prices_today tickers).
  pose proof (sort_desc_perm snd pairs) as Hperm.
  pose proof (sort_desc_sorted snd pairs) as Hsorted.
  assert (Hfst : map fst pairs = tickers).
  { unfold pairs, mv_pairs_of. rewrite map_map. cbn [fst]. apply map_id. }
  assert (Hsplit : Permutation
                     (map fst (firstn 50 (sort_desc snd pairs))
                      ++ map fst (skipn 50 (sort_desc snd pairs)))
                     tickers).
  { rewrite <- map_app, firstn_skipn, <- Hfst. now apply Permutation_map. }
  split.
  { rewrite length_map, length_firstn, (Permutation_length Hperm).
    unfold pairs, mv_pairs_of. now rewrite length_map. }
  split.
  { intros t Ht. apply (Permutation_in _ Hsplit). apply in_or_app. now left. }
  split.
  { intro Hnd. apply (Permutation_NoDup (Permutation_sym Hsplit)) in Hnd.
    now apply NoDup_app_remove_r in Hnd. }
  exists (firstn 50 (sort_desc snd pairs)), (skipn 50 (sort_desc snd pairs)).
  split; [reflexivity|]. split; [now rewrite firstn_skipn|].
  intros a b Ha Hb.
  exact (sorted_prefix_dominates _ _ 50 Hsorted a b Ha Hb).
Qed.

Lemma opt_universe_top_by_value_witness :
  NoDup ViewsExample.tickers
  /\ NoDup (opt_universe_of (ledger [] 1000) ViewsExample.price_t
              ViewsExample.tickers).
Proof.
  assert (Hnd : NoDup ViewsExample.tickers).
  { unfold ViewsExample.tickers.
    constructor; [intros [H | [H | []]]; discriminate|].
    constructor; [intros [H | []]; discriminate|].
    constructor; [tauto | constructor]. }
  split; [exact Hnd|].
  destruct (opt_universe_top_by_value (ledger [] 1000) ViewsExample.price_t
              ViewsExample.tickers) as [_ [_ [H _]]].
  exact (H Hnd).
Defined.

End RunLoopFacts.

(** ** Market weights of the sizing pipeline *)

Section PipelinePriorFacts.
Import Portfolio LinAlg PipelinePrior.

Lemma values_of_keys (holdings : Dict.t holding) (prices : Dict.t Q) :
  Dict.keys (values_of holdings prices) = Dict.keys holdings.
Proof.
  unfold Dict.keys, values_of. rewrite map_map. reflexivity.
Qed.

Lemma values_of_nonneg (holdings : Dict.t holding) (prices : Dict.t Q) :
  long_only holdings ->
  Forall (Qle 0) (Dict.values prices) ->
  Forall (Qle 0) (Dict.values (values_of holdings prices)).
Proof.
  intros Hlo Hpx. unfold Dict.values, values_of, long_only in *.
  rewrite map_map. cbn [snd]. apply Forall_forall. intros y Hy.
  apply in_map_iff in Hy. destruct Hy as [[t h] [<- Hin]]. cbn [fst snd].
  rewrite Forall_forall in Hlo.
  assert (Hq : (0 <= totalAmount h)%Z).
  { apply Hlo. unfold Dict.values. change h with (snd (t, h)).
    now apply in_map. }
  assert (Hp : 0 <= Dict.get_default prices t 0).
  { unfold Dict.get_default. destruct (Dict.get prices t) as [px|] eqn:E;
      [|lra].
    exact (values_get _ prices t px Hpx E). }
  rewrite Zle_Qle in Hq. change (inject_Z 0) with 0 in Hq. nra.
Qed.

(** X23. [holdings_to_weights] of the pipeline keeps one weight per
    holding.  When the holdings are worth nothing at today's prices (or
    less) every weight is 0; otherwise the weights sum to 1, and for
    long-only holdings and prices [>= 0] none is negative.  The market
    weights [size_positions] passes on for a non-empty universe always
    have a positive sum: the weights of the aligned tickers, or equal
    weights when those sum to 0 or less. *)
Theorem pipeline_holdings_to_weights_distribution :
  forall (holdings : Dict.t holding) (prices : Dict.t Q),
    let weights := holdings_to_weights holdings prices in
    let total := Qsum (Dict.values (values_of holdings prices)) in
    Dict.keys weights = Dict.keys holdings
    /\ (total <= 0 -> Forall (fun w => w = 0) (Dict.values weights))
    /\ (0 < total -> Qsum (Dict.values weights) == 1)
    /\ (long_only holdings -> Forall (Qle 0) (Dict.values prices) ->
        Forall (Qle 0) (Dict.values weights))
    /\ (forall tickers_aligned,
           tickers_aligned <> [] ->
           0 < Qsum (market_prior holdings prices tickers_aligned)
           /\ List.length (market_prior holdings prices tickers_aligned)
              = List.length tickers_aligned).
Proof.
  intros holdings prices. cbv zeta. unfold holdings_to_weights.
  set (values := values_of holdings prices).
  set (total := Qsum (Dict.values values)).
  assert (Hk0 : Dict.keys (map (fun e : string * Q => (fst e, 0)) values)
                = Dict.keys holdings).
  { unfold Dict.keys. rewrite map_map. apply values_of_keys. }
  assert (Hk1 : Dict.keys (map (fun e : string * Q => (fst e, snd e / total))
                             values) = Dict.keys holdings).
  { unfold Dict.keys. rewrite map_map. apply values_of_keys. }
  assert (Hv0 : Dict.values (map (fun e : string * Q => (fst e, 0)) values)
                = map (fun _ => 0) (Dict.values values)).
  { unfold Dict.values. rewrite !map_map. reflexivity. }
  assert (Hv1 : Dict.values (map (fun e : string * Q => (fst e, snd e / total))
                               values)
                = map (fun x => x / total) (Dict.values values)).
  { unfold Dict.values. rewrite !map_map. reflexivity. }
  split; [destruct (Qle_bool total 0); assumption|].
  split.
  { intro Hle. apply Qle_bool_iff in Hle. rewrite Hle, Hv0.
    apply Forall_forall. intros y Hy. apply in_map_iff in Hy.
    now destruct Hy as [x [<- _]]. }
  split.
  { intro Hpos. destruct (Qle_bool total 0) eqn:E.
    - apply Qle_bool_iff in E. lra.
    - rewrite Hv1, Qsum_map_div. fold total. field. lra. }
  split.
  { intros Hlo Hpx. pose proof (values_of_nonneg holdings prices Hlo Hpx) as Hnn.
    fold values in Hnn.
    destruct (Qle_bool total 0) eqn:E.
    - rewrite Hv0. apply Forall_forall. intros y Hy. apply in_map_iff in Hy.
      destruct Hy as [x [<- _]]. lra.
    - apply Qle_bool_false in E. rewrite Hv1.
      apply Forall_forall. intros y Hy. apply in_map_iff in Hy.
      destruct Hy as [x [<- Hx]]. rewrite Forall_forall in Hnn.
      specialize (Hnn x Hx). apply Qle_shift_div_l; [exact E | lra]. }
  intros tickers_aligned Hne. unfold market_prior.
  fold (holdings_to_weights holdings prices).
  destruct (Qltb 0 _) eqn:E.
  - apply Qltb_true in E. split; [exact E | now rewrite length_map].
  - assert (Hn : (0 < List.length tickers_aligned)%nat).
    { destruct tickers_aligned; [congruence | cbn; lia]. }
    destruct (equal_weights_valid _ Hn) as [_ Hsum].
    split; [rewrite Hsum; reflexivity|].
    unfold equal_weights. apply repeat_length.
Qed.

Lemma pipeline_holdings_to_weights_distribution_witness :
  0 < Qsum (market_prior (Runner.portfolio RunnerExample.book)
              RunnerExample.prices ["AAPL"; "MSFT"]%string).
Proof.
  destruct (pipeline_holdings_to_weights_distribution
              (Runner.portfolio RunnerExample.book) RunnerExample.prices)
    as [_ [_ [_ [_ H]]]].
  apply (H ["AAPL"; "MSFT"]%string). discriminate.
Defined.

End PipelinePriorFacts.

(** ** The heuristic views *)

Section LLMViewsFacts.
Import LinAlg LLMViews.

Lemma diag_length (v : vec) : List.length (diag v) = List.length v.
Proof.
  unfold diag. now rewrite length_map, length_seq.
Qed.

Lemma diag_entry (v : vec) (i j : nat) :
  (i < List.length v)%nat -> (j < List.length v)%nat ->
  nth j (nth i (diag v) []) 0 = if Nat.eqb i j then nth i v 0 else 0.
Proof.
  intros Hi Hj. unfold diag.
  rewrite (nth_indep _ [] (map (fun j => if Nat.eqb 0 j then nth 0 v 0 else 0)
                             (seq 0 (List.length v))))
    by (now rewrite length_map, length_seq).
  rewrite (map_nth (fun i => map (fun j => if Nat.eqb i j then nth i v 0 else 0)
                               (seq 0 (List.length v)))
             (seq 0 (List.length v)) 0%nat i).
  rewrite seq_nth by exact Hi. cbn [Nat.add].
  rewrite (nth_indep _ 0 (if Nat.eqb i 0 then nth i v 0 else 0))
    by (now rewrite length_map, length_seq).
  rewrite (map_nth (fun j => if Nat.eqb i j then nth i v 0 else 0)
             (seq 0 (List.length v)) 0%nat j).
  now rewrite seq_nth by exact Hj.
Qed.

Lemma diag_of_diag (v : vec) : diag_of (diag v) = v.
Proof.
  unfold diag_of. rewrite diag_length.
  apply (nth_ext _ _ 0 0).
  - now rewrite length_map, length_seq.
  - intros i Hi. rewrite length_map, length_seq in Hi.
    rewrite (nth_indep _ 0 (nth 0 (nth 0 (diag v) []) 0))
      by (now rewrite length_map, length_seq).
    rewrite (map_nth (fun i => nth i (nth i (diag v) []) 0)
               (seq 0 (List.length v)) 0%nat i).
    rewrite seq_nth by exact Hi. cbn [Nat.add].
    rewrite diag_entry by exact Hi. now rewrite Nat.eqb_refl.
Qed.

Lemma np_var_nonneg (r : list Q) : 0 <= np_var r.
Proof.
  unfold np_var. cbv zeta.
  set (m := np_mean r).
  assert (Hsq : 0 <= Qsum (map (fun x => (x - m) * (x - m)) r)).
  { apply Qsum_nonneg. apply Forall_forall. intros y Hy.
    apply in_map_iff in Hy. destruct Hy as [x [<- _]].
    generalize (x - m). intro z. clear. nra. }
  destruct r as [|x r].
  - cbn. unfold Qdiv. rewrite Qmult_0_l. lra.
  - apply Qle_shift_div_l; [|lra].
    change 0 with (inject_Z 0). rewrite <- Zlt_Qlt. cbn [List.length]. lia.
Qed.

Lemma view_of_variance (window_returns : Dict.t (list Q)) (t : string) :
  1 # 10000 <= snd (view_of window_returns t).
Proof.
  unfold view_of. destruct (Dict.get_default window_returns t []) as [|x r];
    cbn [snd].
  - discriminate.
  - pose proof (np_var_nonneg (x :: r)). lra.
Qed.

(** X24. The heuristic views.  Without an API client
    [LLMViewsGenerator.generate] returns the identity as [P], one expected
    return per ticker as [Q] and a diagonal [Omega] whose diagonal holds
    the view variances; every variance is at least 1e-4, so [Omega] is
    never singular (its strict inverse exists); a ticker without returns
    in the window gets the view 0 with variance 0.0004, and a ticker whose
    returns are all equal gets that return with variance exactly 1e-4. *)
Theorem heuristic_views_well_conditioned :
  forall (tickers : list string) (window_returns : Dict.t (list Q)),
    let '(P, Qv, Omega) := generate_heuristic tickers window_returns in
    P = eye (List.length tickers)
    /\ List.length Qv = List.length tickers
    /\ List.length Omega = List.length tickers
    /\ is_diagonal Omega = true
    /\ Forall (fun v => 1 # 10000 <= v) (diag_of Omega)
    /\ inv_diag Omega <> None
    /\ forall i t,
         nth_error tickers i = Some t ->
         (Dict.get_default window_returns t [] = [] ->
          nth i Qv 0 = 0 /\ nth i (diag_of Omega) 0 = 4 # 10000)
         /\ (forall c n,
                Dict.get_default window_returns t [] = repeat c (S n) ->
                nth i Qv 0 == c /\ nth i (diag_of Omega) 0 == 1 # 10000).
Proof.
  intros tickers window_returns. unfold generate_heuristic.
  set (vars_ := map (fun t => snd (view_of window_returns t)) tickers).
  assert (Hlen : List.length vars_ = List.length tickers)
    by (unfold vars_; now rewrite length_map).
  assert (Hvars : Forall (fun v => 1 # 10000 <= v) vars_).
  { apply Forall_forall. intros y Hy. apply in_map_iff in Hy.
    destruct Hy as [t [<- _]]. apply view_of_variance. }
  split; [reflexivity|].
  split; [now rewrite length_map|].
  split; [now rewrite diag_length|].
  split.
  { unfold is_diagonal. rewrite diag_length.
    apply forallb_forall. intros i Hi. apply in_seq in Hi.
    apply forallb_forall. intros j Hj. apply in_seq in Hj.
    assert (Hrow : List.length (nth i (diag vars_) []) = List.length vars_).
    { unfold diag.
      rewrite (nth_indep _ [] (map (fun j => if Nat.eqb 0 j then nth 0 vars_ 0
                                             else 0)
                                 (seq 0 (List.length vars_))))
        by (rewrite length_map, length_seq; lia).
      rewrite (map_nth (fun i => map (fun j => if Nat.eqb i j
                                               then nth i vars_ 0 else 0)
                                   (seq 0 (List.length vars_)))
                 (seq 0 (List.length vars_)) 0%nat i).
      now rewrite length_map, length_seq. }
    rewrite Hrow in Hj. rewrite diag_entry by lia.
    destruct (Nat.eqb i j); [reflexivity|]. reflexivity. }
  rewrite diag_of_diag.
  split; [exact Hvars|].
  split.
  { unfold inv_diag. rewrite diag_of_diag.
    assert (Hnz : forallb (fun x => negb (Qeq_bool x 0)) vars_ = true).
    { apply forallb_forall. intros x Hx. rewrite Forall_forall in Hvars.
      specialize (Hvars x Hx). apply negb_true_iff.
      destruct (Qeq_bool x 0) eqn:E; [|reflexivity].
      apply Qeq_bool_iff in E. lra. }
    rewrite Hnz. discriminate. }
  intros i t Hnth.
  assert (Hi : (i < List.length tickers)%nat)
    by (apply nth_error_Some; congruence).
  assert (Hq : nth i (map (fun t => fst (view_of window_returns t)) tickers) 0
               = fst (view_of window_returns t)).
  { rewrite (nth_indep _ 0 (fst (view_of window_returns ""%string)))
      by (now rewrite length_map).
    rewrite (map_nth (fun t => fst (view_of window_returns t)) tickers
               ""%string i).
    now rewrite (nth_error_nth _ _ _ Hnth). }
  assert (Hv : nth i vars_ 0 = snd (view_of window_returns t)).
  { unfold vars_.
    rewrite (nth_indep _ 0 (snd (view_of window_returns ""%string)))
      by (now rewrite length_map).
    rewrite (map_nth (fun t => snd (view_of window_returns t)) tickers
               ""%string i).
    now rewrite (nth_error_nth _ _ _ Hnth). }
  rewrite Hq, Hv. unfold view_of. split.
  - intros ->. split; reflexivity.
  - intros c n ->. cbn [repeat fst snd].
    change (c :: repeat c n) with (repeat c (S n)).
    assert (Hn : 0 < inject_Z (Z.of_nat (S n))).
    { change 0 with (inject_Z 0). rewrite <- Zlt_Qlt. lia. }
    assert (Hmean : np_mean (repeat c (S n)) == c).
    { unfold np_mean. rewrite Qsum_repeat, repeat_length. field. lra. }
    split; [exact Hmean|].
    unfold np_var. cbv zeta.
    assert (Hz : Qsum (map (fun x => (x - np_mean (repeat c (S n)))
                                     * (x - np_mean (repeat c (S n))))
                         (repeat c (S n))) == 0).
    { apply Qsum_all_zero. apply Forall_forall. intros y Hy.
      apply in_map_iff in Hy. destruct Hy as [x [<- Hx]].
      apply repeat_spec in Hx. subst x. rewrite Hmean. ring. }
    rewrite Hz, repeat_length. field. lra.
Qed.

End LLMViewsFacts.

Lemma heuristic_views_well_conditioned_witness :
  let '(P, Qv, Omega) :=
    LLMViews.generate_heuristic ["AAPL"]%string
      [("AAPL"%string, [1 # 100; 1 # 100])] in
  nth 0 Qv 0 == 1 # 100 /\ nth 0 (LinAlg.diag_of Omega) 0 == 1 # 10000.
Proof.
  pose proof (heuristic_views_well_conditioned ["AAPL"]%string
                [("AAPL"%string, [1 # 100; 1 # 100])]) as H.
  destruct (LLMViews.generate_heuristic ["AAPL"]%string
              [("AAPL"%string, [1 # 100; 1 # 100])]) as [[P Qv] Omega].
  destruct H as [_ [_ [_ [_ [_ [_ H]]]]]].
  destruct (H 0%nat "AAPL"%string eq_refl) as [_ Hconst].
  exact (Hconst (1 # 100) 1%nat eq_refl).
Defined.

(** ** Where a run starts from *)

Section SnapshotDirsFacts.
Import SnapshotDirs.

Lemma insert_asc_perm (x : string) (l : list string) :
  Permutation (insert_asc x l) (x :: l).
Proof.
  induction l as [|y l IH]; cbn [insert_asc].
  - apply Permutation_refl.
  - destruct (String.ltb x y).
    + apply Permutation_refl.
    + eapply perm_trans; [apply perm_skip, IH | apply perm_swap].
Qed.

Lemma sorted_strings_perm (l : list string) : Permutation (sorted_strings l) l.
Proof.
  unfold sorted_strings.
  assert (H : forall acc,
             Permutation (fold_left (fun acc x => insert_asc x acc) l acc)
               (l ++ acc)).
  { induction l as [|x l IH]; intro acc; cbn [fold_left app].
    - apply Permutation_refl.
    - eapply perm_trans; [apply IH|].
      eapply perm_trans; [apply Permutation_app_head, insert_asc_perm|].
      apply Permutation_sym, Permutation_middle. }
  rewrite <- (app_nil_r l) at 2. apply H.
Qed.

Lemma insert_asc_sorted (x : string) (l : list string) :
  StronglySorted (fun a b => String.ltb b a = false) l ->
  StronglySorted (fun a b => String.ltb b a = false) (insert_asc x l).
Proof.
  induction 1 as [|y l Hs IH Hy]; cbn [insert_asc].
  - constructor; constructor.
  - destruct (String.ltb x y) eqn:E.
    + constructor.
      * constructor; assumption.
      * constructor; [now apply ltb_asym|].
        eapply Forall_impl; [|exact Hy]. cbv beta. intros z Hz.
        destruct (String.ltb z x) eqn:Ez; [|reflexivity].
        pose proof (ltb_trans _ _ _ Ez E) as Hc. congruence.
    + constructor; [exact IH|].
      apply (Permutation_Forall (Permutation_sym (insert_asc_perm x l))).
      constructor; assumption.
Qed.

Lemma sorted_strings_sorted (l : list string) :
  StronglySorted (fun a b => String.ltb b a = false) (sorted_strings l).
Proof.
  unfold sorted_strings.
  assert (H : forall acc,
             StronglySorted (fun a b => String.ltb b a = false) acc ->
             StronglySorted (fun a b => String.ltb b a = false)
               (fold_left (fun acc x => insert_asc x acc) l acc)).
  { induction l as [|x l IH]; intros acc Hacc; cbn [fold_left];
      [exact Hacc|].
    apply IH. now apply insert_asc_sorted. }
  apply H. constructor.
Qed.

Lemma sorted_last_greatest (l : list string) (d : string) :
  StronglySorted (fun a b => String.ltb b a = false) l ->
  l <> [] ->
  In (last l d) l
  /\ forall c, In c l -> String.ltb (last l d) c = false.
Proof.
  induction 1 as [|x l Hs IH Hx]; intro Hne; [congruence|].
  destruct l as [|y l].
  - cbn [last]. split; [now left|].
    intros c [<- | []]. apply ltb_irrefl.
  - destruct IH as [Hin Hmax]; [discriminate|].
    change (last (x :: y :: l) d) with (last (y :: l) d).
    split; [now right|].
    intros c [Heq | Hc]; [subst c | now apply Hmax].
    destruct (String.ltb (last (y :: l) d) x) eqn:E; [|reflexivity].
    rewrite Forall_forall in Hx. specialize (Hx _ Hin).
    congruence.
Qed.

Lemma not_ltb_leb (a b : string) : String.ltb b a = false -> String.leb a b = true.
Proof.
  unfold String.ltb, String.leb. rewrite (String.compare_antisym a b).
  destruct (String.compare b a); cbn [CompOpp]; intro H;
    [reflexivity | discriminate H | reflexivity].
Qed.

(** X25. [get_last_existing_snapshot_dir] resumes from the latest
    snapshot before the start date: among the directories of the listing
    named before [start_date] that hold their snapshot file, it returns
    the one with the greatest name, whatever the order of the listing; it
    returns the empty string exactly when there is none (no directory
    name is empty). *)
Theorem get_last_existing_snapshot_dir_latest :
  forall (listing : list dir_entry) (start_date : string),
    let found := get_last_existing_snapshot_dir listing start_date in
    let candidates := candidates_of listing start_date in
    (candidates = [] -> found = ""%string)
    /\ (candidates <> [] ->
        (exists e,
            In e listing /\ name e = found /\ is_dir e = true
            /\ has_snapshot e = true)
        /\ String.ltb found start_date = true
        /\ forall e,
             In e listing -> is_dir e = true -> has_snapshot e = true ->
             String.ltb (name e) start_date = true ->
             String.leb (name e) found = true).
Proof.
  intros listing start_date. cbv zeta. unfold get_last_existing_snapshot_dir.
  set (candidates := candidates_of listing start_date).
  assert (Hcand : forall c,
             In c candidates
             <-> exists e, In e listing /\ name e = c /\ is_dir e = true
                           /\ has_snapshot e = true
                           /\ String.ltb c start_date = true).
  { intro c. unfold candidates, candidates_of. rewrite in_map_iff. split.
    - intros [e [Hname Hin]]. apply filter_In in Hin.
      destruct Hin as [Hin Hf]. apply andb_true_iff in Hf.
      destruct Hf as [Hd Hf]. apply andb_true_iff in Hf.
      destruct Hf as [Hlt Hs]. exists e. subst c. tauto.
    - intros [e [Hin [Hname [Hd [Hs Hlt]]]]]. exists e. split; [exact Hname|].
      apply filter_In. split; [exact Hin|]. subst c.
      now rewrite Hd, Hs, Hlt. }
  split.
  - intros ->. reflexivity.
  - intro Hne. destruct candidates as [|c0 cs] eqn:Ec; [congruence|].
    rewrite <- Ec in *.
    pose proof (sorted_strings_perm candidates) as Hperm.
    destruct (sorted_last_greatest (sorted_strings candidates) ""%string
                (sorted_strings_sorted candidates)) as [Hin Hmax].
    { intro Hnil. rewrite Hnil in Hperm. apply Permutation_nil in Hperm.
      congruence. }
    set (found := last (sorted_strings candidates) ""%string) in *.
    apply (Permutation_in _ Hperm) in Hin.
    apply Hcand in Hin. destruct Hin as [e [Hin [Hname [Hd [Hs Hlt]]]]].
    split; [exists e; tauto|]. split; [exact Hlt|].
    intros e' Hin' Hd' Hs' Hlt'. apply not_ltb_leb. apply Hmax.
    apply (Permutation_in _ (Permutation_sym Hperm)).
    apply Hcand. exists e'. tauto.
Qed.

Lemma get_last_existing_snapshot_dir_latest_witness :
  let listing :=
    [mkEntry "2025-01-07" true true; mkEntry "results" true false;
     mkEntry "2025-01-06" true true; mkEntry "2025-01-21" true true] in
  String.ltb (get_last_existing_snapshot_dir listing "2025-01-17")
    "2025-01-17" = true.
Proof.
  cbv zeta.
  apply (get_last_existing_snapshot_dir_latest
           [mkEntry "2025-01-07" true true; mkEntry "results" true false;
            mkEntry "2025-01-06" true true; mkEntry "2025-01-21" true true]
           "2025-01-17").
  discriminate.
Defined.

End SnapshotDirsFacts.

(** ** The ticker universe *)

Section UniverseFacts.
Import Universe.

Variable normalize_base : string -> string.




End UniverseFacts.


Lemma daily_return_is_equity_change_witness :
  let s := Portfolio.ledger (Runner.portfolio RunnerExample.book) 1000 in
  0 < Portfolio.compute_market_value s + Portfolio.cash s
  /\ Portfolio.equity_at s RunnerExample.prices
     == (Portfolio.compute_market_value s + Portfolio.cash s)
        * (1 + RunLoop.daily_return s RunnerExample.prices).
Proof.
  cbv zeta.
  assert (Hpos : 0 < Portfolio.compute_market_value
                       (Portfolio.ledger (Runner.portfolio RunnerExample.book)
                          1000)
                     + Portfolio.cash
                         (Portfolio.ledger
                            (Runner.portfolio RunnerExample.book) 1000))
    by reflexivity.
  split; [exact Hpos|].
  destruct (daily_return_is_equity_change
              (Portfolio.ledger (Runner.portfolio RunnerExample.book) 1000)
              RunnerExample.prices) as [_ [H _]].
  exact (H Hpos).
Defined.

(** ** The per-name cap of the partial rebalance *)

Section NameCap.
Import Portfolio Valuation.

Lemma get_drop_flat (p : Dict.t holding) (t : string) :
  Dict.wf p ->
  Dict.get (drop_flat p) t
  = match Dict.get p t with
    | Some h => if (0 <? totalAmount h)%Z then Some h else None
    | None => None
    end.
Proof.
  unfold Dict.wf, Dict.keys, drop_flat.
  induction p as [|[k h] p IH]; intro Hwf; cbn [filter Dict.get snd];
    [reflexivity|].
  cbn [map fst] in Hwf. apply NoDup_cons_iff in Hwf.
  destruct Hwf as [Hk Hwf]. specialize (IH Hwf).
  destruct (String.eqb t k) eqn:E.
  - apply String.eqb_eq in E. subst k.
    destruct (0 <? totalAmount h)%Z; cbn [Dict.get].
    + now rewrite String.eqb_refl.
    + rewrite IH.
      assert (Hnone : Dict.get p t = None) by (now apply get_none_notin).
      now rewrite Hnone.
  - destruct (0 <? totalAmount h)%Z; cbn [Dict.get]; [rewrite E|]; exact IH.
Qed.

Section WithBound.

(** A ceiling on the quantity of every ticker. *)
Variable bound : string -> Z.
Hypothesis bound_nonneg : forall t, (0 <= bound t)%Z.

Lemma capped_set (p : Dict.t holding) (t : string) (h : holding) :
  PositionCap.capped bound p ->
  (totalAmount h <= bound t)%Z ->
  PositionCap.capped bound (Dict.set p t h).
Proof.
  intros [Hwf Hp] Hh. split; [now apply wf_set|].
  intro t'. destruct (string_dec t' t) as [-> | Hne].
  - now rewrite get_set_same.
  - rewrite get_set_other by exact Hne. apply Hp.
Qed.

Lemma capped_drop_flat (p : Dict.t holding) :
  PositionCap.capped bound p -> PositionCap.capped bound (drop_flat p).
Proof.
  intros [Hwf Hp]. split; [now apply wf_drop_flat|].
  intro t. rewrite (get_drop_flat p t Hwf). specialize (Hp t).
  destruct (Dict.get p t) as [h|]; [|exact Hp].
  destruct (0 <? totalAmount h)%Z; [exact Hp | apply bound_nonneg].
Qed.

Lemma capped_reprice (prices : Dict.t Q) (p : Dict.t holding) :
  PositionCap.capped bound p -> PositionCap.capped bound (reprice prices p).
Proof.
  intros [Hwf Hp]. split; [now apply wf_reprice|].
  intro t. rewrite reprice_get. specialize (Hp t).
  destruct (Dict.get p t); exact Hp.
Qed.

Lemma unwind_shares_capped (n : nat) (t : string) (px : Q)
  (p : Dict.t holding) (c : Q) :
  PositionCap.capped bound p ->
  PositionCap.capped bound (fst (unwind_shares n t px p c)).
Proof.
  revert p c. induction n as [|n IH]; intros p c H; cbn [unwind_shares fst];
    [exact H|].
  destruct (Qltb c 0); [|exact H].
  destruct (qty_of (Dict.get p t) <=? 0)%Z; [exact H|].
  apply IH. apply capped_set; [exact H|].
  cbn [totalAmount]. destruct H as [_ H]. specialize (H t). lia.
Qed.

Lemma unwind_buys_capped (buys : list applied_buy) (p : Dict.t holding)
  (c : Q) :
  PositionCap.capped bound p ->
  PositionCap.capped bound (fst (unwind_buys buys p c)).
Proof.
  revert p c. induction buys as [|[[t bq] px] buys IH]; intros p c H;
    cbn [unwind_buys]; [exact H|].
  destruct (Qle_bool 0 c); [exact H|].
  apply IH. now apply unwind_shares_capped.
Qed.

Lemma unwind_pass_capped (applied : list applied_buy) (p : Dict.t holding)
  (c : Q) :
  PositionCap.capped bound p ->
  PositionCap.capped bound (fst (unwind_pass applied p c)).
Proof.
  intro H. unfold unwind_pass. destruct applied as [|b applied]; [exact H|].
  destruct (Qltb c 0); [|exact H]. cbn [fst].
  apply capped_drop_flat. now apply unwind_buys_capped.
Qed.

Lemma emergency_sells_capped (cands : list sell_cand) (st : esell_state) :
  PositionCap.capped bound (es_portfolio st) ->
  PositionCap.capped bound (es_portfolio (emergency_sells cands st)).
Proof.
  revert st. induction cands as [|c rest IH]; intros st H;
    cbn [emergency_sells]; [exact H|].
  destruct (Qle_bool (es_shortfall st) 0); [exact H|].
  destruct (Z.min (sc_qty c) (py_ceil (es_shortfall st / sc_px c)) <=? 0)%Z
    eqn:E; [now apply IH|].
  apply Z.leb_gt in E. apply IH. cbn [es_portfolio].
  apply capped_set; [exact H|]. cbn [totalAmount].
  destruct H as [_ H]. specialize (H (sc_ticker c)). lia.
Qed.

Lemma emergency_pass_capped (prices : Dict.t Q) (p : Dict.t holding) (c : Q)
  (changes : list change) :
  PositionCap.capped bound p ->
  PositionCap.capped bound (fst (fst (emergency_pass prices p c changes))).
Proof.
  intro H. unfold emergency_pass. destruct (Qltb c 0); [|exact H].
  cbn [fst]. apply capped_drop_flat. now apply emergency_sells_capped.
Qed.

End WithBound.

Lemma scale_of_le_1 (total_cost allowable_budget : Q) :
  scale_of total_cost allowable_budget <= 1.
Proof.
  unfold scale_of.
  destruct (Qltb allowable_budget total_cost && Qltb 0 total_cost) eqn:E;
    [|lra].
  apply andb_true_iff in E. destruct E as [E1 E2].
  apply Qltb_true in E1, E2.
  apply Qle_shift_div_r; [exact E2 | lra].
Qed.

Lemma scaled_need_le (need : Z) (scale : Q) :
  (0 < need)%Z -> scale <= 1 -> (py_int (inject_Z need * scale) <= need)%Z.
Proof.
  intros Hneed Hscale.
  assert (Hn : 0 < inject_Z need).
  { change 0 with (inject_Z 0). now rewrite <- Zlt_Qlt. }
  destruct (Qlt_le_dec (inject_Z need * scale) 0) as [Hneg | Hpos].
  - pose proof (py_int_nonpos (inject_Z need * scale)) as H.
    assert (H' : (py_int (inject_Z need * scale) <= 0)%Z) by (apply H; lra).
    lia.
  - rewrite (py_int_nonneg _ Hpos).
    assert (Hle : inject_Z need * scale <= inject_Z need) by nra.
    pose proof (Qfloor_resp_le _ _ Hle) as Hf.
    now rewrite Qfloor_Z in Hf.
Qed.

Lemma buy_reqs_nodup (p : Dict.t holding) (prices : Dict.t Q)
  (target_qty : Dict.t Z) :
  Dict.wf target_qty ->
  NoDup (map br_ticker (buy_reqs_of p prices target_qty)).
Proof.
  unfold Dict.wf, Dict.keys, buy_reqs_of.
  induction target_qty as [|[t tq] l IH]; intro Hwf; cbn [flat_map map];
    [constructor|].
  cbn [map fst] in Hwf. apply NoDup_cons_iff in Hwf.
  destruct Hwf as [Hnotin Hwf]. cbn [fst snd].
  destruct (qty_of (Dict.get p t) <? tq)%Z; cbn [app map br_ticker];
    [|now apply IH].
  constructor; [|now apply IH].
  intro Hin. apply in_map_iff in Hin. destruct Hin as [r [Hr Hin]].
  apply buy_reqs_tickers in Hin. destruct Hin as [Hin _].
  apply Hnotin. rewrite <- Hr.
  change (br_ticker r)
    with (fst (br_ticker r, (qty_of (Dict.get p (br_ticker r)) + br_need_q r)%Z)).
  now apply in_map.
Qed.

Lemma buy_pass_capped (portfolio_prev : Dict.t holding)
  (target_qty : Dict.t Z) (scale : Q) (reqs : list buy_req) (st : buy_state) :
  Dict.wf target_qty ->
  scale <= 1 ->
  NoDup (map br_ticker reqs) ->
  (forall r, In r reqs ->
     In (br_ticker r,
         (qty_of (Dict.get portfolio_prev (br_ticker r)) + br_need_q r)%Z)
       target_qty
     /\ (0 < br_need_q r)%Z
     /\ Dict.get (buy_portfolio st) (br_ticker r)
        = Dict.get portfolio_prev (br_ticker r)) ->
  PositionCap.capped (PositionCap.ceiling portfolio_prev target_qty)
    (buy_portfolio st) ->
  PositionCap.capped (PositionCap.ceiling portfolio_prev target_qty)
    (buy_portfolio (fold_left (buy_step scale) reqs st)).
Proof.
  intros Hwf Hscale. revert st.
  induction reqs as [|r reqs IH]; intros st Hnd Hreqs Hcap; cbn [fold_left];
    [exact Hcap|].
  cbn [map] in Hnd. apply NoDup_cons_iff in Hnd. destruct Hnd as [Hr Hnd].
  destruct (Hreqs r (or_introl eq_refl)) as [Htq [Hneed Hsame]].
  apply IH; [exact Hnd | |].
  - intros r' Hin'. destruct (Hreqs r' (or_intror Hin')) as [H1 [H2 H3]].
    split; [exact H1|]. split; [exact H2|].
    rewrite buy_step_frame; [exact H3|].
    intro Heq. apply Hr. rewrite <- Heq. now apply in_map.
  - unfold buy_step.
    destruct (py_int (inject_Z (br_need_q r) * scale) <=? 0)%Z eqn:E;
      [exact Hcap|].
    cbn [buy_portfolio]. apply capped_set; [exact Hcap|].
    cbn [totalAmount]. rewrite Hsame.
    pose proof (scaled_need_le (br_need_q r) scale Hneed Hscale) as Hle.
    unfold PositionCap.ceiling, Dict.get_default.
    rewrite (in_wf_get target_qty _ _ Hwf Htq). lia.
Qed.

Lemma get_map_values {A B : Type} (g : string * A -> B) (d : Dict.t A)
  (t : string) :
  Dict.get (map (fun e : string * A => (fst e, g e)) d) t
  = option_map (fun v => g (t, v)) (Dict.get d t).
Proof.
  induction d as [|[k v] d IH]; cbn [map Dict.get fst]; [reflexivity|].
  destruct (String.eqb t k) eqn:E; [|exact IH].
  apply String.eqb_eq in E. now subst k.
Qed.

Lemma py_min_upper (a b : Q) : py_min a b <= b.
Proof.
  unfold py_min. destruct (Qltb b a) eqn:E; [lra|].
  now apply Qltb_false in E.
Qed.

(** X27. The per-name cap of the partial rebalance binds every purchase.
    From a long-only snapshot and a weight dictionary, in the snapshot
    [apply_partial_target_weights] returns a ticker outside the weights
    never holds more shares than before, and a ticker of the weights
    priced above 0 either holds no more shares than before or is worth,
    at today's price, at most 5% of the total equity the rebalance
    started from, whatever its weight and whichever corrections ran. *)
Theorem partial_rebalance_respects_cap :
  forall (s : snapshot) (prices : Dict.t Q) (w : Dict.t Q) (t : string),
    Dict.wf (portfolio s) ->
    long_only (portfolio s) ->
    Dict.wf w ->
    let q_prev := qty_of (Dict.get (portfolio s) t) in
    let q_new :=
      qty_of (Dict.get (portfolio (fst (apply_partial_target_weights s prices w)))
                t) in
    let px := price_or_last prices (portfolio s) t in
    (~ In t (Dict.keys w) -> (q_new <= q_prev)%Z)
    /\ (In t (Dict.keys w) -> 0 < px ->
        (q_new <= q_prev)%Z
        \/ inject_Z q_new * px <= (5 # 100) * equity_at s prices).
Proof.
  intros s prices w t Hwfp Hlo Hwfw. cbv zeta.
  unfold apply_partial_target_weights. cbv zeta. cbn [fst].
  rewrite equity_guard_portfolio.
  set (plan := partial_plan_of s prices w).
  set (tq := plan_target_qty plan).
  assert (Htq : tq = partial_target_qty (portfolio s) prices
                       (partial_target_dollars
                          (subset_value
                             (reprice prices (portfolio s)) prices w + cash s)
                          ((5 # 100) * equity_at s prices) w))
    by reflexivity.
  assert (Hwft : Dict.wf tq).
  { rewrite Htq. now apply partial_target_qty_wf. }
  set (bound := PositionCap.ceiling (portfolio s) tq).
  assert (Hnn : forall t', (0 <= bound t')%Z).
  { intro t'. unfold bound, PositionCap.ceiling.
    pose proof (long_only_qty (portfolio s) t' Hlo). lia. }
  assert (Hbought : PositionCap.capped bound
                      (buy_portfolio (plan_after_buys plan))).
  { unfold plan, partial_plan_of. cbv zeta. cbn [plan_after_buys].
    apply buy_pass_capped.
    - exact Hwft.
    - apply scale_of_le_1.
    - apply buy_reqs_nodup. exact Hwft.
    - intros r Hr. cbn [buy_portfolio].
      apply buy_reqs_tickers in Hr. tauto.
    - cbn [buy_portfolio]. split; [exact Hwfp|].
      intro t'. unfold bound, PositionCap.ceiling. lia. }
  pose proof (unwind_pass_capped bound Hnn
                (buy_applied (plan_after_buys plan))
                (buy_portfolio (plan_after_buys plan))
                (buy_cash (plan_after_buys plan)) Hbought) as Hunwound.
  set (unwound := unwind_pass (buy_applied (plan_after_buys plan))
                    (buy_portfolio (plan_after_buys plan))
                    (buy_cash (plan_after_buys plan))) in *.
  pose proof (emergency_pass_capped bound Hnn prices (fst unwound)
                (snd unwound) (buy_changes (plan_after_buys plan)) Hunwound)
    as Hsold.
  apply (capped_reprice bound prices) in Hsold.
  destruct Hsold as [_ Hfinal]. specialize (Hfinal t).
  unfold bound, PositionCap.ceiling, Dict.get_default in Hfinal.
  split.
  - intro Hout.
    assert (Hnone : Dict.get tq t = None).
    { apply get_none_notin. rewrite Htq.
      now rewrite partial_target_qty_keys, partial_target_dollars_keys. }
    rewrite Hnone in Hfinal. lia.
  - intros Hin Hpx.
    set (q_new := qty_of _) in *.
    destruct (Z_le_gt_dec q_new (qty_of (Dict.get (portfolio s) t)))
      as [Hle | Hgt]; [now left|].
    right.
    destruct (Dict.get w t) as [wt|] eqn:Ew.
    2: { apply get_none_notin in Ew. contradiction. }
    assert (Hget : Dict.get tq t
                   = Some (py_int
                             (py_floordiv
                                (py_min
                                   (py_max 0 wt
                                    * (subset_value
                                         (reprice prices (portfolio s)) prices w
                                       + cash s))
                                   ((5 # 100) * equity_at s prices))
                                (price_or_last prices (portfolio s) t)))).
    { rewrite Htq. unfold partial_target_qty, partial_target_dollars.
      rewrite map_map. cbn [fst snd].
      rewrite (get_map_values
                 (fun e : string * Q =>
                    if Qle_bool (price_or_last prices (portfolio s) (fst e)) 0
                    then qty_of (Dict.get (portfolio s) (fst e))
                    else py_int
                           (py_floordiv
                              (py_min
                                 (py_max 0 (snd e)
                                  * (subset_value
                                       (reprice prices (portfolio s)) prices w
                                     + cash s))
                                 ((5 # 100) * equity_at s prices))
                              (price_or_last prices (portfolio s) (fst e))))
                 w t).
      rewrite Ew. cbn [option_map fst snd].
      apply Qle_bool_false in Hpx. now rewrite Hpx. }
    rewrite Hget in Hfinal.
    set (td := py_min _ _) in *.
    set (px := price_or_last prices (portfolio s) t) in *.
    pose proof (floor_spend td px Hpx) as Hspend.
    unfold atw_target_qty in Hspend.
    assert (Hq : (q_new <= py_int (py_floordiv td px))%Z) by lia.
    rewrite Zle_Qle in Hq.
    apply (Qmult_le_compat_r _ _ px) in Hq; [|lra].
    pose proof (py_min_upper
                  (py_max 0 wt
                   * (subset_value (reprice prices (portfolio s)) prices w
                      + cash s))
                  ((5 # 100) * equity_at s prices)) as Hcap.
    fold td in Hcap. lra.
Qed.

End NameCap.

Lemma capped_weights_wf : Dict.wf Scenario.capped_weights.
Proof.
  unfold Dict.wf. cbn.
  constructor; [intros [H | [H | []]]; discriminate|].
  constructor; [intros [H | []]; discriminate|].
  constructor; [tauto | constructor].
Qed.

Lemma partial_rebalance_respects_cap_witness :
  let q_new :=
    Portfolio.qty_of
      (Dict.get
         (Portfolio.portfolio
            (fst (Portfolio.apply_partial_target_weights
                    Scenario.capped_snapshot Scenario.capped_prices
                    Scenario.capped_weights))) "A") in
  (q_new <= 0)%Z
  \/ inject_Z q_new * 10
     <= (5 # 100)
        * Portfolio.equity_at Scenario.capped_snapshot Scenario.capped_prices.
Proof.
  cbv zeta.
  destruct (partial_rebalance_respects_cap Scenario.capped_snapshot
              Scenario.capped_prices Scenario.capped_weights "A"
              capped_snapshot_wf capped_snapshot_long_only capped_weights_wf)
    as [_ H].
  apply H.
  - cbn. tauto.
  - reflexivity.
Defined.

(** ** The cost basis kept by the executor *)

Section CostBasis.
Import Portfolio.

(** X28. The entry price [_execute_trades_long_only] keeps is an average
    cost.  For a trade priced above 0: when shares are bought for a flat
    ticker, or added to a position with a positive entry price, the cost
    basis (entry price times quantity) grows by exactly the shares bought
    times the trade price; when shares are sold the entry price is kept,
    and reset to 0 if the position is closed; when the quantity does not
    change (no change asked, or a buy the cash cannot afford) the entry
    price is kept. *)
Theorem execute_trade_cost_basis :
  forall (d : Runner.data) (sym : string) (tr : Pipeline.trade),
    0 < Pipeline.price tr ->
    let before := Dict.get (Runner.portfolio d) sym in
    let after :=
      Dict.get (Runner.portfolio (Runner.execute_trade d (sym, tr))) sym in
    ((qty_of before < qty_of after)%Z ->
     (qty_of before = 0%Z
      \/ ((0 < qty_of before)%Z /\ 0 < entry_price_of before)) ->
     entry_price_of after * inject_Z (qty_of after)
     == entry_price_of before * inject_Z (qty_of before)
        + Pipeline.price tr * inject_Z (qty_of after - qty_of before))
    /\ ((qty_of after < qty_of before)%Z ->
        entry_price_of after
        = if (qty_of after =? 0)%Z then 0 else entry_price_of before)
    /\ (qty_of after = qty_of before ->
        entry_price_of after = entry_price_of before).
Proof.
  intros d sym tr Hpx. cbv zeta. unfold Runner.execute_trade. cbn [fst snd].
  destruct (Qle_bool (Pipeline.price tr) 0) eqn:Epx.
  { apply Qle_bool_iff in Epx. lra. }
  set (before := Dict.get (Runner.portfolio d) sym).
  set (cur := qty_of before).
  set (e := entry_price_of before).
  set (px := Pipeline.price tr) in *.
  set (tgt := Z.max 0 (Pipeline.target_qty tr)).
  set (aff := py_int (py_floordiv (Runner.liquid d) px)).
  destruct (0 <? tgt - cur)%Z eqn:Ebuy.
  - apply Z.ltb_lt in Ebuy.
    destruct (Z.min (tgt - cur) aff <=? 0)%Z eqn:Eaff;
      cbn [Runner.portfolio]; rewrite get_set_same;
      cbn [qty_of entry_price_of totalAmount entry_price].
    + split; [lia|]. split; [lia | reflexivity].
    + apply Z.leb_gt in Eaff. set (b := Z.min (tgt - cur) aff) in *.
      split; [|split; [lia | lia]].
      intros _ Hheld.
      replace (cur + b - cur)%Z with b by lia.
      destruct Hheld as [Hflat | [Hq He]].
      * rewrite Hflat. cbn [Z.ltb Z.compare andb Z.add].
        change (inject_Z 0) with 0. ring.
      * assert (E1 : (0 <? cur)%Z = true) by (apply Z.ltb_lt; exact Hq).
        assert (E2 : Qltb 0 e = true) by (apply Qltb_true; exact He).
        rewrite E1, E2. cbn [andb].
        replace (Z.max (cur + b) 1) with (cur + b)%Z by lia.
        assert (Hpos : 0 < inject_Z (cur + b)).
        { change 0 with (inject_Z 0). rewrite <- Zlt_Qlt. lia. }
        field. lra.
  - apply Z.ltb_ge in Ebuy.
    destruct (tgt - cur <? 0)%Z eqn:Esell;
      cbn [Runner.portfolio]; rewrite get_set_same;
      cbn [qty_of entry_price_of totalAmount entry_price].
    + apply Z.ltb_lt in Esell.
      split; [lia|]. split; [reflexivity | lia].
    + split; [lia|]. split; [lia | reflexivity].
Qed.

Lemma execute_trade_cost_basis_witness :
  let tr := Pipeline.mkTrade 2 12 10 110 in
  let after :=
    Dict.get (Runner.portfolio
                (Runner.execute_trade RunnerExample.book ("AAPL"%string, tr)))
      "AAPL" in
  entry_price_of after * inject_Z (qty_of after)
  == 90 * inject_Z 10 + 110 * inject_Z (qty_of after - 10).
Proof.
  cbv zeta.
  assert (Hpx : 0 < Pipeline.price (Pipeline.mkTrade 2 12 10 110))
    by reflexivity.
  destruct (execute_trade_cost_basis RunnerExample.book "AAPL"
              (Pipeline.mkTrade 2 12 10 110) Hpx) as [H _].
  apply H.
  - vm_compute. reflexivity.
  - right. split; [vm_compute; reflexivity | reflexivity].
Defined.

End CostBasis.

(** ** The optimizers without the long-only clamp *)

Section Unconstrained.
Import LinAlg.

(** X29. [mean_variance_optimize] with [long_only=False].  In [mvo.py]
    (where it is the default) the raw weights [pinv(cov) @ mu] are divided
    by their sum whenever that sum is not exactly 0: the result sums to 1,
    but when the sum is negative every weight comes out with the sign
    opposite to its raw weight; equal weights are returned only for a sum
    of exactly 0.  In [testing/mvo/optimizer.py] a raw vector whose sum is
    not positive is replaced by equal weights instead. *)
Theorem mvo_unconstrained_normalisation :
  forall (pinv : matrix -> matrix) (mu : vec) (cov : matrix),
    let raw := mat_vec (pinv cov) mu in
    let s := Qsum raw in
    let w := MVO.mean_variance_optimize pinv mu cov false in
    (s == 0 -> w = equal_weights (List.length raw))
    /\ (~ s == 0 -> w = map (fun x => x / s) raw /\ Qsum w == 1)
    /\ (s < 0 ->
        forall i, (i < List.length raw)%nat ->
                  (0 < nth i raw 0 -> nth i w 0 < 0)
                  /\ (nth i raw 0 < 0 -> 0 < nth i w 0))
    /\ (forall risk_aversion,
           is_square (List.length mu) cov = true ->
           ~ risk_aversion == 0 ->
           Qsum (mat_vec (mat_scale (1 / risk_aversion) (pinv cov)) mu) <= 0 ->
           Optimizer.mean_variance_optimize pinv mu cov risk_aversion false
           = Some (equal_weights (List.length mu))).
Proof.
  intros pinv mu cov. cbv zeta. unfold MVO.mean_variance_optimize.
  set (raw := mat_vec (pinv cov) mu).
  assert (Hnorm : ~ Qsum raw == 0 ->
                  (if Qeq_bool (Qsum raw) 0
                   then equal_weights (List.length raw)
                   else map (fun x => x / Qsum raw) raw)
                  = map (fun x => x / Qsum raw) raw).
  { intro Hs. destruct (Qeq_bool (Qsum raw) 0) eqn:E; [|reflexivity].
    apply Qeq_bool_iff in E. contradiction. }
  split.
  { intro Hs. apply Qeq_bool_iff in Hs. now rewrite Hs. }
  split.
  { intro Hs. rewrite (Hnorm Hs). split; [reflexivity|].
    rewrite Qsum_map_div. field. exact Hs. }
  split.
  { intros Hs i Hi.
    assert (Hne : ~ Qsum raw == 0) by lra.
    rewrite (Hnorm Hne).
    rewrite (nth_indep (map (fun x => x / Qsum raw) raw) 0 (0 / Qsum raw))
      by (rewrite length_map; exact Hi).
    rewrite (map_nth (fun x => x / Qsum raw) raw 0 i).
    set (x := nth i raw 0). set (s := Qsum raw) in *.
    assert (Hmul : x / s * s == x) by (field; exact Hne).
    clearbody x s. clear -Hs Hmul.
    split; intro Hx.
    - destruct (Qlt_le_dec (x / s) 0) as [H | H]; [exact H|].
      exfalso. assert (x / s * s <= 0) by nra. lra.
    - destruct (Qlt_le_dec 0 (x / s)) as [H | H]; [exact H|].
      exfalso. assert (0 <= x / s * s) by nra. lra. }
  intros ra Hsq Hra Hsum. unfold Optimizer.mean_variance_optimize.
  rewrite Hsq. cbn [negb].
  destruct (Qeq_bool ra 0) eqn:Era.
  { apply Qeq_bool_iff in Era. contradiction. }
  apply Qltb_false in Hsum. now rewrite Hsum.
Qed.

Lemma mvo_unconstrained_normalisation_witness :
  let w := MVO.mean_variance_optimize pinv_diag [1; - (3)] [[1; 0]; [0; 1]]
             false in
  nth 0 w 0 < 0.
Proof.
  cbv zeta.
  destruct (mvo_unconstrained_normalisation pinv_diag [1; - (3)]
              [[1; 0]; [0; 1]]) as [_ [_ [Hflip _]]].
  apply (Hflip ltac:(vm_compute; reflexivity) 0%nat).
  - cbn. lia.
  - vm_compute. reflexivity.
Defined.

End Unconstrained.

(** ** The market weights of a rebalance day *)

Section MarketPrior.
Import Portfolio PortfolioWeights RunLoop.

(** X30. The market weights [run] hands to [black_litterman] always sum
    to 1.  For a non-empty, duplicate-free ticker list that contains every
    holding of a snapshot with one entry per ticker, they are the shares
    of the holdings in the market value at the last prices when that value
    is positive, and the equal weights [1/n] when it is not (all shares
    are then 0). *)
Theorem run_market_weights_sum_to_one :
  forall (s : snapshot) (tickers : list string),
    tickers <> [] ->
    Dict.wf (portfolio s) ->
    NoDup tickers ->
    (forall t, In t (Dict.keys (portfolio s)) -> In t tickers) ->
    let market_w := market_w_of s tickers in
    List.length market_w = List.length tickers
    /\ Qsum market_w == 1
    /\ (0 < compute_market_value s ->
        market_w = holdings_to_weights s tickers)
    /\ (compute_market_value s <= 0 ->
        market_w
        = repeat (1 / inject_Z (Z.of_nat (List.length tickers)))
            (List.length tickers)).
Proof.
  intros s tickers Hne Hwf Hnd Hcover. cbv zeta. unfold market_w_of.
  assert (Hn : (0 < List.length tickers)%nat).
  { destruct tickers; [congruence | cbn; lia]. }
  assert (Hmax : Nat.max 1 (List.length tickers) = List.length tickers)
    by lia.
  rewrite Hmax.
  destruct (equal_weights_valid _ Hn) as [_ Hequal].
  unfold LinAlg.equal_weights in Hequal.
  destruct (Qlt_le_dec 0 (compute_market_value s)) as [Hpos | Hle].
  - pose proof (holdings_to_weights_total s tickers Hpos Hwf Hnd Hcover)
      as Hsum.
    assert (E : Qeq_bool (Qsum (holdings_to_weights s tickers)) 0 = false).
    { destruct (Qeq_bool (Qsum (holdings_to_weights s tickers)) 0) eqn:E0;
        [|reflexivity].
      apply Qeq_bool_iff in E0. lra. }
    rewrite E.
    split; [apply holdings_to_weights_length|].
    split; [exact Hsum|]. split; [reflexivity|]. intro H. lra.
  - assert (Hzero : holdings_to_weights s tickers = map (fun _ => 0) tickers).
    { unfold holdings_to_weights. apply Qle_bool_iff in Hle. now rewrite Hle. }
    assert (E : Qeq_bool (Qsum (holdings_to_weights s tickers)) 0 = true).
    { apply Qeq_bool_iff. rewrite Hzero. apply Qsum_map_zero. }
    rewrite E.
    split; [apply repeat_length|].
    split; [exact Hequal|]. split; [intro H; lra | reflexivity].
Qed.

Lemma run_market_weights_sum_to_one_witness :
  Qsum (market_w_of Scenario.capped_snapshot ["Z"; "C"; "A"]%string) == 1.
Proof.
  apply (run_market_weights_sum_to_one Scenario.capped_snapshot
           ["Z"; "C"; "A"]%string).
  - discriminate.
  - apply capped_snapshot_wf.
  - repeat constructor; simpl; intuition discriminate.
  - simpl. intros t [<- | [<- | []]]; simpl; auto.
Defined.

End MarketPrior.
